(** * stock_chart_pro: normalisation, indicators and the comparison summary

    A shallow embedding of the data functions of [stock_chart_pro.py]
    ([fix_dataframe_columns], [download_stock_data], the [calculate_*]
    indicators and the figures computed by [print_comparison_summary]).

    Numbers.  A pandas cell is a binary64 value that is either a number or
    NaN.  The indicators and the single-asset summary are modelled with the
    special values kept and the arithmetic made exact: a cell is an
    [option Q] ([None] is NaN), and the results of numpy divisions, which
    may also be infinite, live in [float]; rounding, overflow and the sign
    of zero are not represented there, and the square root used by the
    rolling standard deviation is a parameter.  Where the last digit decides
    the outcome, in the comparison summary and in the algebra of the
    Bollinger bands, the module [Binary64] models the same code over the
    doubles of the machine.

    Labels.  Column labels are strings, as the provider gives them, and
    [lower] folds the ASCII letters.

    pandas.  [rolling(window=w)] has [min_periods = w]: a point is defined
    when its trailing window is complete and holds no NaN.
    [ewm(span=w, adjust=False)] has [min_periods = 0] and [ignore_na = False];
    [ewm_step] follows the loop of the pandas implementation. *)

From Stdlib Require Import String Ascii Bool Arith ZArith QArith Qabs Qround Qminmax Lia Lqa List.
From Stdlib Require PrimFloat FloatOps FloatAxioms SpecFloat.
Import ListNotations.

Local Open Scope string_scope.
Local Open Scope nat_scope.

(** ** Exceptions *)

Inductive exn : Type :=
| KeyError (key : string)
| ValueError (msg : string)
| IndexError (msg : string).

Inductive result (A : Type) : Type :=
| Ok (a : A)
| Raise (e : exn).

Arguments Ok {A} a.
Arguments Raise {A} e.

Definition bind {A B : Type} (r : result A) (k : A -> result B) : result B :=
  match r with
  | Ok a => k a
  | Raise e => Raise e
  end.

Notation "x <- r ;; k" := (bind r (fun x => k))
  (at level 61, r at next level, right associativity).

(** ** Cells, series and frames *)

(** A float64 cell of a price table: a number or NaN. *)
Definition cell : Type := option Q.

Record Series (A : Type) : Type := mkSeries {
  s_index : list Z;
  s_values : list A
}.

Arguments mkSeries {A} s_index s_values.
Arguments s_index {A} s.
Arguments s_values {A} s.

(** The column labels of a frame: a flat [Index] or a two-level
    [MultiIndex] of (price type, symbol) pairs. *)
Inductive ColIndex : Type :=
| Index (labels : list string)
| MultiIndex (labels : list (string * string)).

(** A frame over cells of type [A]; the price tables of this development
    are frames of [cell]. *)
Record DataFrameOf (A : Type) : Type := mkDataFrame {
  df_index : list Z;
  df_columns : ColIndex;
  df_values : list (list A)
}.

Arguments mkDataFrame {A} df_index df_columns df_values.
Arguments df_index {A} d.
Arguments df_columns {A} d.
Arguments df_values {A} d.

Definition DataFrame : Type := DataFrameOf cell.

(** [df.columns.get_level_values(0)] *)
Definition get_level_values0 (labels : list (string * string)) : list string :=
  map fst labels.

Definition outer_labels (c : ColIndex) : list string :=
  match c with
  | Index labels => labels
  | MultiIndex labels => get_level_values0 labels
  end.

Definition ncols (c : ColIndex) : nat :=
  match c with
  | Index labels => length labels
  | MultiIndex labels => length labels
  end.

(** [df.empty]: some axis has length zero. *)
Definition empty {A : Type} (df : DataFrameOf A) : bool :=
  (length (df_index df) =? 0) || (ncols (df_columns df) =? 0).

(** What [df[key]] evaluates to: a [Series] for a unique flat label, a
    sub-frame when the label is duplicated or the columns are nested. *)
Inductive Selection (A : Type) : Type :=
| SelSeries (s : Series A)
| SelFrame (idx : list Z) (cols : list (list A)).

Arguments SelSeries {A} s.
Arguments SelFrame {A} idx cols.

Definition select {A : Type} (key : string) (labels : list string)
    (cols : list (list A)) : list (list A) :=
  map snd (filter (fun p => String.eqb (fst p) key) (combine labels cols)).

Definition getitem {A : Type} (df : DataFrameOf A) (key : string)
    : result (Selection A) :=
  match select key (outer_labels (df_columns df)) (df_values df) with
  | [] => Raise (KeyError key)
  | [c] =>
      match df_columns df with
      | Index _ => Ok (SelSeries (mkSeries (df_index df) c))
      | MultiIndex _ => Ok (SelFrame (df_index df) [c])
      end
  | cs => Ok (SelFrame (df_index df) cs)
  end.

(** [frame.iloc[:, 0]] *)
Definition iloc0 {A : Type} (idx : list Z) (cols : list (list A))
    : result (Series A) :=
  match cols with
  | c :: _ => Ok (mkSeries idx c)
  | [] => Raise (IndexError "single positional indexer is out-of-bounds")
  end.

(** [col = data[key]], then [col.iloc[:, 0]] when that is a frame. *)
Definition column_series {A : Type} (data : DataFrameOf A) (key : string)
    : result (Series A) :=
  col <- getitem data key ;;
  match col with
  | SelFrame idx cols => iloc0 idx cols
  | SelSeries s => Ok s
  end.

(** The opening lines shared by every indicator:
    [close = data['Close']], then [close.iloc[:, 0]] when that is a frame. *)
Definition close_column {A : Type} (data : DataFrameOf A) : result (Series A) :=
  column_series data "Close".

(** ** Exact arithmetic on cells *)

Local Open Scope Q_scope.

Definition Qltb (a b : Q) : bool := negb (Qle_bool b a).

Definition cell_lift2 (f : Q -> Q -> Q) (a b : cell) : cell :=
  match a, b with
  | Some x, Some y => Some (f x y)
  | _, _ => None
  end.

Definition cell_add : cell -> cell -> cell := cell_lift2 Qplus.
Definition cell_sub : cell -> cell -> cell := cell_lift2 Qminus.
Definition cell_mul : cell -> cell -> cell := cell_lift2 Qmult.

(** Two cells hold the same value. *)
Definition cell_eq (a b : cell) : Prop :=
  match a, b with
  | Some x, Some y => x == y
  | None, None => True
  | _, _ => False
  end.

Definition cell_eqb (a b : cell) : bool :=
  match a, b with
  | Some x, Some y => Qeq_bool x y
  | None, None => true
  | _, _ => false
  end.

Definition defined (c : cell) : bool :=
  match c with
  | Some _ => true
  | None => false
  end.

Definition count_defined (xs : list cell) : nat :=
  length (filter defined xs).

Definition Qsum (qs : list Q) : Q := fold_right Qplus 0 qs.

Definition Qmean (qs : list Q) : Q := Qsum qs / inject_Z (Z.of_nat (length qs)).

(** Binary operators between two series on the same index. *)
Definition series_zip {A B C : Type} (f : A -> B -> C)
    (a : Series A) (b : Series B) : Series C :=
  mkSeries (s_index a) (map (fun p => f (fst p) (snd p)) (combine (s_values a) (s_values b))).

Definition series_map {A B : Type} (f : A -> B) (a : Series A) : Series B :=
  mkSeries (s_index a) (map f (s_values a)).

(** ** Rolling windows *)

(** The [w] values ending at position [i]. *)
Definition window_values {A : Type} (w i : nat) (xs : list A) : list A :=
  firstn w (skipn (S i - w) xs).

(** The numbers of a window, or [None] when one of them is NaN. *)
Fixpoint observed (xs : list cell) : option (list Q) :=
  match xs with
  | [] => Some []
  | None :: _ => None
  | Some q :: rest =>
      match observed rest with
      | Some qs => Some (q :: qs)
      | None => None
      end
  end.

Definition rolling_at (f : list Q -> cell) (w : nat) (xs : list cell) (i : nat) : cell :=
  if (1 <=? w)%nat && (w <=? S i)%nat then
    match observed (window_values w i xs) with
    | Some qs => f qs
    | None => None
    end
  else None.

Definition rolling (f : list Q -> cell) (w : nat) (xs : list cell) : list cell :=
  map (rolling_at f w xs) (seq 0 (length xs)).

Definition rolling_mean (w : nat) (s : Series cell) : Series cell :=
  mkSeries (s_index s) (rolling (fun qs => Some (Qmean qs)) w (s_values s)).

(** ** Indicators *)

(** [calculate_sma] *)
Definition calculate_sma (data : DataFrame) (window : nat) : result (Series cell) :=
  close <- close_column data ;;
  Ok (rolling_mean window close).

(** [ewm(span=window, adjust=False).mean()]: the state is the running
    average [weighted] and the weight [old_wt] of the past.  The weight
    [new_wt] of an observation is [alpha], except that at a centre of mass
    of 1 (a span of 3, [alpha = 1/2]) the loop resets it to [1 - old_wt]. *)
Definition ewm_step (alpha : Q) (st : cell * Q) (cur : cell) : cell * Q :=
  let '(weighted, old_wt) := st in
  match weighted with
  | Some wv =>
      let old_wt := old_wt * (1 - alpha) in
      match cur with
      | Some c =>
          let new_wt := if Qeq_bool alpha (1 # 2) then 1 - old_wt else alpha in
          (Some ((old_wt * wv + new_wt * c) / (old_wt + new_wt)), 1)
      | None => (Some wv, old_wt)
      end
  | None => (cur, old_wt)
  end.

Fixpoint ewm_from (alpha : Q) (st : cell * Q) (xs : list cell) : list cell :=
  match xs with
  | [] => []
  | cur :: rest =>
      let st' := ewm_step alpha st cur in
      fst st' :: ewm_from alpha st' rest
  end.

Definition ewm_values (alpha : Q) (xs : list cell) : list cell :=
  match xs with
  | [] => []
  | x0 :: rest => x0 :: ewm_from alpha (x0, 1) rest
  end.

Definition span_alpha (span : nat) : Q := 2 / (inject_Z (Z.of_nat span) + 1).

(** [s.ewm(span=span, adjust=False).mean()]; pandas refuses a span below 1. *)
Definition ewm_mean (span : nat) (s : Series cell) : result (Series cell) :=
  if (span <? 1)%nat then Raise (ValueError "span must satisfy: span >= 1")
  else Ok (mkSeries (s_index s) (ewm_values (span_alpha span) (s_values s))).

(** [calculate_ema] *)
Definition calculate_ema (data : DataFrame) (window : nat) : result (Series cell) :=
  close <- close_column data ;;
  ewm_mean window close.

(** [calculate_macd] *)
Definition calculate_macd (data : DataFrame) (fast slow signal : nat)
    : result (Series cell * Series cell * Series cell) :=
  close <- close_column data ;;
  ema_fast <- ewm_mean fast close ;;
  ema_slow <- ewm_mean slow close ;;
  let macd_line := series_zip cell_sub ema_fast ema_slow in
  signal_line <- ewm_mean signal macd_line ;;
  let histogram := series_zip cell_sub macd_line signal_line in
  Ok (macd_line, signal_line, histogram).

(** The sample variance ([ddof = 1]) of a complete window; NaN for fewer
    than two points. *)
Definition Qvar (qs : list Q) : cell :=
  if (length qs <=? 1)%nat then None
  else
    let m := Qmean qs in
    Some (Qsum (map (fun x => (x - m) * (x - m)) qs)
          / inject_Z (Z.of_nat (length qs - 1))).

Section Volatility.

(** The square root of the floating-point library. *)
Variable Qsqrt : Q -> Q.

Definition Qstd (qs : list Q) : cell := option_map Qsqrt (Qvar qs).

Definition rolling_std (w : nat) (s : Series cell) : Series cell :=
  mkSeries (s_index s) (rolling Qstd w (s_values s)).

(** [calculate_bollinger_bands] *)
Definition calculate_bollinger_bands (data : DataFrame) (window : nat) (num_std : Q)
    : result (Series cell * Series cell * Series cell) :=
  sma <- calculate_sma data window ;;
  close <- close_column data ;;
  let std := rolling_std window close in
  let upper_band := series_zip cell_add sma (series_map (fun x => cell_mul x (Some num_std)) std) in
  let lower_band := series_zip cell_sub sma (series_map (fun x => cell_mul x (Some num_std)) std) in
  Ok (upper_band, sma, lower_band).

End Volatility.

(** ** Floating-point results with infinities *)

Inductive float : Type :=
| Fin (q : Q)
| PInf
| NInf
| NaN.

Definition of_cell (c : cell) : float :=
  match c with
  | Some q => Fin q
  | None => NaN
  end.

Definition fneg (a : float) : float :=
  match a with
  | Fin q => Fin (- q)
  | PInf => NInf
  | NInf => PInf
  | NaN => NaN
  end.

Definition fadd (a b : float) : float :=
  match a, b with
  | NaN, _ | _, NaN => NaN
  | Fin x, Fin y => Fin (x + y)
  | PInf, NInf | NInf, PInf => NaN
  | PInf, _ | _, PInf => PInf
  | NInf, _ | _, NInf => NInf
  end.

Definition fsub (a b : float) : float := fadd a (fneg b).

(** The product of an infinity and a finite number of the given sign. *)
Definition inf_times (positive : bool) (q : Q) : float :=
  if Qeq_bool q 0 then NaN
  else if Bool.eqb positive (Qltb 0 q) then PInf else NInf.

Definition fmul (a b : float) : float :=
  match a, b with
  | NaN, _ | _, NaN => NaN
  | Fin x, Fin y => Fin (x * y)
  | PInf, Fin y | Fin y, PInf => inf_times true y
  | NInf, Fin y | Fin y, NInf => inf_times false y
  | PInf, PInf | NInf, NInf => PInf
  | PInf, NInf | NInf, PInf => NInf
  end.

(** Division as numpy does it: no exception, [x / 0] is an infinity of the
    sign of [x] and [0 / 0] is NaN. *)
Definition fdiv (a b : float) : float :=
  match a, b with
  | NaN, _ | _, NaN => NaN
  | Fin x, Fin y =>
      if Qeq_bool y 0 then
        if Qltb 0 x then PInf else if Qltb x 0 then NInf else NaN
      else Fin (x / y)
  | Fin _, PInf | Fin _, NInf => Fin 0
  | PInf, Fin y => if Qltb y 0 then NInf else PInf
  | NInf, Fin y => if Qltb y 0 then PInf else NInf
  | _, _ => NaN
  end.

Definition fabs (a : float) : float :=
  match a with
  | Fin q => Fin (Qabs q)
  | PInf | NInf => PInf
  | NaN => NaN
  end.

(** [a > b]; false as soon as one side is NaN. *)
Definition fgt (a b : float) : bool :=
  match a, b with
  | NaN, _ | _, NaN => false
  | Fin x, Fin y => Qltb y x
  | PInf, PInf => false
  | PInf, _ => true
  | _, PInf => false
  | NInf, _ => false
  | Fin _, NInf => true
  end.

(** Two results hold the same value. *)
Definition float_eq (a b : float) : Prop :=
  match a, b with
  | Fin x, Fin y => x == y
  | PInf, PInf | NInf, NInf | NaN, NaN => True
  | _, _ => False
  end.

Definition float_eqb (a b : float) : bool :=
  match a, b with
  | Fin x, Fin y => Qeq_bool x y
  | PInf, PInf | NInf, NInf | NaN, NaN => true
  | _, _ => false
  end.

(** [close.diff()] *)
Definition diff (xs : list cell) : list cell :=
  match xs with
  | [] => []
  | _ :: rest => None :: map (fun p => cell_sub (snd p) (fst p)) (combine xs rest)
  end.

(** [delta.where(delta > 0, 0)] *)
Definition where_positive (d : cell) : cell :=
  match d with
  | Some q => if Qltb 0 q then Some q else Some 0
  | None => Some 0
  end.

(** [-delta.where(delta < 0, 0)] *)
Definition neg_where_negative (d : cell) : cell :=
  match d with
  | Some q => if Qltb q 0 then Some (- q) else Some (- 0)
  | None => Some (- 0)
  end.

(** The series [gain] and [loss] of [calculate_rsi]. *)
Definition rsi_gain (close : Series cell) (window : nat) : Series cell :=
  rolling_mean window (mkSeries (s_index close) (map where_positive (diff (s_values close)))).

Definition rsi_loss (close : Series cell) (window : nat) : Series cell :=
  rolling_mean window (mkSeries (s_index close) (map neg_where_negative (diff (s_values close)))).

Definition rsi_of (gain loss : cell) : float :=
  let rs := fdiv (of_cell gain) (of_cell loss) in
  fsub (Fin 100) (fdiv (Fin 100) (fadd (Fin 1) rs)).

(** [calculate_rsi] *)
Definition calculate_rsi (data : DataFrame) (window : nat) : result (Series float) :=
  close <- close_column data ;;
  let gain := rsi_gain close window in
  let loss := rsi_loss close window in
  Ok (series_zip rsi_of gain loss).

(** ** The normaliser *)

Local Open Scope nat_scope.

(** [str.lower()] on the ASCII letters. *)
Definition lower_ascii (c : ascii) : ascii :=
  let n := nat_of_ascii c in
  if (65 <=? n) && (n <=? 90) then ascii_of_nat (n + 32) else c.

Fixpoint lower (s : string) : string :=
  match s with
  | EmptyString => EmptyString
  | String c rest => String (lower_ascii c) (lower rest)
  end.

Definition expected_cols : list string := ["Open"; "High"; "Low"; "Close"; "Volume"].

(** [col in df.columns] *)
Definition contains (col : string) (labels : list string) : bool :=
  existsb (String.eqb col) labels.

(** The inner loop up to its [break]: the first existing label that equals
    [col] once both are lower-cased. *)
Fixpoint first_match (col : string) (existing : list string) : option string :=
  match existing with
  | [] => None
  | existing_col :: rest =>
      if String.eqb (lower existing_col) (lower col) then Some existing_col
      else first_match col rest
  end.

(** [df.rename(columns={old: new})] on the labels: every column carrying
    [old] is relabelled. *)
Definition rename (old new : string) (labels : list string) : list string :=
  map (fun l => if String.eqb l old then new else l) labels.

(** One round of the outer loop. *)
Definition fix_column (labels : list string) (col : string) : list string :=
  if contains col labels then labels
  else
    match first_match col labels with
    | Some existing_col => rename existing_col col labels
    | None => labels
    end.

Definition set_columns (df : DataFrame) (labels : list string) : DataFrame :=
  mkDataFrame (df_index df) (Index labels) (df_values df).

(** [fix_dataframe_columns].  After the flattening step the columns are a
    flat index, on whose labels the renaming loop runs. *)
Definition fix_dataframe_columns (df : option DataFrame) : option DataFrame :=
  match df with
  | None => None
  | Some d =>
      if empty d then Some d
      else
        let d :=
          match df_columns d with
          | MultiIndex labels => set_columns d (get_level_values0 labels)
          | Index _ => d
          end in
        Some (set_columns d (fold_left fix_column expected_cols (outer_labels (df_columns d))))
  end.

(** ** Fetching *)

Inductive provider_outcome : Type :=
| ProviderRaises (msg : string)
| ProviderReturns (data : DataFrame).

Section Provider.

(** [yf.download(ticker, period=period, interval=interval, progress=False)] *)
Variable yf_download : string -> string -> string -> provider_outcome.

(** [download_stock_data]: the pair (data, error message). *)
Definition download_stock_data (ticker period interval : string)
    : option DataFrame * option string :=
  match yf_download ticker period interval with
  | ProviderRaises msg => (None, Some msg)
  | ProviderReturns data =>
      if empty data then (None, Some "No data available for this combination"%string)
      else (fix_dataframe_columns (Some data), None)
  end.

End Provider.

(** ** Columns as arrays *)

(** [get_column_values]: the column as an array of floats. *)
Definition get_column_values (data : DataFrame) (column_name : string) : result (list float) :=
  col <- column_series data column_name ;;
  Ok (map of_cell (s_values col)).

(** [a[-1]] and [a[0]] on an array. *)
Definition last_value (a : list float) : result float :=
  match a with
  | [] => Raise (IndexError "index -1 is out of bounds for axis 0 with size 0")
  | _ :: _ => Ok (last a NaN)
  end.

Definition first_value (a : list float) : result float :=
  match a with
  | [] => Raise (IndexError "index 0 is out of bounds for axis 0 with size 0")
  | x :: _ => Ok x
  end.

(** * Menus, overlays and the single-asset summary

    The functions that read a line typed by the user take that line as their
    argument, and what they print is left out.  Text is a string of UTF-8
    bytes.  A call on the plotting backend is recorded as a [draw]
    value.  The timestamps of an index count nanoseconds. *)

Local Open Scope nat_scope.

(** ** Text and dictionaries *)

(** Text is held as its UTF-8 bytes.  [str.strip()] removes the characters
    of [str.isspace]: the ASCII ones, U+0009 to U+000D and U+001C to
    U+0020, and the Unicode ones, U+0085, U+00A0, U+1680, U+2000 to U+200A,
    U+2028, U+2029, U+202F, U+205F and U+3000. *)
Definition is_space (c : ascii) : bool :=
  let n := nat_of_ascii c in
  ((9 <=? n) && (n <=? 13)) || ((28 <=? n) && (n <=? 32)).

Definition utf8 (bytes : list nat) : string :=
  string_of_list_ascii (map ascii_of_nat bytes).

Definition unicode_spaces : list string :=
  map utf8
    ([[194; 133]; [194; 160]; [225; 154; 128]]
     ++ map (fun n => [226; 128; 128 + n]) (seq 0 11)
     ++ [[226; 128; 168]; [226; 128; 169]; [226; 128; 175];
         [226; 129; 159]; [227; 128; 128]])%list.

Fixpoint strip_prefix (p s : string) : option string :=
  match p, s with
  | EmptyString, _ => Some s
  | String a p', String b s' => if Ascii.eqb a b then strip_prefix p' s' else None
  | String _ _, EmptyString => None
  end.

Fixpoint strip_any (ps : list string) (s : string) : option string :=
  match ps with
  | [] => None
  | p :: ps' =>
      match strip_prefix p s with
      | Some rest => Some rest
      | None => strip_any ps' s
      end
  end.

(** What follows one leading whitespace character, if there is one. *)
Definition leading_space (s : string) : option string :=
  match s with
  | EmptyString => None
  | String c rest => if is_space c then Some rest else strip_any unicode_spaces s
  end.

Fixpoint lstrip_upto (n : nat) (s : string) : string :=
  match n with
  | O => s
  | S n' =>
      match leading_space s with
      | Some rest => lstrip_upto n' rest
      | None => s
      end
  end.

Definition lstrip (s : string) : string := lstrip_upto (String.length s) s.

Definition all_space (s : string) : bool := String.eqb (lstrip s) "".

Fixpoint rstrip (s : string) : string :=
  match s with
  | EmptyString => EmptyString
  | String c rest => if all_space s then EmptyString else String c (rstrip rest)
  end.

Definition strip (s : string) : string := rstrip (lstrip s).

(** [s.split(sep)] for a one-character separator. *)
Fixpoint split (sep : ascii) (s : string) : list string :=
  match s with
  | EmptyString => [EmptyString]
  | String c rest =>
      if Ascii.eqb c sep then EmptyString :: split sep rest
      else
        match split sep rest with
        | piece :: pieces => String c piece :: pieces
        | [] => [String c EmptyString]
        end
  end.

(** A dict literal with string keys, [k in d], [d[k]] and [d.get(k, default)]. *)
Definition dict (V : Type) : Type := list (string * V).

Fixpoint dict_lookup {V : Type} (d : dict V) (k : string) : option V :=
  match d with
  | [] => None
  | (k', v) :: rest => if String.eqb k k' then Some v else dict_lookup rest k
  end.

Definition dict_get {V : Type} (d : dict V) (k : string) (default : V) : V :=
  match dict_lookup d k with
  | Some v => v
  | None => default
  end.

Definition dict_item {V : Type} (d : dict V) (k : string) : result V :=
  match dict_lookup d k with
  | Some v => Ok v
  | None => Raise (KeyError k)
  end.

(** [x in [a, b, ...]] *)
Definition str_in (x : string) (xs : list string) : bool :=
  existsb (String.eqb x) xs.

(** ** Menu functions *)

Definition period_map : dict string :=
  [("1", "1d"); ("2", "5d"); ("3", "1mo"); ("4", "3mo"); ("5", "6mo");
   ("6", "1y"); ("7", "2y"); ("8", "5y"); ("9", "10y"); ("10", "max");
   ("", "1y")].

(** [get_period], on the line typed at its prompt. *)
Definition get_period (line : string) : string :=
  let choice := strip line in
  dict_get period_map choice choice.

(** [auto_select_interval] *)
Definition auto_select_interval (period : string) : string :=
  if str_in period ["1d"] then "5m"
  else if str_in period ["5d"] then "1h"
  else if str_in period ["1mo"; "3mo"] then "1d"
  else if str_in period ["6mo"; "1y"; "2y"] then "1d"
  else "1wk".

Definition interval_map : dict string :=
  [("1", "1m"); ("2", "5m"); ("3", "15m"); ("4", "1h");
   ("5", "1d"); ("6", "1wk"); ("7", "1mo")].

(** [get_interval], on the line typed at its prompt. *)
Definition get_interval (period line : string) : string :=
  let choice := strip line in
  if String.eqb choice "" then auto_select_interval period
  else dict_get interval_map choice "1d".

Definition style_map : dict string :=
  [("1", "line"); ("2", "area"); ("3", "bar"); ("4", "candlestick"); ("", "line")].

(** [get_chart_style], on the line typed at its prompt. *)
Definition get_chart_style (line : string) : string :=
  let choice := strip line in
  dict_get style_map choice "line".

Definition indicator_map : dict string :=
  [("1", "sma20"); ("2", "sma50"); ("3", "ema20"); ("4", "bb")].

(** The loop of [get_indicators] over the pieces of the choice. *)
Fixpoint collect_indicators (pieces : list string) : list string :=
  match pieces with
  | [] => []
  | c :: rest =>
      let c := strip c in
      match dict_lookup indicator_map c with
      | Some indicator => indicator :: collect_indicators rest
      | None => collect_indicators rest
      end
  end.

(** [get_indicators], on the line typed at its prompt. *)
Definition get_indicators (line : string) : list string :=
  let choice := strip line in
  if String.eqb choice "" || String.eqb choice "0" then []
  else if String.eqb choice "5" then ["sma20"; "sma50"; "ema20"; "bb"]
  else collect_indicators (split "," choice).

(** [get_theme], on the line typed at its prompt. *)
Definition get_theme (line : string) : string :=
  let choice := strip line in
  if String.eqb choice "2" then "light" else "dark".

(** ** Themes *)

(** [Config.THEMES] *)
Definition THEMES : dict (dict string) :=
  [("dark",
    [("bg_color", "#1a1a2e"); ("text_color", "#ffffff"); ("grid_color", "#333333");
     ("up_color", "#00ff88"); ("down_color", "#ff4444"); ("line_color", "#00d4ff");
     ("area_color", "#00d4ff"); ("accent_color", "#ff6b6b")]);
   ("light",
    [("bg_color", "#ffffff"); ("text_color", "#333333"); ("grid_color", "#cccccc");
     ("up_color", "#26a65b"); ("down_color", "#e74c3c"); ("line_color", "#3498db");
     ("area_color", "#3498db"); ("accent_color", "#e74c3c")])].

(** The theme [apply_theme] works with and returns:
    [Config.THEMES.get(theme_name, Config.THEMES["dark"])]. *)
Definition selected_theme (theme_name : string) : result (dict string) :=
  dark <- dict_item THEMES "dark" ;;
  Ok (dict_get THEMES theme_name dark).

(** A colour setting made on the figure or on the axes. *)
Record setting : Type := mkSetting {
  target : string;
  colour : string
}.

(** [apply_theme]: the settings it makes, in order, and the theme it
    returns. *)
Definition apply_theme (theme_name : string) : result (list setting * dict string) :=
  theme <- selected_theme theme_name ;;
  bg1 <- dict_item theme "bg_color" ;;
  bg2 <- dict_item theme "bg_color" ;;
  tick <- dict_item theme "text_color" ;;
  xlabel <- dict_item theme "text_color" ;;
  ylabel <- dict_item theme "text_color" ;;
  title <- dict_item theme "text_color" ;;
  bottom <- dict_item theme "grid_color" ;;
  top <- dict_item theme "grid_color" ;;
  left <- dict_item theme "grid_color" ;;
  right <- dict_item theme "grid_color" ;;
  grid <- dict_item theme "grid_color" ;;
  Ok ([mkSetting "fig.patch.facecolor" bg1; mkSetting "ax.facecolor" bg2;
       mkSetting "ax.tick_params.colors" tick; mkSetting "ax.xaxis.label.color" xlabel;
       mkSetting "ax.yaxis.label.color" ylabel; mkSetting "ax.title.color" title;
       mkSetting "ax.spines.bottom.color" bottom; mkSetting "ax.spines.top.color" top;
       mkSetting "ax.spines.left.color" left; mkSetting "ax.spines.right.color" right;
       mkSetting "ax.grid.color" grid],
      theme).

(** ** Drawing *)

Local Open Scope Q_scope.

(** [a >= b]; false as soon as one side is NaN. *)
Definition fge (a b : float) : bool :=
  match a, b with
  | NaN, _ | _, NaN => false
  | Fin x, Fin y => Qle_bool y x
  | PInf, _ => true
  | _, NInf => true
  | _, _ => false
  end.

(** The built-in [max(a, b)] and [min(a, b)]: the first argument unless
    the second compares strictly beyond it. *)
Definition py_max (a b : float) : float := if fgt b a then b else a.
Definition py_min (a b : float) : float := if fgt a b then b else a.

(** The calls made on the axes. *)
Inductive draw : Type :=
| Plot (x : list Z) (y : list float) (color : string) (linewidth : Q)
       (label : string) (linestyle : string)
| FillBetween (x : list Z) (y1 y2 : list float) (alpha : Q) (color : string)
| Bar (x : Z) (height : float) (width : Q) (bottom : float) (color : string)
      (edgecolor : option string).

(** [a[i]] on an array or an index. *)
Definition item {A : Type} (a : list A) (i : nat) : result A :=
  match nth_error a i with
  | Some v => Ok v
  | None => Raise (IndexError "index is out of bounds")
  end.

Definition ticks_per_second : Z := 1000000000.

(** [(t1 - t0).total_seconds()] *)
Definition total_seconds (t1 t0 : Z) : Q :=
  inject_Z (t1 - t0) / inject_Z ticks_per_second.

(** The width of a candle body in seconds: [timedelta(minutes=1)],
    [timedelta(hours=0.5)], [timedelta(days=0.6)] or [timedelta(days=4)]. *)
Definition candle_width (index : list Z) : result Q :=
  if (1 <? length index)%nat then
    t1 <- item index 1 ;;
    t0 <- item index 0 ;;
    let time_diff := total_seconds t1 t0 in
    if Qltb time_diff 3600 then Ok 60
    else if Qltb time_diff 86400 then Ok 1800
    else if Qltb time_diff 604800 then Ok 51840
    else Ok 345600
  else Ok 51840.

(** The calls drawn so far and, when the code stopped on one, the
    exception. *)
Definition drawing : Type := (list draw * option exn)%type.

(** One round of the loop of [plot_candlestick]: the body and the two
    wicks of the candle at position [i]. *)
Definition candle (index : list Z) (open_vals high_vals low_vals close_vals : list float)
    (theme : dict string) (width width2 : Q) (i : nat) : drawing :=
  match
    (c <- item close_vals i ;;
     o <- item open_vals i ;;
     color <- (if fge c o then dict_item theme "up_color"
               else dict_item theme "down_color") ;;
     x <- item index i ;;
     Ok (c, o, color, x))
  with
  | Raise e => ([], Some e)
  | Ok (c, o, color, x) =>
      let body_bottom := if fge c o then o else c in
      let body_height := if fge c o then fsub c o else fsub o c in
      let body := Bar x body_height width body_bottom color (Some color) in
      match item high_vals i with
      | Raise e => ([body], Some e)
      | Ok h =>
          let upper := Bar x (fsub h (py_max o c)) width2 (py_max o c) color None in
          match item low_vals i with
          | Raise e => ([body; upper], Some e)
          | Ok l => ([body; upper; Bar x (fsub (py_min o c) l) width2 l color None], None)
          end
      end
  end.

Fixpoint draw_each (step : nat -> drawing) (positions : list nat) : drawing :=
  match positions with
  | [] => ([], None)
  | i :: rest =>
      match step i with
      | (ds, None) => let '(more, e) := draw_each step rest in (ds ++ more, e)%list
      | (ds, Some e) => (ds, Some e)
      end
  end.

(** [plot_candlestick] *)
Definition plot_candlestick (data : DataFrame) (theme : dict string) : drawing :=
  match
    (open_vals <- get_column_values data "Open" ;;
     high_vals <- get_column_values data "High" ;;
     low_vals <- get_column_values data "Low" ;;
     close_vals <- get_column_values data "Close" ;;
     width <- candle_width (df_index data) ;;
     Ok (open_vals, high_vals, low_vals, close_vals, width))
  with
  | Raise e => ([], Some e)
  | Ok (open_vals, high_vals, low_vals, close_vals, width) =>
      let width2 := width / 5 in
      draw_each (candle (df_index data) open_vals high_vals low_vals close_vals theme width width2)
                (seq 0 (length (df_index data)))
  end.

Definition overlay_colors : list string := ["#ff9f43"; "#ee5a24"; "#5f27cd"; "#10ac84"].

(** [colors[color_idx % len(colors)]] *)
Definition overlay_color (color_idx : nat) : string :=
  nth (color_idx mod length overlay_colors) overlay_colors EmptyString.

Section Overlays.

Variable Qsqrt : Q -> Q.

(** What one indicator adds to the axes, and whether it takes a colour of
    the rotation. *)
Definition add_indicator (data : DataFrame) (theme : dict string) (color_idx : nat)
    (indicator : string) : result (list draw * nat) :=
  if String.eqb indicator "sma20" then
    sma <- calculate_sma data 20 ;;
    Ok ([Plot (df_index data) (map of_cell (s_values sma)) (overlay_color color_idx)
           1.5 "SMA 20" "--"], S color_idx)
  else if String.eqb indicator "sma50" then
    sma <- calculate_sma data 50 ;;
    Ok ([Plot (df_index data) (map of_cell (s_values sma)) (overlay_color color_idx)
           1.5 "SMA 50" "--"], S color_idx)
  else if String.eqb indicator "ema20" then
    ema <- calculate_ema data 20 ;;
    Ok ([Plot (df_index data) (map of_cell (s_values ema)) (overlay_color color_idx)
           1.5 "EMA 20" "-."], S color_idx)
  else if String.eqb indicator "bb" then
    bands <- calculate_bollinger_bands Qsqrt data 20 2 ;;
    let '(upper, middle, lower) := bands in
    accent1 <- dict_item theme "accent_color" ;;
    accent2 <- dict_item theme "accent_color" ;;
    accent3 <- dict_item theme "accent_color" ;;
    Ok ([Plot (df_index data) (map of_cell (s_values upper)) accent1 1 "BB Upper" ":";
         Plot (df_index data) (map of_cell (s_values lower)) accent2 1 "BB Lower" ":";
         FillBetween (df_index data) (map of_cell (s_values upper))
           (map of_cell (s_values lower)) 0.1 accent3],
        color_idx)
  else Ok ([], color_idx).

Fixpoint add_indicators_from (data : DataFrame) (theme : dict string) (color_idx : nat)
    (indicators : list string) : drawing :=
  match indicators with
  | [] => ([], None)
  | indicator :: rest =>
      match add_indicator data theme color_idx indicator with
      | Ok (ds, color_idx') =>
          let '(more, e) := add_indicators_from data theme color_idx' rest in
          (ds ++ more, e)%list
      | Raise e => ([], Some e)
      end
  end.

(** [add_indicators] *)
Definition add_indicators (data : DataFrame) (indicators : list string)
    (theme : dict string) : drawing :=
  add_indicators_from data theme 0 indicators.

End Overlays.

(** ** The single-asset summary and the normalised returns *)

(** [np.max] and [np.min]: NaN as soon as one value is, an exception on an
    empty array. *)
Definition nan_max (a b : float) : float :=
  match a, b with
  | NaN, _ | _, NaN => NaN
  | _, _ => if fgt b a then b else a
  end.

Definition nan_min (a b : float) : float :=
  match a, b with
  | NaN, _ | _, NaN => NaN
  | _, _ => if fgt a b then b else a
  end.

Definition np_max (a : list float) : result float :=
  match a with
  | [] => Raise (ValueError "zero-size array to reduction operation maximum which has no identity")
  | x :: rest => Ok (fold_left nan_max rest x)
  end.

Definition np_min (a : list float) : result float :=
  match a with
  | [] => Raise (ValueError "zero-size array to reduction operation minimum which has no identity")
  | x :: rest => Ok (fold_left nan_min rest x)
  end.

(** The two fields of the info record that [print_summary] reads;
    [None] is a missing or [None] entry. *)
Record stock_info : Type := mkInfo {
  dividend_yield : option float;
  pe_ratio : option float
}.

(** The truth value of [info.get(key)]: a number other than zero. *)
Definition truthy (v : option float) : bool :=
  match v with
  | None => false
  | Some (Fin q) => negb (Qeq_bool q 0)
  | Some _ => true
  end.

(** What [print_summary] prints. *)
Record summary : Type := mkSummary {
  latest_price : float;
  period_high : float;
  period_low : float;
  return_pct : float;
  data_points : nat;
  dividend_yield_pct : option float;
  pe : option float
}.

Definition print_summary (data : DataFrame) (info : option stock_info) : result summary :=
  close_values <- get_column_values data "Close" ;;
  high_values <- get_column_values data "High" ;;
  low_values <- get_column_values data "Low" ;;
  latest <- last_value close_values ;;
  high <- np_max high_values ;;
  low <- np_min low_values ;;
  first_price <- first_value close_values ;;
  let returns := fmul (fdiv (fsub latest first_price) first_price) (Fin 100) in
  let div_line :=
    match info with
    | Some i =>
        if truthy (dividend_yield i)
        then option_map (fun y => fmul y (Fin 100)) (dividend_yield i) else None
    | None => None
    end in
  let pe_line :=
    match info with
    | Some i => if truthy (pe_ratio i) then pe_ratio i else None
    | None => None
    end in
  Ok (mkSummary latest high low returns (length (df_index data)) div_line pe_line).

(** * Binary64

    What the comparison summary prints is decided by which of two computed
    returns is the larger, and the Bollinger bands are sums and differences
    of computed figures: the rounding of each operation matters there.  In
    this part a cell is a double of the machine, and [+], [-], [*], [/],
    [sqrt] and the comparisons are the IEEE 754 operations in binary64,
    rounding to nearest, ties to even. *)

Inductive asset : Type := VOO | JEPI.

Module Binary64.

Import PrimFloat.

Local Open Scope float_scope.

(** Equal as numbers: the same double, or two zeros of either sign. *)
Definition same (x y : float) : Prop := x = y \/ (x =? y) = true.

(** ** The comparison summary *)

(** [get_column_values]: the column as an array of doubles. *)
Definition get_column_values (data : DataFrameOf float) (column_name : string)
    : result (list float) :=
  col <- column_series data column_name ;;
  Ok (s_values col).

(** [a[-1]] and [a[0]] on an array. *)
Definition last_value (a : list float) : result float :=
  match a with
  | [] => Raise (IndexError "index -1 is out of bounds for axis 0 with size 0")
  | _ :: _ => Ok (last a nan)
  end.

Definition first_value (a : list float) : result float :=
  match a with
  | [] => Raise (IndexError "index 0 is out of bounds for axis 0 with size 0")
  | x :: _ => Ok x
  end.

(** [((close[-1] - close[0]) / close[0]) * 100] *)
Definition period_return (close : list float) : result float :=
  latest <- last_value close ;;
  first <- first_value close ;;
  Ok ((latest - first) / first * 100).

(** What [print_comparison_summary] prints: both returns, the asset named
    after the trophy and the figure that follows "by". *)
Record comparison : Type := mkComparison {
  voo_return : float;
  jepi_return : float;
  outperformer : asset;
  differential : float
}.

(** [voo_return > jepi_return] is [jepi_return <? voo_return]. *)
Definition print_comparison_summary (voo_data jepi_data : DataFrameOf float)
    : result comparison :=
  voo_close <- get_column_values voo_data "Close" ;;
  jepi_close <- get_column_values jepi_data "Close" ;;
  voo_ret <- period_return voo_close ;;
  jepi_ret <- period_return jepi_close ;;
  if jepi_ret <? voo_ret then
    Ok (mkComparison voo_ret jepi_ret VOO (voo_ret - jepi_ret))
  else
    Ok (mkComparison voo_ret jepi_ret JEPI (jepi_ret - voo_ret)).

(** ** Bollinger bands *)

Section Indicators.

(** [close.rolling(window).mean()] and [close.rolling(window).std()], as
    pandas computes them on a column of doubles. *)
Variables rolling_mean rolling_std : nat -> Series float -> Series float.

(** [calculate_sma] *)
Definition calculate_sma (data : DataFrameOf float) (window : nat)
    : result (Series float) :=
  close <- close_column data ;;
  Ok (rolling_mean window close).

(** [calculate_bollinger_bands] *)
Definition calculate_bollinger_bands (data : DataFrameOf float) (window : nat)
    (num_std : float) : result (Series float * Series float * Series float) :=
  sma <- calculate_sma data window ;;
  close <- close_column data ;;
  let std := rolling_std window close in
  let upper_band := series_zip add sma (series_map (fun x => x * num_std) std) in
  let lower_band := series_zip sub sma (series_map (fun x => x * num_std) std) in
  Ok (upper_band, sma, lower_band).

End Indicators.

(** The two-pass formulas of the mean and of the sample standard deviation
    over a complete window without NaN.  pandas updates running sums as the
    window slides; on the short windows of small integers used below every
    sum is exact and the two give the same doubles. *)
Definition fsum (xs : list float) : float := fold_left add xs 0.

Definition count (xs : list float) : float := fold_left (fun n _ => n + 1) xs 0.

Definition mean (xs : list float) : float := fsum xs / count xs.

Definition std (xs : list float) : float :=
  let m := mean xs in
  sqrt (fsum (map (fun x => (x - m) * (x - m)) xs) / (count xs - 1)).

Definition rolling_at (f : list float -> float) (w : nat) (xs : list float) (i : nat)
    : float :=
  if (1 <=? w)%nat && (w <=? S i)%nat then
    let window := window_values w i xs in
    if existsb is_nan window then nan else f window
  else nan.

Definition rolling (f : list float -> float) (w : nat) (xs : list float) : list float :=
  map (rolling_at f w xs) (seq 0 (length xs)).

Definition two_pass_mean (w : nat) (s : Series float) : Series float :=
  mkSeries (s_index s) (rolling mean w (s_values s)).

Definition two_pass_std (w : nat) (s : Series float) : Series float :=
  mkSeries (s_index s) (rolling std w (s_values s)).

(** ** The specified behaviour *)

(** A frame with the single flat column [Close] over the timestamps
    [0, 1, ...]. *)
Definition close_frame (close : list float) : DataFrameOf float :=
  mkDataFrame (map Z.of_nat (seq 0 (length close))) (Index ["Close"%string]) [close].

Definition close_of_frame (close : list float) : Series float :=
  mkSeries (map Z.of_nat (seq 0 (length close))) close.

(** [(latest - first) / first * 100] *)
Definition percent_change (first latest : float) : float :=
  (latest - first) / first * 100.

(** The behaviour the specification gives to [calculate_bollinger_bands]:
    the middle band is the result of [calculate_sma], and wherever the three
    bands are defined, upper - middle equals middle - lower. *)
Definition bands_symmetric_as_specified
    (rolling_mean rolling_std : nat -> Series float -> Series float)
    (data : DataFrameOf float) (w : nat) (num_std : float) : Prop :=
  exists upper middle lower,
    calculate_bollinger_bands rolling_mean rolling_std data w num_std
      = Ok (upper, middle, lower) /\
    calculate_sma rolling_mean data w = Ok middle /\
    forall i u m l,
      nth_error (s_values upper) i = Some u ->
      nth_error (s_values middle) i = Some m ->
      nth_error (s_values lower) i = Some l ->
      is_nan u = false -> is_nan m = false -> is_nan l = false ->
      (u - m =? m - l) = true.

End Binary64.

(** * The specified behaviour

    The statements of the specification, written over the embedding, and
    the sample tables used to run it. *)

Local Open Scope Q_scope.

(** The sum and the mean of cells, NaN as soon as one of them is. *)
Definition cell_sum (cs : list cell) : cell := fold_right cell_add (Some 0) cs.

Definition cell_mean (cs : list cell) : cell :=
  match cell_sum cs with
  | Some s => Some (s / inject_Z (Z.of_nat (length cs)))
  | None => None
  end.

(** The close values at the indices [i-w+1 .. i]. *)
Definition trailing (w i : nat) (close : list cell) : list cell :=
  map (fun j => nth j close None) (seq (S i - w) w).

(** The behaviour the specification gives to [calculate_sma] on the close
    series [close] of [data]. *)
Definition sma_as_specified (data : DataFrame) (close : Series cell) (w : nat) : Prop :=
  exists sma,
    calculate_sma data w = Ok sma /\
    s_index sma = df_index data /\
    length (s_values sma) = length (s_values close) /\
    Z.of_nat (count_defined (s_values sma))
      = Z.max 0 (Z.of_nat (length (s_values close)) - Z.of_nat w + 1) /\
    (forall i, (i < w - 1)%nat -> (i < length (s_values close))%nat ->
       nth i (s_values sma) None = None) /\
    (forall i, (w - 1 <= i)%nat -> (i < length (s_values close))%nat ->
       cell_eq (nth i (s_values sma) None) (cell_mean (trailing w i (s_values close)))).

(** A frame with the single flat column [Close] over the timestamps
    [0, 1, ...]. *)
Definition close_frame (close : list cell) : DataFrame :=
  mkDataFrame (map Z.of_nat (seq 0 (length close))) (Index ["Close"%string]) [close].

Definition close_of_frame (close : list cell) : Series cell :=
  mkSeries (map Z.of_nat (seq 0 (length close))) close.

(** Reading a result for the examples. *)
Definition values_of {A : Type} (r : result (Series A)) : list A :=
  match r with
  | Ok s => s_values s
  | Raise _ => []
  end.

Fixpoint cells_eqb (xs ys : list cell) : bool :=
  match xs, ys with
  | [], [] => true
  | x :: xs', y :: ys' => cell_eqb x y && cells_eqb xs' ys'
  | _, _ => false
  end.

Fixpoint floats_eqb (xs ys : list float) : bool :=
  match xs, ys with
  | [], [] => true
  | x :: xs', y :: ys' => float_eqb x y && floats_eqb xs' ys'
  | _, _ => false
  end.

(** The recurrence [y_0 = x_0], [y_t = (1-a) y_(t-1) + a x_t]. *)
Fixpoint ema_recurrence_from (a : Q) (prev : cell) (xs : list cell) : list cell :=
  match xs with
  | [] => []
  | x :: rest =>
      let y := cell_add (cell_mul (Some (1 - a)) prev) (cell_mul (Some a) x) in
      y :: ema_recurrence_from a y rest
  end.

Definition ema_recurrence (a : Q) (xs : list cell) : list cell :=
  match xs with
  | [] => []
  | x0 :: rest => x0 :: ema_recurrence_from a x0 rest
  end.

(** The behaviour the specification gives to [calculate_ema]: the
    recurrence with [a = 2/(w+1)], and an output at [n] that is the same for
    any other data with the same closes up to [n]. *)
Definition ema_as_specified (data : DataFrame) (close : Series cell) (w : nat) : Prop :=
  exists ema,
    calculate_ema data w = Ok ema /\
    s_index ema = df_index data /\
    Forall2 cell_eq (s_values ema)
      (ema_recurrence (2 / (inject_Z (Z.of_nat w) + 1)) (s_values close)) /\
    (forall data' close' ema' n,
       close_column data' = Ok close' ->
       calculate_ema data' w = Ok ema' ->
       firstn (S n) (s_values close') = firstn (S n) (s_values close) ->
       nth n (s_values ema') None = nth n (s_values ema) None).

(** A rational stand-in for the square root, used to run the bands. *)
Definition Qsqrt_floor (q : Q) : Q := inject_Z (Z.sqrt (Qfloor q)).

(** The numbers behind [where_positive] and [neg_where_negative]. *)
Definition gain_part (d : cell) : Q :=
  match d with
  | Some q => if Qltb 0 q then q else 0
  | None => 0
  end.

Definition loss_part (d : cell) : Q :=
  match d with
  | Some q => if Qltb q 0 then - q else - 0
  | None => - 0
  end.

(** A cell that is NaN or a number at least zero. *)
Definition nonneg_cell (c : cell) : Prop :=
  match c with
  | Some q => 0 <= q
  | None => True
  end.

(** What the specification says of a zero average loss: [calculate_rsi]
    returns, and the point is NaN. *)
Definition rsi_zero_loss_as_specified (data : DataFrame) (close : Series cell) (w : nat) : Prop :=
  exists rsi,
    calculate_rsi data w = Ok rsi /\
    forall i l,
      nth_error (s_values (rsi_loss close w)) i = Some (Some l) ->
      l == 0 ->
      nth_error (s_values rsi) i = Some NaN.

Definition aligned {A : Type} (data : DataFrame) (close : Series cell) (s : Series A) : Prop :=
  s_index s = df_index data /\ length (s_values s) = length (s_values close).

Definition all_undefined (xs : list cell) : Prop := Forall (fun c => c = None) xs.

Definition sma_short_history (data : DataFrame) (close : Series cell) (w : nat) : Prop :=
  exists s, calculate_sma data w = Ok s /\ aligned data close s /\ all_undefined (s_values s).

Definition ema_short_history (data : DataFrame) (close : Series cell) (w : nat) : Prop :=
  exists s, calculate_ema data w = Ok s /\ aligned data close s /\ all_undefined (s_values s).

Definition bollinger_short_history (Qsqrt : Q -> Q) (data : DataFrame) (close : Series cell)
    (w : nat) (num_std : Q) : Prop :=
  exists upper middle lower,
    calculate_bollinger_bands Qsqrt data w num_std = Ok (upper, middle, lower) /\
    (aligned data close upper /\ all_undefined (s_values upper)) /\
    (aligned data close middle /\ all_undefined (s_values middle)) /\
    (aligned data close lower /\ all_undefined (s_values lower)).

Definition rsi_short_history (data : DataFrame) (close : Series cell) (w : nat) : Prop :=
  exists s, calculate_rsi data w = Ok s /\ aligned data close s /\
            Forall (fun v => v = NaN) (s_values s).

Definition macd_short_history (data : DataFrame) (close : Series cell)
    (fast slow signal : nat) : Prop :=
  exists macd_line signal_line histogram,
    calculate_macd data fast slow signal = Ok (macd_line, signal_line, histogram) /\
    (aligned data close macd_line /\ all_undefined (s_values macd_line)) /\
    (aligned data close signal_line /\ all_undefined (s_values signal_line)) /\
    (aligned data close histogram /\ all_undefined (s_values histogram)).

(** What the specification says of windows longer than the series: every
    indicator returns an aligned, entirely undefined series. *)
Definition short_history_as_specified (Qsqrt : Q -> Q) (data : DataFrame)
    (close : Series cell) (w : nat) (num_std : Q) (fast slow signal : nat) : Prop :=
  sma_short_history data close w /\
  ema_short_history data close w /\
  bollinger_short_history Qsqrt data close w num_std /\
  rsi_short_history data close w /\
  macd_short_history data close fast slow signal.

(** EMA and MACD return, on their timestamps, whatever the window. *)
Definition ema_returns (data : DataFrame) (close : Series cell) (w : nat) : Prop :=
  exists s, calculate_ema data w = Ok s /\ aligned data close s.

Definition macd_returns (data : DataFrame) (close : Series cell)
    (fast slow signal : nat) : Prop :=
  exists macd_line signal_line histogram,
    calculate_macd data fast slow signal = Ok (macd_line, signal_line, histogram) /\
    aligned data close macd_line /\
    aligned data close signal_line /\
    aligned data close histogram.

(** The required column that [l] spells, case aside, among [cols]. *)
Definition required_for (cols : list string) (l : string) : option string :=
  find (fun c => String.eqb (lower l) (lower c)) cols.

(** The label the specification gives to the column labelled [l] of a
    table whose outer labels are [base]: the required name [c] when [c]
    itself is absent from [base] and [l] is the first label of [base] equal
    to [c] case aside; [l] otherwise. *)
Definition normalized_label_among (cols base : list string) (l : string) : string :=
  match required_for cols l with
  | Some c =>
      if contains c base then l
      else
        match first_match c base with
        | Some e => if String.eqb l e then c else l
        | None => l
        end
  | None => l
  end.

Definition normalized_label : list string -> string -> string :=
  normalized_label_among expected_cols.

(** What the specification says of the normaliser on the table [df]. *)
Definition normalizer_as_specified (df : DataFrame) : Prop :=
  let base := outer_labels (df_columns df) in
  let labels := map (normalized_label base) base in
  fix_dataframe_columns (Some df)
    = Some (mkDataFrame (df_index df) (Index labels) (df_values df)) /\
  forall c, In c expected_cols ->
    (In c labels <-> exists e, In e base /\ lower e = lower c).

(** A provider that answers every request with a table of no rows. *)
Definition provider_without_rows (ticker period interval : string) : provider_outcome :=
  ProviderReturns
    (mkDataFrame []
       (MultiIndex [("Close", ticker); ("High", ticker); ("Low", ticker);
                    ("Open", ticker); ("Volume", ticker)])
       [[]; []; []; []; []]).

(** A cell that is NaN or a number of [[lo, hi]]. *)
Definition cell_within (lo hi : Q) (c : cell) : Prop :=
  match c with
  | Some x => lo <= x <= hi
  | None => True
  end.

(** A bar that reaches from [lo] to [hi]. *)
Definition bar_spans (b : draw) (lo hi : Q) : Prop :=
  match b with
  | Bar _ (Fin height) _ (Fin bottom) _ _ => bottom == lo /\ bottom + height == hi
  | _ => False
  end.

(** The position, width and colours of a bar. *)
Definition bar_at (b : draw) (x : Z) (width : Q) (color : string)
    (edgecolor : option string) : Prop :=
  match b with
  | Bar x' _ width' _ color' edgecolor' =>
      x' = x /\ width' = width /\ color' = color /\ edgecolor' = edgecolor
  | _ => False
  end.

(** The indicators drawn as one line in a colour of the rotation, and
    those [add_indicators] knows at all. *)
Definition is_average (indicator : string) : bool :=
  str_in indicator ["sma20"; "sma50"; "ema20"]%string.

Definition is_known (indicator : string) : bool :=
  str_in indicator ["sma20"; "sma50"; "ema20"; "bb"]%string.

Definition count_averages (indicators : list string) : nat :=
  length (filter is_average indicators).

(** The colour roles the drawing functions read from a theme. *)
Definition colour_roles : list string :=
  ["bg_color"; "text_color"; "grid_color"; "up_color"; "down_color";
   "line_color"; "area_color"; "accent_color"]%string.

(** * Properties *)

Local Open Scope Q_scope.

(** ** Frames and columns *)

Lemma column_series_index (data : DataFrame) (key : string) (s : Series cell) :
  column_series data key = Ok s -> s_index s = df_index data.
Proof.
  unfold column_series, getitem.
  destruct (select key _ _) as [|c [|c' cs]]; simpl; try discriminate.
  - destruct (df_columns data); simpl; intros H; inversion H; reflexivity.
  - intros H; inversion H; reflexivity.
Qed.

(** ** The code on small inputs *)

(** The integers 1..10 with window 3: defined from index 2, with values
    2, 3, ..., 9. *)
Example sma_one_to_ten :
  cells_eqb
    (values_of (calculate_sma
       (close_frame (map (fun z => Some (inject_Z z)) [1; 2; 3; 4; 5; 6; 7; 8; 9; 10]%Z)) 3))
    [None; None; Some 2; Some 3; Some 4; Some 5; Some 6; Some 7; Some 8; Some 9] = true.
Proof. vm_compute. reflexivity. Qed.

Example ema_span_three :
  cells_eqb
    (values_of (calculate_ema (close_frame [Some 1; Some 2; Some 3; Some 4]) 3))
    [Some 1; Some (3 # 2); Some (9 # 4); Some (25 # 8)] = true.
Proof. vm_compute. reflexivity. Qed.

(** A gap ages the past.  At a span of 3 the close 3 after [1, NaN] is
    averaged with weights 1/4 and 3/4; at a span of 4 with weights 9/25
    and 2/5. *)
Example ema_across_a_gap :
  cells_eqb
    (values_of (calculate_ema (close_frame [Some 1; None; Some 3; Some 2]) 3))
    [Some 1; Some 1; Some (5 # 2); Some (9 # 4)] = true.
Proof. vm_compute. reflexivity. Qed.

Example ema_across_a_gap_span_four :
  cells_eqb
    (values_of (calculate_ema (close_frame [Some 1; None; Some 3]) 4))
    [Some 1; Some 1; Some (39 # 19)] = true.
Proof. vm_compute. reflexivity. Qed.

Example rsi_mixed_moves :
  floats_eqb
    (values_of (calculate_rsi (close_frame [Some 1; Some 2; Some 1; Some 3; Some 2]) 2))
    [NaN; Fin 100; Fin 50; Fin (200 # 3); Fin (200 # 3)] = true.
Proof. vm_compute. reflexivity. Qed.

Example rsi_flat_series :
  floats_eqb
    (values_of (calculate_rsi (close_frame [Some 1; Some 1; Some 1]) 2))
    [NaN; NaN; NaN] = true.
Proof. vm_compute. reflexivity. Qed.

Example ema_refuses_span_zero :
  calculate_ema (close_frame [Some 1]) 0
    = Raise (ValueError "span must satisfy: span >= 1").
Proof. reflexivity. Qed.

Example sma_without_close_column :
  calculate_sma (mkDataFrame [0%Z] (Index ["Open"%string]) [[Some 1]]) 3
    = Raise (KeyError "Close").
Proof. reflexivity. Qed.

(** Nested labels are flattened, [close] becomes [Close], and of the two
    spellings of [Open] the first is renamed. *)
Example fix_nested_mixed_case :
  fix_dataframe_columns
    (Some (mkDataFrame [0%Z]
             (MultiIndex [("close", "VOO"); ("OPEN", "VOO"); ("open", "VOO")]%string)
             [[Some 1]; [Some 2]; [Some 3]]))
  = Some (mkDataFrame [0%Z] (Index ["Close"; "Open"; "open"]%string)
            [[Some 1]; [Some 2]; [Some 3]]).
Proof. reflexivity. Qed.

Section Binary64Examples.

Import PrimFloat.

Local Open Scope float_scope.

#[local] Set Warnings "-inexact-float".

(** Returns of 5% and 3%: VOO is named, by 2. *)
Example comparison_five_three :
  Binary64.print_comparison_summary (Binary64.close_frame [100; 105])
                                    (Binary64.close_frame [100; 103])
  = Ok (Binary64.mkComparison 5 3 VOO 2).
Proof. vm_compute. reflexivity. Qed.

(** Equal returns: JEPI is named, by 0. *)
Example comparison_tie :
  Binary64.print_comparison_summary (Binary64.close_frame [100; 105])
                                    (Binary64.close_frame [200; 210])
  = Ok (Binary64.mkComparison 5 5 JEPI 0).
Proof. vm_compute. reflexivity. Qed.

(** Prices in proportion give the same return as real numbers; the doubles
    decide.  From 586.3 to 399.9 and from 58.63 to 39.99 the two computed
    returns are one double, and JEPI is named. *)
Example comparison_proportional_tie :
  match Binary64.print_comparison_summary (Binary64.close_frame [586.3; 399.9])
                                          (Binary64.close_frame [58.63; 39.99]) with
  | Ok r =>
      (Binary64.voo_return r =? Binary64.jepi_return r)
      && match Binary64.outperformer r with VOO => false | JEPI => true end
  | Raise _ => false
  end = true.
Proof. vm_compute. reflexivity. Qed.

(** From 342.24 to 70.42 and from 3080.16 to 633.78, and from 189.37 to
    582.46 and from 568.11 to 1747.38, the computed return of VOO is the
    larger double, and VOO is named. *)
Example comparison_proportional_lead :
  match Binary64.print_comparison_summary (Binary64.close_frame [342.24; 70.42])
                                          (Binary64.close_frame [3080.16; 633.78]),
        Binary64.print_comparison_summary (Binary64.close_frame [189.37; 582.46])
                                          (Binary64.close_frame [568.11; 1747.38]) with
  | Ok r, Ok r' =>
      (Binary64.jepi_return r <? Binary64.voo_return r)
      && (Binary64.jepi_return r' <? Binary64.voo_return r')
      && match Binary64.outperformer r, Binary64.outperformer r' with
         | VOO, VOO => true
         | _, _ => false
         end
  | _, _ => false
  end = true.
Proof. vm_compute. reflexivity. Qed.

(** The bands of the closes 1, 5, 9, 4 over a window of 2 with two
    deviations: at the second point the middle is 3 and the offset is twice
    the square root of 8, and the upper band lies closer to the middle than
    the lower one by one unit in the last place. *)
Example bollinger_second_point :
  match Binary64.calculate_bollinger_bands Binary64.two_pass_mean Binary64.two_pass_std
          (Binary64.close_frame [1; 5; 9; 4]) 2 2 with
  | Ok (upper, middle, lower) =>
      match nth_error (s_values upper) 1, nth_error (s_values middle) 1,
            nth_error (s_values lower) 1 with
      | Some u, Some m, Some l =>
          (m =? 3) && (u =? 3 + sqrt 8 * 2) && (l =? 3 - sqrt 8 * 2)
          && (u - m <? m - l)
      | _, _, _ => false
      end
  | Raise _ => false
  end = true.
Proof. vm_compute. reflexivity. Qed.

End Binary64Examples.

(** A no-break space (U+00A0) after the choice is stripped like a blank,
    and so is an em space (U+2003) before it; one inside the text stays. *)
Example get_theme_no_break_space :
  get_theme (String "2" (utf8 [194; 160]%nat)) = "light".
Proof. vm_compute. reflexivity. Qed.

Example get_period_unicode_spaces :
  get_period (" " ++ utf8 [226; 128; 131]%nat ++ "3" ++ utf8 [194; 160]%nat ++ " ") = "1mo" /\
  strip ("a" ++ utf8 [194; 160]%nat ++ "b ") = "a" ++ utf8 [194; 160]%nat ++ "b".
Proof. split; vm_compute; reflexivity. Qed.

(** ** Lists read by position *)

Lemma nth_map_seq {A : Type} (g : nat -> A) (n i : nat) (d : A) :
  (i < n)%nat -> nth i (map g (seq 0 n)) d = g i.
Proof.
  intros Hi.
  rewrite (nth_indep _ d (g 0%nat)) by (rewrite length_map, length_seq; exact Hi).
  rewrite map_nth, seq_nth by exact Hi. reflexivity.
Qed.

Lemma skipn_cons_nth {A : Type} (k : nat) (xs : list A) (d : A) :
  (k < length xs)%nat -> skipn k xs = nth k xs d :: skipn (S k) xs.
Proof.
  revert xs; induction k as [|k IH]; intros [|x xs] Hk; simpl in *; try lia.
  - reflexivity.
  - apply IH. lia.
Qed.

Lemma firstn_skipn_seq {A : Type} (w k : nat) (xs : list A) (d : A) :
  (k + w <= length xs)%nat ->
  firstn w (skipn k xs) = map (fun j => nth j xs d) (seq k w).
Proof.
  revert k; induction w as [|w IH]; intros k Hk.
  - reflexivity.
  - rewrite (skipn_cons_nth k xs d) by lia.
    change (seq k (S w)) with (k :: seq (S k) w).
    rewrite firstn_cons, map_cons. f_equal. apply IH. lia.
Qed.

Lemma window_values_nth {A : Type} (w i : nat) (xs : list A) (d : A) :
  (w <= S i)%nat -> (i < length xs)%nat ->
  window_values w i xs = map (fun j => nth j xs d) (seq (S i - w) w).
Proof.
  intros Hw Hi. unfold window_values. apply firstn_skipn_seq. lia.
Qed.

Lemma window_values_length {A : Type} (w i : nat) (xs : list A) :
  (w <= S i)%nat -> (i < length xs)%nat -> length (window_values w i xs) = w.
Proof.
  intros Hw Hi. unfold window_values.
  rewrite length_firstn, length_skipn. lia.
Qed.

Lemma window_values_map {A B : Type} (f : A -> B) (w i : nat) (xs : list A) :
  window_values w i (map f xs) = map f (window_values w i xs).
Proof.
  unfold window_values. rewrite skipn_map, firstn_map. reflexivity.
Qed.

(** ** Rolling windows *)

Lemma observed_map_Some (qs : list Q) : observed (map Some qs) = Some qs.
Proof.
  induction qs as [|q qs IH]; simpl; [reflexivity | rewrite IH; reflexivity].
Qed.

Lemma observed_length (xs : list cell) (qs : list Q) :
  observed xs = Some qs -> length qs = length xs.
Proof.
  revert qs; induction xs as [|[x|] xs IH]; simpl; intros qs H.
  - inversion H; reflexivity.
  - destruct (observed xs) as [qs'|]; [|discriminate].
    inversion H; subst; simpl. f_equal. apply IH. reflexivity.
  - discriminate.
Qed.

Lemma rolling_length (f : list Q -> cell) (w : nat) (xs : list cell) :
  length (rolling f w xs) = length xs.
Proof. unfold rolling. rewrite length_map, length_seq. reflexivity. Qed.

Lemma rolling_nth (f : list Q -> cell) (w : nat) (xs : list cell) (i : nat) :
  (i < length xs)%nat -> nth i (rolling f w xs) None = rolling_at f w xs i.
Proof. intros Hi. unfold rolling. apply nth_map_seq. exact Hi. Qed.

(** Before the window is complete the point is undefined. *)
Lemma rolling_at_warmup (f : list Q -> cell) (w : nat) (xs : list cell) (i : nat) :
  (S i < w)%nat -> rolling_at f w xs i = None.
Proof.
  intros Hi. unfold rolling_at.
  replace (w <=? S i)%nat with false by (symmetry; apply Nat.leb_gt; lia).
  rewrite andb_false_r. reflexivity.
Qed.

Lemma rolling_at_observed (f : list Q -> cell) (w : nat) (qs : list Q) (i : nat) :
  (1 <= w)%nat -> (w <= S i)%nat ->
  rolling_at f w (map Some qs) i = f (window_values w i qs).
Proof.
  intros H1 Hw. unfold rolling_at.
  replace (1 <=? w)%nat with true by (symmetry; apply Nat.leb_le; lia).
  replace (w <=? S i)%nat with true by (symmetry; apply Nat.leb_le; lia).
  simpl. rewrite window_values_map, observed_map_Some. reflexivity.
Qed.

(** Counting the defined points of a series given position by position. *)
Lemma count_defined_threshold (g : nat -> cell) (k a n : nat) :
  (forall i, (i < k)%nat -> g i = None) ->
  (forall i, (k <= i)%nat -> defined (g i) = true) ->
  count_defined (map g (seq a n)) = ((a + n) - Nat.max a k)%nat.
Proof.
  intros Hlo Hhi. unfold count_defined.
  revert a; induction n as [|n IH]; intros a; simpl.
  - lia.
  - destruct (le_lt_dec k a) as [Hk|Hk].
    + rewrite (Hhi a Hk). simpl. rewrite IH. lia.
    + rewrite (Hlo a Hk). simpl. rewrite IH. lia.
Qed.

(** ** Simple moving average *)

Lemma cell_sum_map_Some (qs : list Q) : cell_sum (map Some qs) = Some (Qsum qs).
Proof.
  unfold cell_sum.
  induction qs as [|q qs IH]; simpl; [reflexivity|].
  rewrite IH. reflexivity.
Qed.

Lemma cell_mean_map_Some (qs : list Q) : cell_mean (map Some qs) = Some (Qmean qs).
Proof.
  unfold cell_mean. rewrite cell_sum_map_Some, length_map. reflexivity.
Qed.

Lemma trailing_map_Some (w i : nat) (qs : list Q) :
  (w <= S i)%nat -> (i < length qs)%nat ->
  trailing w i (map Some qs) = map Some (window_values w i qs).
Proof.
  intros Hw Hi. unfold trailing.
  rewrite <- window_values_map.
  symmetry. apply window_values_nth; [exact Hw | rewrite length_map; exact Hi].
Qed.

Lemma cell_eq_refl (c : cell) : cell_eq c c.
Proof. destruct c; simpl; [reflexivity | exact I]. Qed.

(** C1 (amended): on a series whose close values are all present, the
    simple moving average of window [w >= 1] is aligned to the timestamps
    of the data, has exactly [max(0, L-w+1)] defined points, is undefined at
    its first [w-1] points, and equals at every later index [i] the
    arithmetic mean of the close values at [i-w+1 .. i]. *)
Theorem calculate_sma_complete_closes :
  forall (data : DataFrame) (close : Series cell) (qs : list Q) (w : nat),
    close_column data = Ok close ->
    s_values close = map Some qs ->
    (1 <= w)%nat ->
    sma_as_specified data close w.
Proof.
  intros data close qs w Hclose Hqs Hw.
  exists (rolling_mean w close).
  unfold calculate_sma. rewrite Hclose. simpl.
  rewrite Hqs, length_map.
  repeat split.
  - apply (column_series_index data "Close"). exact Hclose.
  - rewrite rolling_length, length_map. reflexivity.
  - unfold rolling. rewrite length_map.
    rewrite (count_defined_threshold _ (w - 1)).
    + lia.
    + intros i Hi. apply rolling_at_warmup. lia.
    + intros i Hi. rewrite rolling_at_observed by lia. reflexivity.
  - intros i Hi HL. rewrite rolling_nth by (rewrite length_map; exact HL).
    apply rolling_at_warmup. lia.
  - intros i Hi HL. rewrite rolling_nth by (rewrite length_map; exact HL).
    rewrite rolling_at_observed by lia.
    rewrite trailing_map_Some by (lia || exact HL).
    rewrite cell_mean_map_Some. apply cell_eq_refl.
Qed.

Lemma calculate_sma_complete_closes_witness :
  sma_as_specified (close_frame [Some 1; Some 2; Some 3; Some 4])
                   (close_of_frame [Some 1; Some 2; Some 3; Some 4]) 3.
Proof.
  apply (calculate_sma_complete_closes _ _ [1; 2; 3; 4] 3).
  - reflexivity.
  - reflexivity.
  - lia.
Defined.

(** C1 as stated fails when a close value is missing: with closes
    [NaN, 1, 2] and window 1 the average has two defined points, not
    [max(0, 3-1+1) = 3]. *)
Lemma calculate_sma_missing_close :
  close_column (close_frame [None; Some 1; Some 2])
    = Ok (close_of_frame [None; Some 1; Some 2]) /\
  ~ sma_as_specified (close_frame [None; Some 1; Some 2])
                     (close_of_frame [None; Some 1; Some 2]) 1.
Proof.
  split; [reflexivity|].
  intros [sma [Hsma [_ [_ [Hcount _]]]]].
  vm_compute in Hsma. inversion Hsma; subst sma.
  vm_compute in Hcount. discriminate.
Qed.

(** ** Exponential moving average *)

Lemma ewm_from_firstn (alpha : Q) (n : nat) (st : cell * Q) (xs : list cell) :
  ewm_from alpha st (firstn n xs) = firstn n (ewm_from alpha st xs).
Proof.
  revert st xs; induction n as [|n IH]; intros st [|x xs]; simpl; try reflexivity.
  f_equal. apply IH.
Qed.

(** The average over a prefix is the prefix of the average. *)
Lemma ewm_values_firstn (alpha : Q) (n : nat) (xs : list cell) :
  ewm_values alpha (firstn n xs) = firstn n (ewm_values alpha xs).
Proof.
  destruct n as [|n], xs as [|x xs]; simpl; try reflexivity.
  f_equal. apply ewm_from_firstn.
Qed.

Lemma ewm_values_causal (alpha : Q) (n : nat) (xs ys : list cell) :
  firstn (S n) xs = firstn (S n) ys ->
  nth n (ewm_values alpha xs) None = nth n (ewm_values alpha ys) None.
Proof.
  intros H.
  assert (Hn : forall l : list cell, nth n l None = nth n (firstn (S n) l) None).
  { intros l. rewrite nth_firstn.
    replace (n <? S n)%nat with true by (symmetry; apply Nat.ltb_lt; lia).
    reflexivity. }
  rewrite (Hn (ewm_values alpha xs)), (Hn (ewm_values alpha ys)).
  rewrite <- !ewm_values_firstn, H. reflexivity.
Qed.

(** Without a gap the past weighs [1 - alpha] and the update is a convex
    combination. *)
Lemma ewm_update_exact (alpha y c : Q) :
  (1 * (1 - alpha) * y + alpha * c) / (1 * (1 - alpha) + alpha)
    == (1 - alpha) * y + alpha * c.
Proof.
  assert (H : 1 * (1 - alpha) + alpha == 1) by ring.
  rewrite H. field.
Qed.

(** So is it at a centre of mass of 1, where the new weight is the
    complement of the old one. *)
Lemma ewm_update_complement (alpha y c : Q) :
  (1 * (1 - alpha) * y + (1 - 1 * (1 - alpha)) * c)
    / (1 * (1 - alpha) + (1 - 1 * (1 - alpha)))
    == (1 - alpha) * y + alpha * c.
Proof.
  assert (H : 1 * (1 - alpha) + (1 - 1 * (1 - alpha)) == 1) by ring.
  rewrite H. field.
Qed.

Lemma ewm_step_exact (alpha y c : Q) :
  cell_eq (fst (ewm_step alpha (Some y, 1) (Some c)))
          (Some ((1 - alpha) * y + alpha * c)) /\
  snd (ewm_step alpha (Some y, 1) (Some c)) = 1.
Proof.
  unfold ewm_step. destruct (Qeq_bool alpha (1 # 2)); cbn [fst snd cell_eq].
  - split; [apply ewm_update_complement | reflexivity].
  - split; [apply ewm_update_exact | reflexivity].
Qed.

Lemma ewm_from_recurrence (alpha : Q) (qs : list Q) (y y' : Q) :
  y == y' ->
  Forall2 cell_eq (ewm_from alpha (Some y, 1) (map Some qs))
                  (ema_recurrence_from alpha (Some y') (map Some qs)).
Proof.
  revert y y'; induction qs as [|q qs IH]; intros y y' Hy;
    cbn [map ewm_from ema_recurrence_from].
  - constructor.
  - destruct (ewm_step_exact alpha y q) as [Hv Hw].
    destruct (ewm_step alpha (Some y, 1) (Some q)) as [[z|] o];
      cbn [fst snd cell_eq] in *; [|contradiction].
    subst o. constructor.
    + cbn [cell_add cell_mul cell_lift2 cell_eq]. rewrite Hv, Hy. reflexivity.
    + apply IH. rewrite Hv, Hy. reflexivity.
Qed.

Lemma ewm_values_recurrence (alpha : Q) (qs : list Q) :
  Forall2 cell_eq (ewm_values alpha (map Some qs)) (ema_recurrence alpha (map Some qs)).
Proof.
  destruct qs as [|q qs]; simpl; constructor.
  - simpl. reflexivity.
  - apply ewm_from_recurrence. reflexivity.
Qed.

Lemma ewm_mean_ok (w : nat) (s : Series cell) :
  (1 <= w)%nat ->
  ewm_mean w s = Ok (mkSeries (s_index s) (ewm_values (span_alpha w) (s_values s))).
Proof.
  intros Hw. unfold ewm_mean.
  replace (w <? 1)%nat with false by (symmetry; apply Nat.ltb_ge; exact Hw).
  reflexivity.
Qed.

(** C2 (amended): on a series whose close values are all present and for a
    window [w >= 1], [calculate_ema] is the recurrence [y_0 = close_0],
    [y_t = (1-a) y_(t-1) + a close_t] with [a = 2/(w+1)]; the value at an
    index depends on the closes up to that index only. *)
Theorem calculate_ema_complete_closes :
  forall (data : DataFrame) (close : Series cell) (qs : list Q) (w : nat),
    close_column data = Ok close ->
    s_values close = map Some qs ->
    (1 <= w)%nat ->
    ema_as_specified data close w.
Proof.
  intros data close qs w Hclose Hqs Hw.
  exists (mkSeries (s_index close) (ewm_values (span_alpha w) (s_values close))).
  unfold calculate_ema. rewrite Hclose. simpl.
  rewrite ewm_mean_ok by exact Hw.
  repeat split.
  - apply (column_series_index data "Close"). exact Hclose.
  - rewrite Hqs. apply ewm_values_recurrence.
  - intros data' close' ema' n Hclose' Hema' Hpre.
    rewrite Hclose' in Hema'. simpl in Hema'.
    rewrite ewm_mean_ok in Hema' by exact Hw.
    inversion Hema'; subst ema'. simpl.
    apply ewm_values_causal. exact Hpre.
Qed.

Lemma calculate_ema_complete_closes_witness :
  ema_as_specified (close_frame [Some 1; Some 2; Some 3; Some 4])
                   (close_of_frame [Some 1; Some 2; Some 3; Some 4]) 3.
Proof.
  apply (calculate_ema_complete_closes _ _ [1; 2; 3; 4] 3).
  - reflexivity.
  - reflexivity.
  - lia.
Defined.

(** C2 as stated fails when the first close is missing: on [NaN, 1] the
    recurrence stays NaN, while the code restarts from the first close it
    observes and returns [NaN, 1]. *)
Lemma calculate_ema_missing_close :
  close_column (close_frame [None; Some 1]) = Ok (close_of_frame [None; Some 1]) /\
  ~ ema_as_specified (close_frame [None; Some 1]) (close_of_frame [None; Some 1]) 1.
Proof.
  split; [reflexivity|].
  intros [ema [Hema [_ [Hrec _]]]].
  vm_compute in Hema. inversion Hema; subst ema.
  simpl in Hrec. inversion Hrec as [|? ? ? ? _ Htl]; subst.
  inversion Htl as [|? ? ? ? Hhd _]; subst.
  simpl in Hhd. exact Hhd.
Qed.

(** ** Series arithmetic *)

Lemma zip_nth_error {A B C : Type} (f : A -> B -> C) (xs : list A) (ys : list B)
    (i : nat) (z : C) :
  nth_error (map (fun p => f (fst p) (snd p)) (combine xs ys)) i = Some z ->
  exists x y, nth_error xs i = Some x /\ nth_error ys i = Some y /\ z = f x y.
Proof.
  revert ys i; induction xs as [|x xs IH]; intros [|y ys] [|i]; simpl;
    try discriminate.
  - intros H; inversion H. exists x, y. repeat split.
  - apply IH.
Qed.

Lemma zip_length {A B C : Type} (f : A -> B -> C) (xs : list A) (ys : list B) :
  length xs = length ys ->
  length (map (fun p => f (fst p) (snd p)) (combine xs ys)) = length xs.
Proof.
  intros H. rewrite length_map, length_combine, <- H. apply Nat.min_id.
Qed.

Lemma zip_all {A B C : Type} (f : A -> B -> C) (P : C -> Prop)
    (xs : list A) (ys : list B) :
  (forall x y, In x xs -> In y ys -> P (f x y)) ->
  Forall P (map (fun p => f (fst p) (snd p)) (combine xs ys)).
Proof.
  intros H. apply Forall_forall. intros z Hz.
  apply in_map_iff in Hz. destruct Hz as [[x y] [Hf Hin]]. subst z. simpl.
  apply H; [eapply in_combine_l | eapply in_combine_r]; exact Hin.
Qed.

(** ** Bollinger bands *)

Section BollingerProperties.

Variable Qsqrt : Q -> Q.

(** In exact arithmetic the middle band is the result of [calculate_sma]
    on the same data and window, and wherever the three bands are defined,
    upper - middle equals middle - lower. *)
Lemma bollinger_symmetric_exactly :
  forall (data : DataFrame) (close : Series cell) (w : nat) (num_std : Q),
    close_column data = Ok close ->
    exists upper middle lower,
      calculate_bollinger_bands Qsqrt data w num_std = Ok (upper, middle, lower) /\
      calculate_sma data w = Ok middle /\
      forall i u m l,
        nth_error (s_values upper) i = Some (Some u) ->
        nth_error (s_values middle) i = Some (Some m) ->
        nth_error (s_values lower) i = Some (Some l) ->
        u - m == m - l.
Proof.
  intros data close w num_std Hclose.
  unfold calculate_bollinger_bands, calculate_sma.
  rewrite Hclose. simpl.
  eexists _, _, _. repeat split.
  intros i u m l Hu Hm Hl. simpl in Hu, Hl.
  apply zip_nth_error in Hu. destruct Hu as [mu [su [Hmu [Hsu Hu]]]].
  apply zip_nth_error in Hl. destruct Hl as [ml [sl [Hml [Hsl Hl]]]].
  simpl in Hm. rewrite Hm in Hmu, Hml.
  inversion Hmu; subst mu. inversion Hml; subst ml.
  rewrite Hsu in Hsl. inversion Hsl; subst sl.
  destruct su as [s|]; simpl in Hu, Hl; [|discriminate].
  inversion Hu; subst u. inversion Hl; subst l. ring.
Qed.

End BollingerProperties.

(** ** Relative strength index *)

Lemma Qltb_lt (a b : Q) : Qltb a b = true <-> a < b.
Proof.
  unfold Qltb. rewrite negb_true_iff.
  split.
  - intros H. apply Qnot_le_lt. intros Hle.
    apply Qle_bool_iff in Hle. congruence.
  - intros H. destruct (Qle_bool b a) eqn:E; [|reflexivity].
    apply Qle_bool_iff in E. exfalso. exact (Qlt_not_le _ _ H E).
Qed.

Lemma Qltb_ge (a b : Q) : Qltb a b = false <-> b <= a.
Proof.
  unfold Qltb. rewrite negb_false_iff. apply Qle_bool_iff.
Qed.

Lemma where_positive_gain (ds : list cell) :
  map where_positive ds = map Some (map gain_part ds).
Proof.
  rewrite map_map. apply map_ext. intros [q|]; simpl; [|reflexivity].
  destruct (Qltb 0 q); reflexivity.
Qed.

Lemma neg_where_negative_loss (ds : list cell) :
  map neg_where_negative ds = map Some (map loss_part ds).
Proof.
  rewrite map_map. apply map_ext. intros [q|]; simpl; [|reflexivity].
  destruct (Qltb q 0); reflexivity.
Qed.

Lemma gain_part_nonneg (d : cell) : 0 <= gain_part d.
Proof.
  destruct d as [q|]; simpl; [|lra].
  destruct (Qltb 0 q) eqn:E; [|lra].
  apply Qltb_lt in E. lra.
Qed.

Lemma loss_part_nonneg (d : cell) : 0 <= loss_part d.
Proof.
  destruct d as [q|]; simpl; [|lra].
  destruct (Qltb q 0) eqn:E; [|lra].
  apply Qltb_lt in E. lra.
Qed.

Lemma Qsum_nonneg (qs : list Q) : Forall (fun q => 0 <= q) qs -> 0 <= Qsum qs.
Proof.
  induction 1 as [|q qs Hq _ IH]; simpl; lra.
Qed.

Lemma Qmean_nonneg (qs : list Q) : Forall (fun q => 0 <= q) qs -> 0 <= Qmean qs.
Proof.
  intros H. unfold Qmean, Qdiv.
  apply Qmult_le_0_compat; [apply Qsum_nonneg; exact H|].
  apply Qinv_le_0_compat.
  unfold Qle; simpl. lia.
Qed.

Lemma Forall_prefix {A : Type} (P : A -> Prop) (n : nat) (xs : list A) :
  Forall P xs -> Forall P (firstn n xs).
Proof.
  intros H; revert n; induction H as [|x xs Hx _ IH]; intros [|n]; simpl;
    constructor; auto.
Qed.

Lemma Forall_suffix {A : Type} (P : A -> Prop) (n : nat) (xs : list A) :
  Forall P xs -> Forall P (skipn n xs).
Proof.
  intros H; revert n; induction H as [|x xs Hx Hxs IH]; intros [|n]; simpl;
    try constructor; auto.
Qed.

Lemma Forall_window {A : Type} (P : A -> Prop) (w i : nat) (xs : list A) :
  Forall P xs -> Forall P (window_values w i xs).
Proof.
  intros H. unfold window_values.
  apply Forall_prefix, Forall_suffix. exact H.
Qed.

Lemma rolling_mean_nonneg (w : nat) (qs : list Q) :
  Forall (fun q => 0 <= q) qs ->
  Forall nonneg_cell (rolling (fun ws => Some (Qmean ws)) w (map Some qs)).
Proof.
  intros H. unfold rolling. apply Forall_forall. intros c Hc.
  apply in_map_iff in Hc. destruct Hc as [i [Hi _]]. subst c.
  unfold rolling_at.
  destruct ((1 <=? w)%nat && (w <=? S i)%nat); [|exact I].
  rewrite window_values_map, observed_map_Some. simpl.
  apply Qmean_nonneg. apply Forall_window. exact H.
Qed.

Lemma rsi_gain_nonneg (close : Series cell) (w : nat) :
  Forall nonneg_cell (s_values (rsi_gain close w)).
Proof.
  unfold rsi_gain, rolling_mean; simpl.
  rewrite where_positive_gain. apply rolling_mean_nonneg.
  apply Forall_forall. intros q Hq. apply in_map_iff in Hq.
  destruct Hq as [d [Hd _]]. subst q. apply gain_part_nonneg.
Qed.

Lemma rsi_loss_nonneg (close : Series cell) (w : nat) :
  Forall nonneg_cell (s_values (rsi_loss close w)).
Proof.
  unfold rsi_loss, rolling_mean; simpl.
  rewrite neg_where_negative_loss. apply rolling_mean_nonneg.
  apply Forall_forall. intros q Hq. apply in_map_iff in Hq.
  destruct Hq as [d [Hd _]]. subst q. apply loss_part_nonneg.
Qed.

(** Either average is undefined: so is the index. *)
Lemma rsi_of_undefined (gain loss : cell) :
  gain = None \/ loss = None -> rsi_of gain loss = NaN.
Proof.
  intros [H|H]; subst; unfold rsi_of; simpl.
  - reflexivity.
  - destruct gain; reflexivity.
Qed.

(** A positive average loss: the index is a number of [0, 100]. *)
Lemma rsi_of_positive_loss (g l : Q) :
  0 <= g -> 0 < l ->
  exists q, rsi_of (Some g) (Some l) = Fin q /\ 0 <= q <= 100.
Proof.
  intros Hg Hl. unfold rsi_of. simpl.
  destruct (Qeq_bool l 0) eqn:El.
  { apply Qeq_bool_iff in El. lra. }
  assert (Hrs : 0 <= g / l).
  { apply Qle_shift_div_l; [exact Hl | lra]. }
  simpl. remember (g / l) as rs eqn:Ers. clear Ers.
  destruct (Qeq_bool (1 + rs) 0) eqn:E1.
  { apply Qeq_bool_iff in E1. lra. }
  simpl. eexists. split; [reflexivity|].
  assert (Hlo : 0 <= 100 / (1 + rs)).
  { apply Qle_shift_div_l; lra. }
  assert (Hhi : 100 / (1 + rs) <= 100).
  { apply Qle_shift_div_r; lra. }
  remember (100 / (1 + rs)) as t eqn:Et. clear Et. lra.
Qed.

(** No average loss: the index is 100 when there was a gain, NaN when
    there was none. *)
Lemma rsi_of_zero_loss_gain (g l : Q) :
  0 < g -> l == 0 ->
  exists q, rsi_of (Some g) (Some l) = Fin q /\ q == 100.
Proof.
  intros Hg Hl. unfold rsi_of. simpl.
  apply Qeq_bool_iff in Hl. rewrite Hl.
  apply Qltb_lt in Hg. rewrite Hg. simpl.
  eexists. split; [reflexivity | lra].
Qed.

Lemma rsi_of_zero_loss_flat (g l : Q) :
  g == 0 -> l == 0 -> rsi_of (Some g) (Some l) = NaN.
Proof.
  intros Hg Hl. unfold rsi_of. simpl.
  apply Qeq_bool_iff in Hl. rewrite Hl.
  replace (Qltb 0 g) with false by (symmetry; apply Qltb_ge; lra).
  replace (Qltb g 0) with false by (symmetry; apply Qltb_ge; lra).
  reflexivity.
Qed.

Lemma calculate_rsi_ok (data : DataFrame) (close : Series cell) (w : nat) :
  close_column data = Ok close ->
  calculate_rsi data w = Ok (series_zip rsi_of (rsi_gain close w) (rsi_loss close w)).
Proof.
  intros H. unfold calculate_rsi. rewrite H. reflexivity.
Qed.

(** C4: when no trailing window has an average loss of zero, every point
    of [calculate_rsi] is NaN or a number of the interval [0, 100]. *)
Theorem calculate_rsi_bounded :
  forall (data : DataFrame) (close : Series cell) (w : nat),
    close_column data = Ok close ->
    Forall (fun l => ~ cell_eq l (Some 0)) (s_values (rsi_loss close w)) ->
    exists rsi,
      calculate_rsi data w = Ok rsi /\
      forall i v, nth_error (s_values rsi) i = Some v ->
        v = NaN \/ exists q, v = Fin q /\ 0 <= q <= 100.
Proof.
  intros data close w Hclose Hloss.
  eexists. split; [apply calculate_rsi_ok; exact Hclose|].
  intros i v Hv. simpl in Hv.
  apply zip_nth_error in Hv. destruct Hv as [g [l [Hg [Hl Hv]]]]. subst v.
  apply nth_error_In in Hg, Hl.
  pose proof (rsi_gain_nonneg close w) as Gn.
  pose proof (rsi_loss_nonneg close w) as Ln.
  rewrite Forall_forall in Gn, Ln, Hloss.
  specialize (Gn g Hg). specialize (Ln l Hl). specialize (Hloss l Hl).
  destruct g as [g|]; [|left; apply rsi_of_undefined; left; reflexivity].
  destruct l as [l|]; [|left; apply rsi_of_undefined; right; reflexivity].
  right. simpl in Gn, Ln, Hloss.
  apply rsi_of_positive_loss; [exact Gn|].
  destruct (Qlt_le_dec 0 l) as [Hpos|Hneg]; [exact Hpos|].
  exfalso. apply Hloss. lra.
Qed.

Lemma calculate_rsi_bounded_witness :
  exists rsi,
    calculate_rsi (close_frame [Some 3; Some 2; Some 4; Some 3]) 2 = Ok rsi /\
    forall i v, nth_error (s_values rsi) i = Some v ->
      v = NaN \/ exists q, v = Fin q /\ 0 <= q <= 100.
Proof.
  apply (calculate_rsi_bounded (close_frame [Some 3; Some 2; Some 4; Some 3])
           (close_of_frame [Some 3; Some 2; Some 4; Some 3]) 2).
  - reflexivity.
  - match goal with
    | |- Forall ?P ?l => let l' := eval vm_compute in l in change (Forall P l')
    end.
    repeat (apply Forall_cons; [intros H; vm_compute in H; first [contradiction | discriminate H]|]).
    apply Forall_nil.
Defined.

Lemma nth_error_map_seq {A : Type} (g : nat -> A) (n i : nat) :
  (i < n)%nat -> nth_error (map g (seq 0 n)) i = Some (g i).
Proof.
  intros Hi. rewrite nth_error_map, nth_error_seq.
  replace (i <? n)%nat with true by (symmetry; apply Nat.ltb_lt; exact Hi).
  reflexivity.
Qed.

Lemma zip_nth_error_intro {A B C : Type} (f : A -> B -> C) (xs : list A) (ys : list B)
    (i : nat) (x : A) (y : B) :
  nth_error xs i = Some x -> nth_error ys i = Some y ->
  nth_error (map (fun p => f (fst p) (snd p)) (combine xs ys)) i = Some (f x y).
Proof.
  revert ys i; induction xs as [|x' xs IH]; intros [|y' ys] [|i]; simpl;
    try discriminate.
  - intros Hx Hy; inversion Hx; inversion Hy; reflexivity.
  - apply IH.
Qed.

(** On a series without NaN, a rolling statistic is defined exactly at the
    positions whose window is complete. *)
Lemma rolling_observed_defined (g : list Q -> Q) (w : nat) (qs : list Q) (i : nat) (v : Q) :
  nth_error (rolling (fun ws => Some (g ws)) w (map Some qs)) i = Some (Some v) ->
  (1 <= w)%nat /\ (w <= S i)%nat /\ (i < length qs)%nat /\ v = g (window_values w i qs).
Proof.
  intros H.
  assert (Hi : (i < length qs)%nat).
  { assert (Hn : nth_error (rolling (fun ws => Some (g ws)) w (map Some qs)) i <> None)
      by (rewrite H; discriminate).
    apply nth_error_Some in Hn. rewrite rolling_length, length_map in Hn. exact Hn. }
  unfold rolling in H. rewrite length_map, nth_error_map_seq in H by exact Hi.
  unfold rolling_at in H.
  destruct (1 <=? w)%nat eqn:E1; [|discriminate].
  destruct (w <=? S i)%nat eqn:E2; [|discriminate].
  simpl in H. rewrite window_values_map, observed_map_Some in H.
  apply Nat.leb_le in E1, E2. inversion H. auto.
Qed.

Lemma rolling_observed_nth_error (g : list Q -> Q) (w : nat) (qs : list Q) (i : nat) :
  (1 <= w)%nat -> (w <= S i)%nat -> (i < length qs)%nat ->
  nth_error (rolling (fun ws => Some (g ws)) w (map Some qs)) i
    = Some (Some (g (window_values w i qs))).
Proof.
  intros H1 Hw Hi. unfold rolling.
  rewrite length_map, nth_error_map_seq by exact Hi.
  rewrite (rolling_at_observed (fun ws => Some (g ws))) by assumption.
  reflexivity.
Qed.

(** C5 as stated fails on a rising series: for the closes [1, 2, 3] and
    window 2 the average loss at index 1 is zero and the index there is
    100, not NaN. *)
Lemma calculate_rsi_rising_series :
  close_column (close_frame [Some 1; Some 2; Some 3])
    = Ok (close_of_frame [Some 1; Some 2; Some 3]) /\
  ~ rsi_zero_loss_as_specified (close_frame [Some 1; Some 2; Some 3])
                               (close_of_frame [Some 1; Some 2; Some 3]) 2.
Proof.
  split; [reflexivity|].
  intros [rsi [Hrsi Hnan]].
  specialize (Hnan 1%nat _ eq_refl).
  assert (H0 : nth_error (s_values rsi) 1 = Some NaN) by (apply Hnan; reflexivity).
  vm_compute in Hrsi. inversion Hrsi; subst rsi.
  vm_compute in H0. discriminate H0.
Qed.

(** C5 (amended): at a point whose trailing window has an average loss of
    zero, [calculate_rsi] does not raise; the average gain is defined there
    as well, and the point is NaN when that gain is zero and 100 when it is
    not. *)
Theorem calculate_rsi_zero_loss :
  forall (data : DataFrame) (close : Series cell) (w i : nat) (l : Q),
    close_column data = Ok close ->
    nth_error (s_values (rsi_loss close w)) i = Some (Some l) ->
    l == 0 ->
    exists rsi g,
      calculate_rsi data w = Ok rsi /\
      nth_error (s_values (rsi_gain close w)) i = Some (Some g) /\
      (g == 0 -> nth_error (s_values rsi) i = Some NaN) /\
      (~ g == 0 -> exists q, nth_error (s_values rsi) i = Some (Fin q) /\ q == 100).
Proof.
  intros data close w i l Hclose Hl Hl0.
  pose proof Hl as Hl'.
  unfold rsi_loss, rolling_mean in Hl'. simpl in Hl'.
  rewrite neg_where_negative_loss in Hl'.
  apply rolling_observed_defined in Hl'.
  destruct Hl' as [H1 [Hw [Hi _]]].
  rewrite length_map in Hi.
  assert (Hg : nth_error (s_values (rsi_gain close w)) i
               = Some (Some (Qmean (window_values w i (map gain_part (diff (s_values close))))))).
  { unfold rsi_gain, rolling_mean. simpl. rewrite where_positive_gain.
    apply rolling_observed_nth_error; try assumption.
    rewrite length_map. exact Hi. }
  eexists. eexists. split; [apply calculate_rsi_ok; exact Hclose|].
  split; [exact Hg|].
  pose proof (rsi_gain_nonneg close w) as Gn.
  rewrite Forall_forall in Gn.
  specialize (Gn _ (nth_error_In _ _ Hg)). simpl in Gn.
  split.
  - intros Hg0. unfold series_zip. cbn [s_values].
    rewrite (zip_nth_error_intro rsi_of _ _ i _ _ Hg Hl).
    f_equal. apply rsi_of_zero_loss_flat; assumption.
  - intros Hg0. unfold series_zip. cbn [s_values].
    rewrite (zip_nth_error_intro rsi_of _ _ i _ _ Hg Hl).
    destruct (rsi_of_zero_loss_gain
                (Qmean (window_values w i (map gain_part (diff (s_values close))))) l)
      as [q [Hq Hq100]].
    + destruct (Qlt_le_dec 0 (Qmean (window_values w i (map gain_part (diff (s_values close))))))
        as [Hpos|Hneg]; [exact Hpos|].
      exfalso. apply Hg0. lra.
    + exact Hl0.
    + exists q. rewrite Hq. split; [reflexivity | exact Hq100].
Qed.

Lemma calculate_rsi_zero_loss_witness :
  exists rsi g,
    calculate_rsi (close_frame [Some 1; Some 2; Some 3]) 2 = Ok rsi /\
    nth_error (s_values (rsi_gain (close_of_frame [Some 1; Some 2; Some 3]) 2)) 1
      = Some (Some g) /\
    (g == 0 -> nth_error (s_values rsi) 1 = Some NaN) /\
    (~ g == 0 -> exists q, nth_error (s_values rsi) 1 = Some (Fin q) /\ q == 100).
Proof.
  apply (calculate_rsi_zero_loss (close_frame [Some 1; Some 2; Some 3])
           (close_of_frame [Some 1; Some 2; Some 3]) 2 1 ((- 0 + (- 0 + 0)) / 2)).
  - reflexivity.
  - reflexivity.
  - reflexivity.
Defined.

(** ** Windows longer than the series *)

Lemma rolling_short (f : list Q -> cell) (w : nat) (xs : list cell) :
  (length xs < w)%nat -> all_undefined (rolling f w xs).
Proof.
  intros Hw. unfold all_undefined, rolling.
  apply Forall_forall. intros c Hc.
  apply in_map_iff in Hc. destruct Hc as [i [Hi Hin]]. subst c.
  apply in_seq in Hin. apply rolling_at_warmup. lia.
Qed.

Lemma diff_length (xs : list cell) : length (diff xs) = length xs.
Proof.
  destruct xs as [|x rest]; [reflexivity|].
  unfold diff. cbn [length].
  rewrite length_map, length_combine. cbn [length]. f_equal. lia.
Qed.

Lemma ewm_from_length (alpha : Q) (st : cell * Q) (xs : list cell) :
  length (ewm_from alpha st xs) = length xs.
Proof.
  revert st; induction xs as [|x xs IH]; intros st; simpl; [reflexivity|].
  f_equal. apply IH.
Qed.

Lemma ewm_values_length (alpha : Q) (xs : list cell) :
  length (ewm_values alpha xs) = length xs.
Proof.
  destruct xs as [|x xs]; simpl; [reflexivity|].
  f_equal. apply ewm_from_length.
Qed.

Lemma sma_short (data : DataFrame) (close : Series cell) (w : nat) :
  close_column data = Ok close ->
  (length (s_values close) < w)%nat ->
  sma_short_history data close w.
Proof.
  intros Hclose Hw. exists (rolling_mean w close).
  unfold calculate_sma. rewrite Hclose. split; [reflexivity|].
  split; [split|]; simpl.
  - apply (column_series_index data "Close"). exact Hclose.
  - apply rolling_length.
  - apply rolling_short. exact Hw.
Qed.

Lemma bollinger_short (Qsqrt : Q -> Q) (data : DataFrame) (close : Series cell)
    (w : nat) (num_std : Q) :
  close_column data = Ok close ->
  (length (s_values close) < w)%nat ->
  bollinger_short_history Qsqrt data close w num_std.
Proof.
  intros Hclose Hw.
  pose proof (column_series_index data "Close" close Hclose) as Hidx.
  unfold bollinger_short_history, calculate_bollinger_bands, calculate_sma.
  rewrite Hclose. simpl.
  eexists _, _, _. split; [reflexivity|].
  assert (Hnone : all_undefined (rolling (fun qs => Some (Qmean qs)) w (s_values close)))
    by (apply rolling_short; exact Hw).
  unfold aligned, all_undefined in *. simpl.
  repeat split; try exact Hidx; try exact Hnone.
  - rewrite zip_length; rewrite ?length_map, !rolling_length; reflexivity.
  - apply zip_all. intros x y Hx _. rewrite Forall_forall in Hnone.
    rewrite (Hnone x Hx). reflexivity.
  - apply rolling_length.
  - rewrite zip_length; rewrite ?length_map, !rolling_length; reflexivity.
  - apply zip_all. intros x y Hx _. rewrite Forall_forall in Hnone.
    rewrite (Hnone x Hx). reflexivity.
Qed.

Lemma rsi_short (data : DataFrame) (close : Series cell) (w : nat) :
  close_column data = Ok close ->
  (length (s_values close) < w)%nat ->
  rsi_short_history data close w.
Proof.
  intros Hclose Hw.
  eexists. split; [apply calculate_rsi_ok; exact Hclose|].
  unfold aligned, rsi_gain, rsi_loss, rolling_mean. simpl.
  repeat split.
  - apply (column_series_index data "Close"). exact Hclose.
  - rewrite zip_length; rewrite !rolling_length, !length_map, ?diff_length; reflexivity.
  - apply zip_all. intros x y Hx _.
    assert (Hnone : all_undefined
              (rolling (fun qs => Some (Qmean qs)) w (map where_positive (diff (s_values close)))))
      by (apply rolling_short; rewrite length_map, diff_length; exact Hw).
    unfold all_undefined in Hnone. rewrite Forall_forall in Hnone.
    rewrite (Hnone x Hx). reflexivity.
Qed.

Lemma ema_no_warmup (data : DataFrame) (close : Series cell) (w : nat) :
  close_column data = Ok close ->
  (1 <= w)%nat ->
  ema_returns data close w.
Proof.
  intros Hclose Hw. unfold ema_returns, calculate_ema. rewrite Hclose. simpl.
  rewrite ewm_mean_ok by exact Hw.
  eexists. split; [reflexivity|]. split; simpl.
  - apply (column_series_index data "Close"). exact Hclose.
  - apply ewm_values_length.
Qed.

Lemma macd_no_warmup (data : DataFrame) (close : Series cell) (fast slow signal : nat) :
  close_column data = Ok close ->
  (1 <= fast)%nat -> (1 <= slow)%nat -> (1 <= signal)%nat ->
  macd_returns data close fast slow signal.
Proof.
  intros Hclose Hf Hs Hg.
  pose proof (column_series_index data "Close" close Hclose) as Hidx.
  unfold macd_returns, calculate_macd. rewrite Hclose. simpl.
  rewrite (ewm_mean_ok fast) by exact Hf. simpl.
  rewrite (ewm_mean_ok slow) by exact Hs. simpl.
  rewrite (ewm_mean_ok signal) by exact Hg. simpl.
  eexists _, _, _. split; [reflexivity|].
  unfold aligned. simpl.
  assert (Hm : length (map (fun p : cell * cell => cell_sub (fst p) (snd p))
                 (combine (ewm_values (span_alpha fast) (s_values close))
                          (ewm_values (span_alpha slow) (s_values close))))
               = length (s_values close)).
  { rewrite zip_length; rewrite !ewm_values_length; reflexivity. }
  repeat split; try exact Hidx.
  - exact Hm.
  - rewrite ewm_values_length. exact Hm.
  - rewrite zip_length; [exact Hm|]. rewrite ewm_values_length. reflexivity.
Qed.

(** C6 (amended): with a window longer than the series, SMA, the three
    Bollinger bands and RSI return series on the timestamps of the data
    whose every point is undefined; EMA and MACD, which have no warm-up,
    return series on the same timestamps as well.  None of the five
    raises. *)
Theorem indicators_short_history :
  forall (Qsqrt : Q -> Q) (data : DataFrame) (close : Series cell)
         (w : nat) (num_std : Q) (fast slow signal : nat),
    close_column data = Ok close ->
    (length (s_values close) < w)%nat ->
    (length (s_values close) < fast)%nat ->
    (length (s_values close) < slow)%nat ->
    (length (s_values close) < signal)%nat ->
    sma_short_history data close w /\
    bollinger_short_history Qsqrt data close w num_std /\
    rsi_short_history data close w /\
    ema_returns data close w /\
    macd_returns data close fast slow signal.
Proof.
  intros Qsqrt data close w num_std fast slow signal Hclose Hw Hf Hs Hg.
  split; [apply sma_short; assumption|].
  split; [apply bollinger_short; assumption|].
  split; [apply rsi_short; assumption|].
  split; [apply ema_no_warmup; [assumption | lia]|].
  apply macd_no_warmup; [assumption | lia | lia | lia].
Qed.

Lemma indicators_short_history_witness :
  sma_short_history (close_frame [Some 1; Some 2]) (close_of_frame [Some 1; Some 2]) 3 /\
  bollinger_short_history Qsqrt_floor (close_frame [Some 1; Some 2])
    (close_of_frame [Some 1; Some 2]) 3 2 /\
  rsi_short_history (close_frame [Some 1; Some 2]) (close_of_frame [Some 1; Some 2]) 3 /\
  ema_returns (close_frame [Some 1; Some 2]) (close_of_frame [Some 1; Some 2]) 3 /\
  macd_returns (close_frame [Some 1; Some 2]) (close_of_frame [Some 1; Some 2]) 12 26 9.
Proof.
  apply (indicators_short_history Qsqrt_floor (close_frame [Some 1; Some 2])
           (close_of_frame [Some 1; Some 2]) 3 2 12 26 9).
  - reflexivity.
  - simpl; lia.
  - simpl; lia.
  - simpl; lia.
  - simpl; lia.
Defined.

(** C6 as stated fails for the exponential average: on the single close
    [1] and window 2, [calculate_ema] returns the defined point [1]. *)
Lemma calculate_ema_short_history :
  close_column (close_frame [Some 1]) = Ok (close_of_frame [Some 1]) /\
  (length (s_values (close_of_frame [Some 1%Q])) < 2)%nat /\
  ~ short_history_as_specified Qsqrt_floor (close_frame [Some 1])
      (close_of_frame [Some 1]) 2 2 2 2 2.
Proof.
  split; [reflexivity|]. split; [simpl; lia|].
  intros [_ [[s [Hs [_ Hnone]]] _]].
  vm_compute in Hs. inversion Hs; subst s.
  simpl in Hnone. inversion Hnone as [|? ? Hhd _]. discriminate Hhd.
Qed.

(** ** The normaliser *)

Local Open Scope nat_scope.

Lemma contains_In (c : string) (ls : list string) : contains c ls = true <-> In c ls.
Proof.
  unfold contains. rewrite existsb_exists. split.
  - intros [x [Hx E]]. apply String.eqb_eq in E. subst x. exact Hx.
  - intros H. exists c. split; [exact H | apply String.eqb_refl].
Qed.

Lemma first_match_Some (c e : string) (ls : list string) :
  first_match c ls = Some e -> In e ls /\ lower e = lower c.
Proof.
  induction ls as [|x ls IH]; simpl; [discriminate|].
  destruct (String.eqb (lower x) (lower c)) eqn:E.
  - intros H; inversion H; subst x. apply String.eqb_eq in E. auto.
  - intros H. destruct (IH H). auto.
Qed.

Lemma first_match_None (c : string) (ls : list string) :
  first_match c ls = None -> forall e, In e ls -> lower e <> lower c.
Proof.
  induction ls as [|x ls IH]; simpl; [intros _ e []|].
  destruct (String.eqb (lower x) (lower c)) eqn:E; [discriminate|].
  intros H e [He|He].
  - subst e. apply String.eqb_neq. exact E.
  - apply IH; assumption.
Qed.

Lemma required_for_Some (cols : list string) (l c : string) :
  required_for cols l = Some c -> In c cols /\ lower l = lower c.
Proof.
  unfold required_for. intros H. apply find_some in H.
  destruct H as [Hin E]. apply String.eqb_eq in E. auto.
Qed.

Lemma required_for_None (cols : list string) (l : string) :
  ~ In (lower l) (map lower cols) -> required_for cols l = None.
Proof.
  intros H. unfold required_for.
  destruct (find _ cols) as [c|] eqn:E; [|reflexivity].
  apply find_some in E. destruct E as [Hin E]. apply String.eqb_eq in E.
  exfalso. apply H. rewrite E. apply in_map. exact Hin.
Qed.

Lemma required_for_unique (cols : list string) (l c : string) :
  NoDup (map lower cols) -> In c cols -> lower l = lower c ->
  required_for cols l = Some c.
Proof.
  unfold required_for.
  induction cols as [|x cols IH]; simpl; intros Hnd Hin Hl; [contradiction|].
  inversion Hnd as [|? ? Hx Hnd']; subst.
  destruct (String.eqb (lower l) (lower x)) eqn:E.
  - apply String.eqb_eq in E. destruct Hin as [Hin|Hin]; [subst; reflexivity|].
    exfalso. apply Hx. rewrite <- E, Hl. apply in_map. exact Hin.
  - destruct Hin as [Hin|Hin].
    + subst x. apply String.eqb_neq in E. contradiction.
    + apply IH; assumption.
Qed.

Lemma required_for_app (done : list string) (c l : string) :
  required_for (done ++ [c]) l =
    match required_for done l with
    | Some c' => Some c'
    | None => if String.eqb (lower l) (lower c) then Some c else None
    end.
Proof.
  unfold required_for. induction done as [|x done IH]; simpl.
  - reflexivity.
  - destruct (String.eqb (lower l) (lower x)); [reflexivity | exact IH].
Qed.

(** Relabelling keeps the lower-cased spelling. *)
Lemma normalized_label_lower (cols base : list string) (l : string) :
  lower (normalized_label_among cols base l) = lower l.
Proof.
  unfold normalized_label_among.
  destruct (required_for cols l) as [c|] eqn:E; [|reflexivity].
  apply required_for_Some in E. destruct E as [_ E].
  destruct (contains c base); [reflexivity|].
  destruct (first_match c base) as [e|]; [|reflexivity].
  destruct (String.eqb l e); [symmetry; exact E | reflexivity].
Qed.

Section Relabelling.

Variable c : string.
Variable f : string -> string.
Hypothesis f_lower : forall l, lower (f l) = lower l.
Hypothesis f_fixes : forall l, lower l = lower c -> f l = l.

Lemma first_match_relabelled (ls : list string) :
  first_match c (map f ls) = first_match c ls.
Proof.
  induction ls as [|x ls IH]; simpl; [reflexivity|].
  rewrite f_lower.
  destruct (String.eqb (lower x) (lower c)) eqn:E; [|exact IH].
  apply String.eqb_eq in E. rewrite (f_fixes x E). reflexivity.
Qed.

Lemma contains_relabelled (ls : list string) :
  contains c (map f ls) = contains c ls.
Proof.
  apply eq_true_iff_eq. rewrite !contains_In, in_map_iff. split.
  - intros [x [Hx Hin]].
    assert (E : lower x = lower c) by (rewrite <- Hx; symmetry; apply f_lower).
    rewrite (f_fixes x E) in Hx. subst x. exact Hin.
  - intros Hin. exists c. split; [apply f_fixes; reflexivity | exact Hin].
Qed.

End Relabelling.

(** One round of the loop extends the relabelling by one required name. *)
Lemma fix_column_step (done base : list string) (c : string) :
  ~ In (lower c) (map lower done) ->
  fix_column (map (normalized_label_among done base) base) c
    = map (normalized_label_among (done ++ [c]) base) base.
Proof.
  intros Hc.
  assert (Hfix : forall l, lower l = lower c -> normalized_label_among done base l = l).
  { intros l Hl. unfold normalized_label_among.
    rewrite required_for_None; [reflexivity | rewrite Hl; exact Hc]. }
  unfold fix_column.
  rewrite (contains_relabelled c _ (normalized_label_lower done base) Hfix).
  rewrite (first_match_relabelled c _ (normalized_label_lower done base) Hfix).
  destruct (contains c base) eqn:Ecb.
  - apply map_ext. intros l. unfold normalized_label_among.
    rewrite required_for_app.
    destruct (required_for done l) as [c'|]; [reflexivity|].
    destruct (String.eqb (lower l) (lower c)); [rewrite Ecb|]; reflexivity.
  - destruct (first_match c base) as [e|] eqn:Efm.
    + unfold rename. rewrite map_map. apply map_ext. intros l.
      pose proof (first_match_Some _ _ _ Efm) as [_ He].
      unfold normalized_label_among at 3. rewrite required_for_app.
      destruct (required_for done l) as [c'|] eqn:Er.
      * assert (Hne : String.eqb (normalized_label_among done base l) e = false).
        { apply String.eqb_neq. intros Heq.
          apply required_for_Some in Er. destruct Er as [Hin Hl].
          apply Hc. rewrite <- He, <- Heq, normalized_label_lower, Hl.
          apply in_map. exact Hin. }
        rewrite Hne. unfold normalized_label_among. rewrite Er. reflexivity.
      * assert (Hl : normalized_label_among done base l = l).
        { unfold normalized_label_among. rewrite Er. reflexivity. }
        rewrite Hl.
        destruct (String.eqb (lower l) (lower c)) eqn:El.
        -- rewrite Ecb, Efm. reflexivity.
        -- destruct (String.eqb l e) eqn:Ele; [|reflexivity].
           apply String.eqb_eq in Ele. subst l.
           apply String.eqb_neq in El. contradiction.
    + apply map_ext. intros l. unfold normalized_label_among.
      rewrite required_for_app.
      destruct (required_for done l) as [c'|]; [reflexivity|].
      destruct (String.eqb (lower l) (lower c)); [rewrite Ecb, Efm|]; reflexivity.
Qed.

Lemma fix_columns_from (todo done base : list string) :
  NoDup (map lower (done ++ todo)) ->
  fold_left fix_column todo (map (normalized_label_among done base) base)
    = map (normalized_label_among (done ++ todo) base) base.
Proof.
  revert done; induction todo as [|c todo IH]; intros done Hnd; simpl.
  - rewrite app_nil_r. reflexivity.
  - rewrite fix_column_step.
    + replace (done ++ c :: todo)%list with ((done ++ [c]) ++ todo)%list
        by (rewrite <- app_assoc; reflexivity).
      apply IH. rewrite <- app_assoc. exact Hnd.
    + rewrite map_app in Hnd. simpl in Hnd.
      apply NoDup_remove_2 in Hnd. intros Hin. apply Hnd.
      apply in_or_app. left. exact Hin.
Qed.

Lemma expected_cols_distinct : NoDup (map lower expected_cols).
Proof.
  vm_compute. repeat constructor; simpl; intuition discriminate.
Qed.

(** The loop of [fix_dataframe_columns] computes the relabelling of the
    specification. *)
Lemma fix_columns_normalized (base : list string) :
  fold_left fix_column expected_cols base = map (normalized_label base) base.
Proof.
  pose proof (fix_columns_from expected_cols [] base expected_cols_distinct) as H.
  simpl app in H. unfold normalized_label. rewrite <- H.
  f_equal. symmetry. apply map_id.
Qed.

Lemma normalized_present (base : list string) (c : string) :
  In c expected_cols ->
  (In c (map (normalized_label base) base) <-> exists e, In e base /\ lower e = lower c).
Proof.
  intros Hc. rewrite in_map_iff. split.
  - intros [l [Hl Hin]]. exists l. split; [exact Hin|].
    rewrite <- Hl. symmetry. apply normalized_label_lower.
  - intros [e [Hin He]].
    destruct (contains c base) eqn:Ecb.
    + apply contains_In in Ecb. exists c. split; [|exact Ecb].
      unfold normalized_label, normalized_label_among.
      rewrite (required_for_unique expected_cols c c expected_cols_distinct Hc eq_refl).
      replace (contains c base) with true by (symmetry; apply contains_In; exact Ecb).
      reflexivity.
    + destruct (first_match c base) as [e'|] eqn:Efm.
      * pose proof (first_match_Some _ _ _ Efm) as [Hin' He'].
        exists e'. split; [|exact Hin'].
        unfold normalized_label, normalized_label_among.
        rewrite (required_for_unique expected_cols e' c expected_cols_distinct Hc He').
        rewrite Ecb, Efm, String.eqb_refl. reflexivity.
      * exfalso. exact (first_match_None _ _ Efm e Hin He).
Qed.

(** C7 (amended): on a table with at least one row and one column, the
    normaliser keeps the outer level of nested labels, leaves the index and
    every cell as they are, and gives each column the label of the
    specification: a required name absent from the table replaces the first
    label equal to it case aside, and a required name is present afterwards
    exactly when some label spelled it, case aside. *)
Theorem fix_dataframe_columns_nonempty :
  forall df : DataFrame, empty df = false -> normalizer_as_specified df.
Proof.
  intros df Hne. unfold normalizer_as_specified. split.
  - unfold fix_dataframe_columns. rewrite Hne.
    destruct df as [idx [labels|labels] values];
      unfold set_columns; cbn [df_columns df_index df_values outer_labels];
      rewrite fix_columns_normalized; reflexivity.
  - intros c Hc. apply normalized_present. exact Hc.
Qed.

Lemma fix_dataframe_columns_nonempty_witness :
  normalizer_as_specified
    (mkDataFrame [1%Z; 2%Z]
       (MultiIndex [("close", "VOO"); ("OPEN", "VOO"); ("open", "VOO"); ("Volume", "VOO")])
       [[Some 1%Q; Some 2%Q]; [Some 3%Q; None]; [None; None]; [Some 7%Q; Some 8%Q]]).
Proof.
  apply fix_dataframe_columns_nonempty. reflexivity.
Defined.

(** C7 as stated fails on a table without rows: its nested labels are
    returned as they came. *)
Lemma fix_dataframe_columns_no_rows :
  ~ normalizer_as_specified
      (mkDataFrame [] (MultiIndex [("Close", "VOO"); ("Open", "VOO")]) [[]; []]).
Proof.
  intros [H _]. vm_compute in H. discriminate H.
Qed.

(** C10: [fix_dataframe_columns] returns [None] for [None] and an empty
    table as it came; on any table the index, the cells and the number of
    columns of the result are those of the input: only labels change. *)
Theorem fix_dataframe_columns_frame :
  forall df : option DataFrame,
    match df, fix_dataframe_columns df with
    | None, None => True
    | Some d, Some d' =>
        df_index d' = df_index d /\
        df_values d' = df_values d /\
        ncols (df_columns d') = ncols (df_columns d) /\
        (empty d = true -> d' = d)
    | _, _ => False
    end.
Proof.
  intros [d|]; [|exact I]. unfold fix_dataframe_columns.
  destruct (empty d) eqn:E.
  - repeat split.
  - destruct d as [idx [labels|labels] values];
      unfold set_columns; cbn [df_columns df_index df_values outer_labels ncols];
      rewrite fix_columns_normalized; repeat split;
      try discriminate; unfold get_level_values0; rewrite !length_map; reflexivity.
Qed.

(** ** Fetching *)

(** C8: when the provider returns a table without rows,
    [download_stock_data] returns no data together with the message
    "No data available for this combination". *)
Theorem download_stock_data_no_rows :
  forall (yf_download : string -> string -> string -> provider_outcome)
         (ticker period interval : string) (data : DataFrame),
    yf_download ticker period interval = ProviderReturns data ->
    df_index data = [] ->
    download_stock_data yf_download ticker period interval
      = (None, Some "No data available for this combination"%string).
Proof.
  intros yf_download ticker period interval data Hdl Hrows.
  unfold download_stock_data. rewrite Hdl.
  unfold empty. rewrite Hrows. reflexivity.
Qed.

Lemma download_stock_data_no_rows_witness :
  download_stock_data provider_without_rows "VOO" "1y" "1d"
    = (None, Some "No data available for this combination"%string).
Proof.
  apply (download_stock_data_no_rows provider_without_rows "VOO" "1y" "1d"
           (mkDataFrame []
              (MultiIndex [("Close", "VOO"); ("High", "VOO"); ("Low", "VOO");
                           ("Open", "VOO"); ("Volume", "VOO")])
              [[]; []; []; []; []])).
  - reflexivity.
  - reflexivity.
Defined.

(** * Laws of binary64

    Facts about the operations on doubles, proved from their specification
    in the library. *)

Module IEEE.
Import SpecFloat.

Section Spec.
Variables prec emax : Z.

Lemma binary_round_aux_abs (s : bool) (m e : Z) (l : location) :
  SFabs (binary_round_aux prec emax s m e l) = binary_round_aux prec emax false m e l.
Proof.
  unfold binary_round_aux.
  destruct (shr_fexp prec emax m e l) as [mrs' e'].
  destruct (shr_fexp prec emax _ e' loc_Exact) as [mrs'' e''].
  destruct (shr_m mrs'') as [|p|p]; [reflexivity| |reflexivity].
  destruct (Z.leb e'' (Z.sub emax prec)); reflexivity.
Qed.

Lemma binary_round_aux_opp (s : bool) (m e : Z) (l : location) :
  SFopp (binary_round_aux prec emax s m e l) = binary_round_aux prec emax (negb s) m e l.
Proof.
  unfold binary_round_aux.
  destruct (shr_fexp prec emax m e l) as [mrs' e'].
  destruct (shr_fexp prec emax _ e' loc_Exact) as [mrs'' e''].
  destruct (shr_m mrs'') as [|p|p]; [reflexivity| |reflexivity].
  destruct (Z.leb e'' (Z.sub emax prec)); reflexivity.
Qed.

Lemma binary_round_abs (s : bool) (m : positive) (e : Z) :
  SFabs (binary_round prec emax s m e) = binary_round prec emax false m e.
Proof.
  unfold binary_round. destruct (shl_align _ _ _) as [mz ez].
  apply binary_round_aux_abs.
Qed.

(** Rounding an integer and taking the absolute value. *)
Lemma binary_normalize_abs_nonneg (z e : Z) :
  (0 <= z)%Z ->
  SFabs (binary_normalize prec emax z e false) = binary_normalize prec emax z e false.
Proof.
  intros Hz. destruct z as [|p|p]; cbn [binary_normalize].
  - reflexivity.
  - apply binary_round_abs.
  - lia.
Qed.

Lemma binary_normalize_abs_nonpos (z e : Z) :
  (z <= 0)%Z ->
  SFabs (binary_normalize prec emax z e false) = binary_normalize prec emax (- z) e false.
Proof.
  intros Hz. destruct z as [|p|p]; cbn [binary_normalize Z.opp].
  - reflexivity.
  - lia.
  - apply binary_round_abs.
Qed.

(** ** The order on valid numbers *)

Lemma digits2_pos_bounds (m : positive) :
  (2 ^ (Zpos (digits2_pos m) - 1) <= Zpos m < 2 ^ Zpos (digits2_pos m))%Z.
Proof.
  induction m as [m IH|m IH|]; cbn [digits2_pos].
  - rewrite Pos2Z.inj_succ, Z.pow_succ_r by lia.
    replace (Z.succ (Zpos (digits2_pos m)) - 1)%Z with (Z.succ (Zpos (digits2_pos m) - 1))%Z by lia.
    rewrite Z.pow_succ_r by lia. lia.
  - rewrite Pos2Z.inj_succ, Z.pow_succ_r by lia.
    replace (Z.succ (Zpos (digits2_pos m)) - 1)%Z with (Z.succ (Zpos (digits2_pos m) - 1))%Z by lia.
    rewrite Z.pow_succ_r by lia. lia.
  - cbn. lia.
Qed.

Lemma shl_align_value (m : positive) (ex ez : Z) :
  (ez <= ex)%Z ->
  Zpos (fst (shl_align m ex ez)) = (Zpos m * 2 ^ (ex - ez))%Z.
Proof.
  intros H. unfold shl_align. destruct (Z.sub ez ex) as [|d|d] eqn:E.
  - replace (ex - ez)%Z with 0%Z by lia. cbn [fst]. lia.
  - lia.
  - cbn [fst]. change (Pos.iter xO m d) with (shift_pos d m).
    rewrite shift_pos_correct, Z.pow_pos_fold.
    replace (ex - ez)%Z with (Zpos d) by lia. lia.
Qed.

Hypothesis prec_pos : (0 < prec)%Z.

(** A valid number with the larger exponent has the larger magnitude. *)
Lemma bounded_exponent_order (m1 m2 : positive) (e1 e2 : Z) :
  bounded prec emax m1 e1 = true -> bounded prec emax m2 e2 = true ->
  (e1 < e2)%Z ->
  (Zpos m1 < Zpos m2 * 2 ^ (e2 - e1))%Z.
Proof.
  unfold bounded, canonical_mantissa, fexp. intros H1 H2 He.
  apply andb_prop in H1, H2. destruct H1 as [H1 _], H2 as [H2 _].
  apply Z.eqb_eq in H1, H2.
  pose proof (digits2_pos_bounds m1) as [_ B1].
  pose proof (digits2_pos_bounds m2) as [B2 _].
  set (d1 := Zpos (digits2_pos m1)) in *. set (d2 := Zpos (digits2_pos m2)) in *.
  assert (Hd1 : (d1 <= prec)%Z) by lia.
  assert (Hd2 : (d2 = prec)%Z) by lia.
  assert (P1 : (2 ^ d1 <= 2 ^ prec)%Z) by (apply Z.pow_le_mono_r; lia).
  assert (P2 : (2 ^ prec = 2 * 2 ^ (d2 - 1))%Z).
  { rewrite <- Z.pow_succ_r by lia. f_equal. lia. }
  assert (P3 : (2 ^ 1 <= 2 ^ (e2 - e1))%Z) by (apply Z.pow_le_mono_r; lia).
  change (2 ^ 1)%Z with 2%Z in P3. nia.
Qed.

(** Two valid numbers compare as their signed mantissas do, once brought
    to the smaller exponent. *)
Lemma compare_aligned (s1 s2 : bool) (m1 m2 : positive) (e1 e2 : Z) (c : comparison) :
  bounded prec emax m1 e1 = true -> bounded prec emax m2 e2 = true ->
  SFcompare (S754_finite s1 m1 e1) (S754_finite s2 m2 e2) = Some c ->
  Z.compare (cond_Zopp s1 (Zpos (fst (shl_align m1 e1 (Z.min e1 e2)))))
            (cond_Zopp s2 (Zpos (fst (shl_align m2 e2 (Z.min e1 e2))))) = c.
Proof.
  intros B1 B2 Hc.
  rewrite !shl_align_value by lia.
  cbn [SFcompare] in Hc. injection Hc as Hc.
  assert (P1 : (0 < 2 ^ (e1 - Z.min e1 e2))%Z) by (apply Z.pow_pos_nonneg; lia).
  assert (P2 : (0 < 2 ^ (e2 - Z.min e1 e2))%Z) by (apply Z.pow_pos_nonneg; lia).
  destruct (Z.compare_spec e1 e2) as [He|He|He].
  - subst e2. rewrite Z.min_id, Z.sub_diag in *. change (2 ^ 0)%Z with 1%Z.
    rewrite !Z.mul_1_r.
    change (Pos.compare_cont Eq m1 m2) with (Pos.compare m1 m2) in Hc.
    destruct s1, s2; cbn [cond_Zopp Z.opp Z.compare]; subst c; reflexivity.
  - pose proof (bounded_exponent_order m1 m2 e1 e2 B1 B2 He) as Hlt.
    rewrite Z.min_l in * by lia. rewrite Z.sub_diag. change (2 ^ 0)%Z with 1%Z.
    rewrite Z.mul_1_r.
    destruct s1, s2; cbn [cond_Zopp]; subst c.
    + apply Z.compare_gt_iff. lia.
    + apply Z.compare_lt_iff. lia.
    + apply Z.compare_gt_iff. lia.
    + apply Z.compare_lt_iff. lia.
  - pose proof (bounded_exponent_order m2 m1 e2 e1 B2 B1 He) as Hlt.
    rewrite Z.min_r in * by lia. rewrite Z.sub_diag. change (2 ^ 0)%Z with 1%Z.
    rewrite Z.mul_1_r.
    destruct s1, s2; cbn [cond_Zopp]; subst c.
    + apply Z.compare_lt_iff. lia.
    + apply Z.compare_lt_iff. lia.
    + apply Z.compare_gt_iff. lia.
    + apply Z.compare_gt_iff. lia.
Qed.

(** Subtracting the smaller number from the larger gives the absolute
    difference: the same number, or a zero of the other sign. *)
Lemma SFsub_abs (x y : spec_float) :
  valid_binary prec emax x = true -> valid_binary prec emax y = true ->
  let d := if SFltb y x then SFsub prec emax x y else SFsub prec emax y x in
  d = SFabs (SFsub prec emax x y) \/ SFeqb d (SFabs (SFsub prec emax x y)) = true.
Proof.
  intros Vx Vy.
  destruct x as [sx|sx| |sx mx ex], y as [sy|sy| |sy my ey];
    try (destruct sx; try destruct sy; cbn; first [left; reflexivity | right; reflexivity]).
  all: try (destruct sy; cbn; first [left; reflexivity | right; reflexivity]).
  all: try (cbn; left; reflexivity).
  left. cbn [valid_binary] in Vx, Vy.
  destruct (SFcompare (S754_finite sy my ey) (S754_finite sx mx ex)) as [c|] eqn:Ec;
    [|discriminate Ec].
  pose proof (compare_aligned sy sx my mx ey ex c Vy Vx Ec) as Hc.
  unfold SFltb. rewrite Ec.
  cbn [SFsub]. cbv zeta. change IntDef.Z.min with Z.min.
  change IntDef.Z.sub with Z.sub.
  rewrite (Z.min_comm ey ex) in *.
  set (a := cond_Zopp sx _) in *. set (b := cond_Zopp sy _) in *.
  destruct c.
  - rewrite Z.compare_eq_iff in Hc.
    rewrite binary_normalize_abs_nonpos by lia. f_equal. lia.
  - rewrite Z.compare_lt_iff in Hc.
    rewrite binary_normalize_abs_nonneg by lia. reflexivity.
  - rewrite Z.compare_gt_iff in Hc.
    rewrite binary_normalize_abs_nonpos by lia. f_equal. lia.
Qed.

End Spec.

(** Subtracting is adding the opposite. *)
Lemma SFsub_add_opp (prec emax : Z) (x y : spec_float) :
  SFsub prec emax x y = SFadd prec emax x (SFopp y).
Proof.
  destruct x as [sx|sx| |sx mx ex], y as [sy|sy| |sy my ey]; cbn;
    try reflexivity;
    try (destruct sx; try destruct sy; reflexivity).
Qed.

(** [SFcompare] is antisymmetric. *)
Lemma SFcompare_antisym (x y : spec_float) :
  SFcompare y x = option_map CompOpp (SFcompare x y).
Proof.
  destruct x as [sx|sx| |sx mx ex], y as [sy|sy| |sy my ey]; cbn;
    try reflexivity;
    try (destruct sx; try destruct sy; reflexivity).
  f_equal. rewrite (Z.compare_antisym ex ey).
  change (Pos.compare_cont Eq my mx) with (Pos.compare my mx).
  change (Pos.compare_cont Eq mx my) with (Pos.compare mx my).
  rewrite (Pos.compare_antisym mx my).
  destruct sx, sy; try reflexivity;
    destruct (Z.compare ex ey); cbn; try reflexivity;
    destruct (Pos.compare mx my); reflexivity.
Qed.

Lemma SFltb_asym (x y : spec_float) : SFltb x y = true -> SFltb y x = false.
Proof.
  unfold SFltb. rewrite (SFcompare_antisym x y).
  destruct (SFcompare x y) as [[| |]|]; cbn; intros H; try discriminate H; reflexivity.
Qed.

Lemma SFeqb_not_ltb (x y : spec_float) :
  SFeqb x y = true -> SFltb x y = false /\ SFltb y x = false.
Proof.
  unfold SFeqb, SFltb. rewrite (SFcompare_antisym x y).
  destruct (SFcompare x y) as [[| |]|]; cbn; intros H; try discriminate H; split; reflexivity.
Qed.

End IEEE.

Section Binary64Laws.

Import PrimFloat FloatOps FloatAxioms.

Local Open Scope float_scope.

Lemma ltb_asymmetric (x y : float) : (x <? y) = true -> (y <? x) = false.
Proof. rewrite !ltb_spec. apply IEEE.SFltb_asym. Qed.

Lemma eqb_not_ltb (x y : float) :
  (x =? y) = true -> (x <? y) = false /\ (y <? x) = false.
Proof. rewrite eqb_spec, !ltb_spec. apply IEEE.SFeqb_not_ltb. Qed.

(** The figure printed after "by" is the absolute difference of the two
    returns, whichever branch prints it. *)
Lemma differential_absolute (v j : float) :
  Binary64.same (if j <? v then v - j else j - v) (abs (v - j)).
Proof.
  pose proof (IEEE.SFsub_abs prec emax eq_refl (Prim2SF v) (Prim2SF j)
                (Prim2SF_valid v) (Prim2SF_valid j)) as H.
  cbv zeta in H. rewrite <- ltb_spec in H. unfold Binary64.same.
  destruct H as [H|H].
  - left. apply Prim2SF_inj. rewrite abs_spec, sub_spec.
    destruct (j <? v); rewrite sub_spec; exact H.
  - right. rewrite eqb_spec, abs_spec, sub_spec.
    destruct (j <? v); rewrite sub_spec; exact H.
Qed.

Lemma sub_add_opp (x y : float) : x - y = x + - y.
Proof.
  apply Prim2SF_inj. rewrite sub_spec, add_spec, opp_spec.
  apply IEEE.SFsub_add_opp.
Qed.

End Binary64Laws.

(** * Bollinger bands in binary64 *)

Section BollingerBinary64.

Import PrimFloat.

Local Open Scope float_scope.

(** On the closes 1, 5, 9, 4 with a window of 2 and two deviations the three
    bands are defined at the second point, where upper - middle and
    middle - lower are different doubles. *)
Lemma bollinger_bands_rounding :
  ~ Binary64.bands_symmetric_as_specified
      Binary64.two_pass_mean Binary64.two_pass_std
      (Binary64.close_frame [1; 5; 9; 4]) 2 2.
Proof.
  intros [upper [middle [lower [Hb [_ Hsym]]]]].
  vm_compute in Hb. injection Hb as Hu Hm Hl. subst upper middle lower.
  specialize (Hsym 1%nat _ _ _ eq_refl eq_refl eq_refl eq_refl eq_refl eq_refl).
  vm_compute in Hsym. discriminate Hsym.
Qed.

(** C3: the middle band returned by [calculate_bollinger_bands] is the
    result of [calculate_sma] on the same data and window, and the upper and
    lower bands are the middle plus and minus one and the same offset, the
    rolling deviation times [num_std]: in binary64 each band is that sum or
    difference rounded once, the lower band being the middle plus the
    opposite of the offset; in exact arithmetic, wherever the three bands
    are defined, upper - middle equals middle - lower. *)
Theorem bollinger_bands_about_middle :
  forall (Qsqrt : Q -> Q)
         (rolling_mean rolling_std : nat -> Series float -> Series float),
    (forall (data : DataFrameOf float) (close : Series float) (w : nat)
            (num_std : float),
        close_column data = Ok close ->
        exists upper middle lower,
          Binary64.calculate_bollinger_bands rolling_mean rolling_std data w num_std
            = Ok (upper, middle, lower) /\
          Binary64.calculate_sma rolling_mean data w = Ok middle /\
          forall i u l,
            nth_error (s_values upper) i = Some u ->
            nth_error (s_values lower) i = Some l ->
            exists m sd,
              nth_error (s_values middle) i = Some m /\
              nth_error (s_values (rolling_std w close)) i = Some sd /\
              u = m + sd * num_std /\
              l = m - sd * num_std /\
              l = m + - (sd * num_std)) /\
    (forall (data : DataFrame) (close : Series cell) (w : nat) (num_std : Q),
        close_column data = Ok close ->
        exists upper middle lower,
          calculate_bollinger_bands Qsqrt data w num_std = Ok (upper, middle, lower) /\
          calculate_sma data w = Ok middle /\
          forall i u m l,
            nth_error (s_values upper) i = Some (Some u) ->
            nth_error (s_values middle) i = Some (Some m) ->
            nth_error (s_values lower) i = Some (Some l) ->
            (u - m == m - l)%Q).
Proof.
  intros Qsqrt rolling_mean rolling_std. split.
  - intros data close w num_std Hclose.
    unfold Binary64.calculate_bollinger_bands, Binary64.calculate_sma.
    rewrite Hclose. cbn [bind].
    eexists _, _, _. split; [reflexivity|]. split; [reflexivity|].
    intros i u l Hu Hl. cbn [s_values series_zip series_map] in Hu, Hl.
    apply zip_nth_error in Hu. destruct Hu as [m [su [Hm [Hsu Hu]]]].
    apply zip_nth_error in Hl. destruct Hl as [m' [sl [Hm' [Hsl Hl]]]].
    rewrite Hm in Hm'. injection Hm' as <-.
    rewrite Hsu in Hsl. injection Hsl as <-.
    rewrite nth_error_map in Hsu.
    destruct (nth_error (s_values (rolling_std w close)) i) as [sd|]; [|discriminate Hsu].
    cbn [option_map] in Hsu. injection Hsu as <-.
    exists m, sd. subst u l.
    split; [exact Hm|]. split; [reflexivity|]. split; [reflexivity|].
    split; [reflexivity|]. apply sub_add_opp.
  - exact (bollinger_symmetric_exactly Qsqrt).
Qed.

(** The closes 1, 5, 9, 4 with a window of 2 and two deviations. *)
Lemma bollinger_bands_about_middle_witness :
  (exists upper middle lower,
      Binary64.calculate_bollinger_bands Binary64.two_pass_mean Binary64.two_pass_std
        (Binary64.close_frame [1; 5; 9; 4]) 2 2 = Ok (upper, middle, lower) /\
      Binary64.calculate_sma Binary64.two_pass_mean
        (Binary64.close_frame [1; 5; 9; 4]) 2 = Ok middle /\
      forall i u l,
        nth_error (s_values upper) i = Some u ->
        nth_error (s_values lower) i = Some l ->
        exists m sd,
          nth_error (s_values middle) i = Some m /\
          nth_error (s_values (Binary64.two_pass_std 2
                                 (Binary64.close_of_frame [1; 5; 9; 4]))) i = Some sd /\
          u = m + sd * 2 /\
          l = m - sd * 2 /\
          l = m + - (sd * 2)) /\
  (exists upper middle lower,
      calculate_bollinger_bands Qsqrt_floor
        (close_frame [Some 1; Some 5; Some 9; Some 4]%Q) 2 2 = Ok (upper, middle, lower) /\
      calculate_sma (close_frame [Some 1; Some 5; Some 9; Some 4]%Q) 2 = Ok middle /\
      forall i u m l,
        nth_error (s_values upper) i = Some (Some u) ->
        nth_error (s_values middle) i = Some (Some m) ->
        nth_error (s_values lower) i = Some (Some l) ->
        (u - m == m - l)%Q).
Proof.
  destruct (bollinger_bands_about_middle Qsqrt_floor
              Binary64.two_pass_mean Binary64.two_pass_std) as [Hdouble Hexact].
  split.
  - apply (Hdouble (Binary64.close_frame [1; 5; 9; 4])
                   (Binary64.close_of_frame [1; 5; 9; 4]) 2%nat 2).
    reflexivity.
  - apply (Hexact (close_frame [Some 1; Some 5; Some 9; Some 4]%Q)
                  (close_of_frame [Some 1; Some 5; Some 9; Some 4]%Q) 2%nat 2%Q).
    reflexivity.
Defined.

End BollingerBinary64.

(** * The comparison summary *)

Section ComparisonSummary.

Import PrimFloat.

Local Open Scope float_scope.

Lemma period_return_nonempty (close : list float) :
  close <> [] ->
  Binary64.period_return close
    = Ok (Binary64.percent_change (hd nan close) (last close nan)).
Proof.
  destruct close as [|x rest]; [congruence|]. intros _. reflexivity.
Qed.

(** C9: on two series with at least one close each, the summary computes
    each return as [(latest - first) / first * 100] in binary64, names the
    asset whose computed return is strictly higher, names JEPI when the two
    computed returns are equal, and reports the absolute difference of the
    two computed returns. *)
Theorem print_comparison_summary_outperformer :
  forall (voo_data jepi_data : DataFrameOf float) (voo_close jepi_close : list float),
    Binary64.get_column_values voo_data "Close" = Ok voo_close ->
    Binary64.get_column_values jepi_data "Close" = Ok jepi_close ->
    voo_close <> [] ->
    jepi_close <> [] ->
    exists r,
      Binary64.print_comparison_summary voo_data jepi_data = Ok r /\
      Binary64.voo_return r
        = Binary64.percent_change (hd nan voo_close) (last voo_close nan) /\
      Binary64.jepi_return r
        = Binary64.percent_change (hd nan jepi_close) (last jepi_close nan) /\
      ((Binary64.jepi_return r <? Binary64.voo_return r) = true ->
       Binary64.outperformer r = VOO) /\
      ((Binary64.voo_return r <? Binary64.jepi_return r) = true ->
       Binary64.outperformer r = JEPI) /\
      ((Binary64.voo_return r =? Binary64.jepi_return r) = true ->
       Binary64.outperformer r = JEPI) /\
      Binary64.same (Binary64.differential r)
                    (abs (Binary64.voo_return r - Binary64.jepi_return r)).
Proof.
  intros voo_data jepi_data voo_close jepi_close Hv Hj Hvne Hjne.
  unfold Binary64.print_comparison_summary. rewrite Hv, Hj. cbn [bind].
  rewrite (period_return_nonempty voo_close Hvne). cbn [bind].
  rewrite (period_return_nonempty jepi_close Hjne). cbn [bind].
  set (v := Binary64.percent_change (hd nan voo_close) (last voo_close nan)).
  set (j := Binary64.percent_change (hd nan jepi_close) (last jepi_close nan)).
  pose proof (differential_absolute v j) as Hd.
  destruct (j <? v) eqn:E; eexists; (split; [reflexivity|]);
    cbn [Binary64.voo_return Binary64.jepi_return Binary64.outperformer
         Binary64.differential];
    (split; [reflexivity|]); (split; [reflexivity|]).
  - split; [reflexivity|]. split; [|split; [|exact Hd]].
    + intros H. apply ltb_asymmetric in H. congruence.
    + intros H. apply eqb_not_ltb in H. destruct H as [_ H]. congruence.
  - split; [|split; [reflexivity|split; [reflexivity|exact Hd]]].
    intros H. congruence.
Qed.

(** The scenario of the specification: returns of 5% and 3%. *)
Lemma print_comparison_summary_outperformer_witness :
  exists r,
    Binary64.print_comparison_summary (Binary64.close_frame [100; 105])
                                      (Binary64.close_frame [100; 103]) = Ok r /\
    Binary64.voo_return r = Binary64.percent_change 100 105 /\
    Binary64.jepi_return r = Binary64.percent_change 100 103 /\
    ((Binary64.jepi_return r <? Binary64.voo_return r) = true ->
     Binary64.outperformer r = VOO) /\
    ((Binary64.voo_return r <? Binary64.jepi_return r) = true ->
     Binary64.outperformer r = JEPI) /\
    ((Binary64.voo_return r =? Binary64.jepi_return r) = true ->
     Binary64.outperformer r = JEPI) /\
    Binary64.same (Binary64.differential r)
                  (abs (Binary64.voo_return r - Binary64.jepi_return r)).
Proof.
  apply (print_comparison_summary_outperformer
           (Binary64.close_frame [100; 105]) (Binary64.close_frame [100; 103])
           [100; 105] [100; 103]).
  - reflexivity.
  - reflexivity.
  - discriminate.
  - discriminate.
Defined.

End ComparisonSummary.

(** * Further properties of the indicators *)

Local Open Scope Q_scope.

Lemma Forall2_by_nth {A B : Type} (R : A -> B -> Prop) (d1 : A) (d2 : B)
    (l1 : list A) (l2 : list B) :
  length l1 = length l2 ->
  (forall i, (i < length l1)%nat -> R (nth i l1 d1) (nth i l2 d2)) ->
  Forall2 R l1 l2.
Proof.
  revert l2; induction l1 as [|x l1 IH]; intros [|y l2] Hlen H; simpl in *;
    try discriminate; constructor.
  - apply (H 0%nat). lia.
  - apply IH; [lia|]. intros i Hi. apply (H (S i)). lia.
Qed.

Lemma inject_Z_S (n : nat) : inject_Z (Z.of_nat (S n)) == inject_Z (Z.of_nat n) + 1.
Proof.
  rewrite Nat2Z.inj_succ. unfold Z.succ. rewrite inject_Z_plus. reflexivity.
Qed.

Lemma inject_Z_length_nonneg {A : Type} (xs : list A) : 0 <= inject_Z (Z.of_nat (length xs)).
Proof. unfold Qle, inject_Z. cbn [Qnum Qden]. lia. Qed.

Lemma Qmult_le_nonneg_l (z x y : Q) : 0 <= z -> x <= y -> z * x <= z * y.
Proof.
  intros Hz Hxy. rewrite !(Qmult_comm z). apply Qmult_le_compat_r; assumption.
Qed.

Lemma Qsum_bounds (lo hi : Q) (qs : list Q) :
  Forall (fun q => lo <= q <= hi) qs ->
  inject_Z (Z.of_nat (length qs)) * lo <= Qsum qs <= inject_Z (Z.of_nat (length qs)) * hi.
Proof.
  induction 1 as [|q qs Hq _ IH].
  - cbn [length Qsum fold_right]. change (inject_Z (Z.of_nat 0)) with 0. lra.
  - cbn [length Qsum fold_right]. fold (Qsum qs). rewrite inject_Z_S. lra.
Qed.

(** The mean of a non-empty window lies between its bounds. *)
Lemma Qmean_bounds (lo hi : Q) (qs : list Q) :
  qs <> [] ->
  Forall (fun q => lo <= q <= hi) qs ->
  lo <= Qmean qs <= hi.
Proof.
  intros Hne H. pose proof (Qsum_bounds lo hi qs H) as [Hl Hh].
  assert (Hn : 0 < inject_Z (Z.of_nat (length qs))).
  { destruct qs as [|q qs]; [congruence|].
    cbn [length]. rewrite inject_Z_S. pose proof (inject_Z_length_nonneg qs). lra. }
  unfold Qmean. split.
  - apply Qle_shift_div_l; [exact Hn | lra].
  - apply Qle_shift_div_r; [exact Hn | lra].
Qed.

Lemma observed_within (lo hi : Q) (ws : list cell) (qs : list Q) :
  observed ws = Some qs ->
  Forall (cell_within lo hi) ws ->
  Forall (fun q => lo <= q <= hi) qs.
Proof.
  revert qs; induction ws as [|[x|] ws IH]; simpl; intros qs Ho Hw.
  - inversion Ho. constructor.
  - destruct (observed ws) as [qs'|]; [|discriminate].
    inversion Ho; subst. inversion Hw; subst. constructor; auto.
  - discriminate.
Qed.

Lemma rolling_mean_within (lo hi : Q) (w : nat) (xs : list cell) :
  Forall (cell_within lo hi) xs ->
  Forall (cell_within lo hi) (rolling (fun qs => Some (Qmean qs)) w xs).
Proof.
  intros H. unfold rolling. apply Forall_forall. intros c Hc.
  apply in_map_iff in Hc. destruct Hc as [i [Hi Hin]]. subst c.
  apply in_seq in Hin. unfold rolling_at.
  destruct (1 <=? w)%nat eqn:E1; [|exact I].
  destruct (w <=? S i)%nat eqn:E2; [|exact I].
  apply Nat.leb_le in E1, E2. simpl.
  destruct (observed (window_values w i xs)) as [qs|] eqn:Eo; [|exact I].
  simpl. apply Qmean_bounds.
  - apply observed_length in Eo.
    rewrite window_values_length in Eo by lia.
    destruct qs; [simpl in Eo; lia | discriminate].
  - apply (observed_within lo hi _ _ Eo). apply Forall_window. exact H.
Qed.

Lemma span_alpha_range (w : nat) : (1 <= w)%nat -> 0 < span_alpha w <= 1.
Proof.
  intros Hw. unfold span_alpha.
  assert (Hn : 1 <= inject_Z (Z.of_nat w)).
  { unfold Qle, inject_Z. cbn [Qnum Qden]. lia. }
  split.
  - apply Qlt_shift_div_l; lra.
  - apply Qle_shift_div_r; lra.
Qed.

(** A weighted average of two numbers of [[lo, hi]] stays there. *)
Lemma weighted_average_within (lo hi ow alpha x c : Q) :
  0 <= ow -> 0 < alpha ->
  lo <= x <= hi -> lo <= c <= hi ->
  lo <= (ow * x + alpha * c) / (ow + alpha) <= hi.
Proof.
  intros How Ha [Hx1 Hx2] [Hc1 Hc2].
  assert (H1 : ow * lo <= ow * x) by (apply Qmult_le_nonneg_l; assumption).
  assert (H2 : ow * x <= ow * hi) by (apply Qmult_le_nonneg_l; assumption).
  assert (H3 : alpha * lo <= alpha * c) by (apply Qmult_le_nonneg_l; lra).
  assert (H4 : alpha * c <= alpha * hi) by (apply Qmult_le_nonneg_l; lra).
  split.
  - apply Qle_shift_div_l; lra.
  - apply Qle_shift_div_r; lra.
Qed.

Lemma ewm_step_within (lo hi alpha : Q) (st : cell * Q) (cur : cell) :
  0 < alpha <= 1 ->
  cell_within lo hi (fst st) -> 0 <= snd st <= 1 ->
  cell_within lo hi cur ->
  cell_within lo hi (fst (ewm_step alpha st cur)) /\
  0 <= snd (ewm_step alpha st cur) <= 1.
Proof.
  intros [Ha1 Ha2] Hst [How1 How2] Hcur. destruct st as [[wv|] ow];
    cbn [fst snd ewm_step] in *.
  - assert (How' : 0 <= ow * (1 - alpha)) by (apply Qmult_le_0_compat; lra).
    assert (How'' : ow * (1 - alpha) <= 1 - alpha).
    { assert (H : (1 - alpha) * ow <= (1 - alpha) * 1)
        by (apply Qmult_le_nonneg_l; lra).
      lra. }
    destruct cur as [c|]; cbn [fst snd cell_within] in *.
    + split; [|lra].
      destruct (Qeq_bool alpha (1 # 2));
        apply weighted_average_within; try assumption; lra.
    + split; [assumption | lra].
  - split; [assumption | lra].
Qed.

Lemma ewm_from_within (lo hi alpha : Q) (xs : list cell) (st : cell * Q) :
  0 < alpha <= 1 ->
  cell_within lo hi (fst st) -> 0 <= snd st <= 1 ->
  Forall (cell_within lo hi) xs ->
  Forall (cell_within lo hi) (ewm_from alpha st xs).
Proof.
  intros Ha. revert st; induction xs as [|x xs IH]; intros st Hst How Hxs; simpl.
  - constructor.
  - inversion Hxs as [|? ? Hx Hrest]; subst.
    destruct (ewm_step_within lo hi alpha st x Ha Hst How Hx) as [Hv Hw].
    constructor; [exact Hv|]. apply IH; assumption.
Qed.

Lemma ewm_values_within (lo hi alpha : Q) (xs : list cell) :
  0 < alpha <= 1 ->
  Forall (cell_within lo hi) xs ->
  Forall (cell_within lo hi) (ewm_values alpha xs).
Proof.
  intros Ha Hxs. destruct xs as [|x xs]; simpl; [constructor|].
  inversion Hxs as [|? ? Hx Hrest]; subst. constructor; [exact Hx|].
  apply ewm_from_within; simpl; try assumption. lra.
Qed.

(** X1: when every close is NaN or a number between [lo] and [hi], so is
    every point of the exponential average, for any span [w >= 1] and
    through gaps. *)
Theorem calculate_ema_within_bounds :
  forall (data : DataFrame) (close : Series cell) (w : nat) (lo hi : Q),
    close_column data = Ok close ->
    (1 <= w)%nat ->
    Forall (cell_within lo hi) (s_values close) ->
    exists ema,
      calculate_ema data w = Ok ema /\
      Forall (cell_within lo hi) (s_values ema).
Proof.
  intros data close w lo hi Hclose Hw Hin.
  unfold calculate_ema. rewrite Hclose. simpl.
  rewrite ewm_mean_ok by exact Hw.
  eexists. split; [reflexivity|]. simpl.
  apply ewm_values_within; [apply span_alpha_range; exact Hw | exact Hin].
Qed.

(** X2: when every close is NaN or a number between [lo] and [hi], so is
    every point of the simple moving average, for any window. *)
Theorem calculate_sma_within_bounds :
  forall (data : DataFrame) (close : Series cell) (w : nat) (lo hi : Q),
    close_column data = Ok close ->
    Forall (cell_within lo hi) (s_values close) ->
    exists sma,
      calculate_sma data w = Ok sma /\
      Forall (cell_within lo hi) (s_values sma).
Proof.
  intros data close w lo hi Hclose Hin.
  unfold calculate_sma. rewrite Hclose. simpl.
  eexists. split; [reflexivity|]. simpl.
  apply rolling_mean_within. exact Hin.
Qed.

(** Discharges [Forall (cell_within lo hi)] on a list given in full. *)
Ltac within_bounds :=
  repeat (apply Forall_cons; [simpl; first [exact I | split; lra] |]);
  apply Forall_nil.

Lemma calculate_ema_within_bounds_witness :
  exists ema,
    calculate_ema (close_frame [Some 1; None; Some 3; Some 2]) 3 = Ok ema /\
    Forall (cell_within 1 3) (s_values ema).
Proof.
  apply (calculate_ema_within_bounds (close_frame [Some 1; None; Some 3; Some 2])
           (close_of_frame [Some 1; None; Some 3; Some 2]) 3 1 3).
  - reflexivity.
  - lia.
  - within_bounds.
Defined.

Lemma calculate_sma_within_bounds_witness :
  exists sma,
    calculate_sma (close_frame [Some 1; None; Some 3; Some 2]) 2 = Ok sma /\
    Forall (cell_within 1 3) (s_values sma).
Proof.
  apply (calculate_sma_within_bounds (close_frame [Some 1; None; Some 3; Some 2])
           (close_of_frame [Some 1; None; Some 3; Some 2]) 2 1 3).
  - reflexivity.
  - within_bounds.
Defined.

Lemma within_point (c : Q) (v : cell) (x : Q) :
  cell_within c c v -> v = Some x -> x == c.
Proof. intros H E. subst v. simpl in H. lra. Qed.

Lemma constant_within (c : Q) (n : nat) : Forall (cell_within c c) (repeat (Some c) n).
Proof.
  induction n as [|n IH]; simpl; constructor; [simpl; lra | exact IH].
Qed.

(** X3: on a series whose closes all equal [c], every defined point of
    the simple and of the exponential moving average equals [c]. *)
Theorem moving_averages_of_constant :
  forall (data : DataFrame) (close : Series cell) (c : Q) (w : nat),
    close_column data = Ok close ->
    s_values close = repeat (Some c) (length (s_values close)) ->
    (1 <= w)%nat ->
    exists sma ema,
      calculate_sma data w = Ok sma /\
      calculate_ema data w = Ok ema /\
      (forall i x, nth_error (s_values sma) i = Some (Some x) -> x == c) /\
      (forall i x, nth_error (s_values ema) i = Some (Some x) -> x == c).
Proof.
  intros data close c w Hclose Hconst Hw.
  assert (Hin : Forall (cell_within c c) (s_values close))
    by (rewrite Hconst; apply constant_within).
  unfold calculate_sma, calculate_ema. rewrite Hclose. simpl.
  rewrite ewm_mean_ok by exact Hw.
  eexists. eexists. split; [reflexivity|]. split; [reflexivity|]. simpl.
  pose proof (rolling_mean_within c c w _ Hin) as Hs.
  pose proof (ewm_values_within c c (span_alpha w) _ (span_alpha_range w Hw) Hin) as He.
  rewrite Forall_forall in Hs, He.
  split; intros i x Hx; pose proof (nth_error_In _ _ Hx) as Hm.
  - exact (within_point c _ x (Hs _ Hm) eq_refl).
  - exact (within_point c _ x (He _ Hm) eq_refl).
Qed.

Lemma moving_averages_of_constant_witness :
  exists sma ema,
    calculate_sma (close_frame [Some 7; Some 7; Some 7]) 2 = Ok sma /\
    calculate_ema (close_frame [Some 7; Some 7; Some 7]) 2 = Ok ema /\
    (forall i x, nth_error (s_values sma) i = Some (Some x) -> x == 7) /\
    (forall i x, nth_error (s_values ema) i = Some (Some x) -> x == 7).
Proof.
  apply (moving_averages_of_constant (close_frame [Some 7; Some 7; Some 7])
           (close_of_frame [Some 7; Some 7; Some 7]) 7 2).
  - reflexivity.
  - reflexivity.
  - lia.
Defined.

Lemma rolling_nonneg (f : list Q -> cell) (w : nat) (xs : list cell) :
  (forall qs, nonneg_cell (f qs)) ->
  Forall nonneg_cell (rolling f w xs).
Proof.
  intros Hf. unfold rolling. apply Forall_forall. intros c Hc.
  apply in_map_iff in Hc. destruct Hc as [i [Hi _]]. subst c.
  unfold rolling_at.
  destruct ((1 <=? w)%nat && (w <=? S i)%nat); [|exact I].
  destruct (observed (window_values w i xs)); [apply Hf | exact I].
Qed.

(** X4: with a square root that is never negative and [num_std >= 0], the
    bands are ordered wherever the three are defined:
    lower <= middle <= upper. *)
Theorem bollinger_bands_ordered :
  forall (Qsqrt : Q -> Q) (data : DataFrame) (close : Series cell) (w : nat) (num_std : Q),
    (forall q, 0 <= Qsqrt q) ->
    0 <= num_std ->
    close_column data = Ok close ->
    exists upper middle lower,
      calculate_bollinger_bands Qsqrt data w num_std = Ok (upper, middle, lower) /\
      forall i u m l,
        nth_error (s_values upper) i = Some (Some u) ->
        nth_error (s_values middle) i = Some (Some m) ->
        nth_error (s_values lower) i = Some (Some l) ->
        l <= m <= u.
Proof.
  intros Qsqrt data close w num_std Hsqrt Hk Hclose.
  unfold calculate_bollinger_bands, calculate_sma.
  rewrite Hclose. simpl.
  eexists _, _, _. split; [reflexivity|].
  intros i u m l Hu Hm Hl. simpl in Hu, Hl.
  apply zip_nth_error in Hu. destruct Hu as [mu [su [Hmu [Hsu Hu]]]].
  apply zip_nth_error in Hl. destruct Hl as [ml [sl [Hml [Hsl Hl]]]].
  simpl in Hm. rewrite Hm in Hmu, Hml.
  inversion Hmu; subst mu. inversion Hml; subst ml.
  rewrite Hsu in Hsl. inversion Hsl; subst sl.
  rewrite nth_error_map in Hsu.
  destruct (nth_error (rolling (Qstd Qsqrt) w (s_values close)) i) as [sd|] eqn:Esd;
    [|discriminate].
  simpl in Hsu. inversion Hsu; subst su.
  assert (Hsd : nonneg_cell sd).
  { pose proof (rolling_nonneg (Qstd Qsqrt) w (s_values close)) as Hn.
    rewrite Forall_forall in Hn. apply Hn.
    - intros qs. unfold Qstd. destruct (Qvar qs); simpl; [apply Hsqrt | exact I].
    - eapply nth_error_In. exact Esd. }
  destruct sd as [s|]; simpl in Hu, Hl, Hsd; [|discriminate].
  inversion Hu; subst u. inversion Hl; subst l.
  assert (Hp : 0 <= s * num_std) by (apply Qmult_le_0_compat; assumption).
  lra.
Qed.

Lemma bollinger_bands_ordered_witness :
  exists upper middle lower,
    calculate_bollinger_bands Qsqrt_floor
      (close_frame [Some 1; Some 5; Some 9; Some 4]) 2 2 = Ok (upper, middle, lower) /\
    forall i u m l,
      nth_error (s_values upper) i = Some (Some u) ->
      nth_error (s_values middle) i = Some (Some m) ->
      nth_error (s_values lower) i = Some (Some l) ->
      l <= m <= u.
Proof.
  apply (bollinger_bands_ordered Qsqrt_floor
           (close_frame [Some 1; Some 5; Some 9; Some 4])
           (close_of_frame [Some 1; Some 5; Some 9; Some 4]) 2 2).
  - intros q. unfold Qsqrt_floor, Qle, inject_Z. cbn [Qnum Qden].
    pose proof (Z.sqrt_nonneg (Qfloor q)). lia.
  - lra.
  - reflexivity.
Defined.

Lemma difference_within_zero (c : Q) (xs ys : list cell) :
  Forall (cell_within c c) xs ->
  Forall (cell_within c c) ys ->
  Forall (cell_within 0 0) (map (fun p => cell_sub (fst p) (snd p)) (combine xs ys)).
Proof.
  intros Hx Hy. rewrite Forall_forall in Hx, Hy.
  apply zip_all. intros x y Hinx Hiny.
  specialize (Hx x Hinx). specialize (Hy y Hiny).
  destruct x as [x|], y as [y|]; simpl in *; try exact I. lra.
Qed.

(** X5: on a series whose closes all equal [c], the MACD line, its signal
    line and the histogram are zero wherever they are defined. *)
Theorem calculate_macd_of_constant :
  forall (data : DataFrame) (close : Series cell) (c : Q) (fast slow signal : nat),
    close_column data = Ok close ->
    s_values close = repeat (Some c) (length (s_values close)) ->
    (1 <= fast)%nat -> (1 <= slow)%nat -> (1 <= signal)%nat ->
    exists macd_line signal_line histogram,
      calculate_macd data fast slow signal = Ok (macd_line, signal_line, histogram) /\
      (forall i x, nth_error (s_values macd_line) i = Some (Some x) -> x == 0) /\
      (forall i x, nth_error (s_values signal_line) i = Some (Some x) -> x == 0) /\
      (forall i x, nth_error (s_values histogram) i = Some (Some x) -> x == 0).
Proof.
  intros data close c fast slow signal Hclose Hconst Hf Hs Hg.
  assert (Hin : Forall (cell_within c c) (s_values close))
    by (rewrite Hconst; apply constant_within).
  unfold calculate_macd. rewrite Hclose. simpl.
  rewrite (ewm_mean_ok fast) by exact Hf. simpl.
  rewrite (ewm_mean_ok slow) by exact Hs. simpl.
  rewrite (ewm_mean_ok signal) by exact Hg. simpl.
  eexists _, _, _. split; [reflexivity|]. simpl.
  pose proof (ewm_values_within c c _ _ (span_alpha_range fast Hf) Hin) as Hef.
  pose proof (ewm_values_within c c _ _ (span_alpha_range slow Hs) Hin) as Hes.
  pose proof (difference_within_zero c _ _ Hef Hes) as Hm.
  pose proof (ewm_values_within 0 0 _ _ (span_alpha_range signal Hg) Hm) as Hsig.
  pose proof (difference_within_zero 0 _ _ Hm Hsig) as Hh.
  rewrite Forall_forall in Hm, Hsig, Hh.
  repeat split; intros i x Hx; pose proof (nth_error_In _ _ Hx) as Hmem.
  - exact (within_point 0 _ x (Hm _ Hmem) eq_refl).
  - exact (within_point 0 _ x (Hsig _ Hmem) eq_refl).
  - exact (within_point 0 _ x (Hh _ Hmem) eq_refl).
Qed.

Lemma calculate_macd_of_constant_witness :
  exists macd_line signal_line histogram,
    calculate_macd (close_frame [Some 7; Some 7; Some 7]) 12 26 9
      = Ok (macd_line, signal_line, histogram) /\
    (forall i x, nth_error (s_values macd_line) i = Some (Some x) -> x == 0) /\
    (forall i x, nth_error (s_values signal_line) i = Some (Some x) -> x == 0) /\
    (forall i x, nth_error (s_values histogram) i = Some (Some x) -> x == 0).
Proof.
  apply (calculate_macd_of_constant (close_frame [Some 7; Some 7; Some 7])
           (close_of_frame [Some 7; Some 7; Some 7]) 7 12 26 9).
  - reflexivity.
  - reflexivity.
  - lia.
  - lia.
  - lia.
Defined.

Lemma select_absent (key : string) (labels : list string) (cols : list (list cell)) :
  ~ In key labels -> select key labels cols = [].
Proof.
  unfold select. revert cols; induction labels as [|l labels IH]; intros cols Hin.
  - reflexivity.
  - destruct cols as [|col cols]; [reflexivity|]. simpl.
    destruct (String.eqb l key) eqn:E.
    + apply String.eqb_eq in E. exfalso. apply Hin. left. exact E.
    + apply IH. intros H. apply Hin. right. exact H.
Qed.

Lemma column_series_absent (data : DataFrame) (key : string) :
  ~ In key (outer_labels (df_columns data)) ->
  column_series data key = Raise (KeyError key).
Proof.
  intros H. unfold column_series, getitem.
  rewrite select_absent by exact H. reflexivity.
Qed.

(** X6: on a table none of whose (outer) labels is [Close], each of the
    five indicators raises [KeyError('Close')], whatever its windows. *)
Theorem indicators_without_close :
  forall (Qsqrt : Q -> Q) (data : DataFrame) (w : nat) (num_std : Q)
         (fast slow signal : nat),
    ~ In "Close"%string (outer_labels (df_columns data)) ->
    calculate_sma data w = Raise (KeyError "Close") /\
    calculate_ema data w = Raise (KeyError "Close") /\
    calculate_bollinger_bands Qsqrt data w num_std = Raise (KeyError "Close") /\
    calculate_rsi data w = Raise (KeyError "Close") /\
    calculate_macd data fast slow signal = Raise (KeyError "Close").
Proof.
  intros Qsqrt data w num_std fast slow signal H.
  pose proof (column_series_absent data "Close" H) as Hc.
  unfold calculate_bollinger_bands, calculate_sma, calculate_ema, calculate_rsi,
    calculate_macd, close_column.
  rewrite Hc. repeat split.
Qed.

Lemma indicators_without_close_witness :
  calculate_sma (mkDataFrame [0%Z] (Index ["close"%string]) [[Some 1]]) 3
    = Raise (KeyError "Close") /\
  calculate_ema (mkDataFrame [0%Z] (Index ["close"%string]) [[Some 1]]) 3
    = Raise (KeyError "Close") /\
  calculate_bollinger_bands Qsqrt_floor
    (mkDataFrame [0%Z] (Index ["close"%string]) [[Some 1]]) 3 2
    = Raise (KeyError "Close") /\
  calculate_rsi (mkDataFrame [0%Z] (Index ["close"%string]) [[Some 1]]) 3
    = Raise (KeyError "Close") /\
  calculate_macd (mkDataFrame [0%Z] (Index ["close"%string]) [[Some 1]]) 12 26 9
    = Raise (KeyError "Close").
Proof.
  apply (indicators_without_close Qsqrt_floor
           (mkDataFrame [0%Z] (Index ["close"%string]) [[Some 1]]) 3 2 12 26 9).
  simpl. intros [H|[]]. discriminate H.
Defined.

Lemma rolling_zero_window (f : list Q -> cell) (xs : list cell) :
  all_undefined (rolling f 0 xs).
Proof.
  unfold all_undefined, rolling. apply Forall_forall. intros c Hc.
  apply in_map_iff in Hc. destruct Hc as [i [Hi _]]. subst c. reflexivity.
Qed.

(** X7: with a window of 0, [calculate_sma] still returns a series on the
    timestamps of the data, entirely undefined, whereas [calculate_ema]
    raises [ValueError], and so does [calculate_macd] as soon as one of its
    three spans is 0. *)
Theorem indicators_window_zero :
  forall (data : DataFrame) (close : Series cell) (fast slow signal : nat),
    close_column data = Ok close ->
    sma_short_history data close 0 /\
    calculate_ema data 0 = Raise (ValueError "span must satisfy: span >= 1") /\
    (fast = 0%nat \/ slow = 0%nat \/ signal = 0%nat ->
     calculate_macd data fast slow signal
       = Raise (ValueError "span must satisfy: span >= 1")).
Proof.
  intros data close fast slow signal Hclose. split; [|split].
  - exists (rolling_mean 0 close).
    unfold calculate_sma. rewrite Hclose. split; [reflexivity|].
    split; [split|]; simpl.
    + apply (column_series_index data "Close"). exact Hclose.
    + apply rolling_length.
    + apply rolling_zero_window.
  - unfold calculate_ema. rewrite Hclose. reflexivity.
  - intros H. unfold calculate_macd. rewrite Hclose. simpl.
    destruct fast as [|fast]; [reflexivity|]. simpl.
    destruct slow as [|slow]; [reflexivity|]. simpl.
    destruct signal as [|signal]; [reflexivity|].
    exfalso. destruct H as [H|[H|H]]; discriminate H.
Qed.

Lemma indicators_window_zero_witness :
  sma_short_history (close_frame [Some 1; Some 2]) (close_of_frame [Some 1; Some 2]) 0 /\
  calculate_ema (close_frame [Some 1; Some 2]) 0
    = Raise (ValueError "span must satisfy: span >= 1") /\
  (12%nat = 0%nat \/ 0%nat = 0%nat \/ 9%nat = 0%nat ->
   calculate_macd (close_frame [Some 1; Some 2]) 12 0 9
     = Raise (ValueError "span must satisfy: span >= 1")).
Proof.
  apply (indicators_window_zero (close_frame [Some 1; Some 2])
           (close_of_frame [Some 1; Some 2]) 12 0 9).
  reflexivity.
Defined.

Lemma Qmean_singleton (q : Q) : Qmean [q] == q.
Proof. unfold Qmean. simpl. field. Qed.

(** X8: with a window of 1 the simple moving average is the close series
    itself, missing values included. *)
Theorem calculate_sma_window_one :
  forall (data : DataFrame) (close : Series cell),
    close_column data = Ok close ->
    exists sma,
      calculate_sma data 1 = Ok sma /\
      s_index sma = df_index data /\
      Forall2 cell_eq (s_values sma) (s_values close).
Proof.
  intros data close Hclose.
  unfold calculate_sma. rewrite Hclose. simpl.
  eexists. split; [reflexivity|]. split.
  - simpl. apply (column_series_index data "Close"). exact Hclose.
  - simpl. apply (Forall2_by_nth cell_eq None None).
    + apply rolling_length.
    + intros i Hi. rewrite rolling_length in Hi.
      rewrite rolling_nth by exact Hi. unfold rolling_at.
      replace (1 <=? S i)%nat with true by (symmetry; apply Nat.leb_le; lia).
      simpl andb. cbv iota.
      rewrite (window_values_nth 1 i (s_values close) None) by lia.
      replace (S i - 1)%nat with i by lia. simpl.
      destruct (nth i (s_values close) None) as [q|]; simpl; [|exact I].
      apply Qmean_singleton.
Qed.

Lemma calculate_sma_window_one_witness :
  exists sma,
    calculate_sma (close_frame [Some 4; None; Some 6]) 1 = Ok sma /\
    s_index sma = df_index (close_frame [Some 4; None; Some 6]) /\
    Forall2 cell_eq (s_values sma) (s_values (close_of_frame [Some 4; None; Some 6])).
Proof.
  apply (calculate_sma_window_one (close_frame [Some 4; None; Some 6])
           (close_of_frame [Some 4; None; Some 6])).
  reflexivity.
Defined.

Lemma observed_defined (ws : list cell) :
  defined (match observed ws with Some qs => Some (Qmean qs) | None => None end) = true
  <-> Forall (fun c => defined c = true) ws.
Proof.
  induction ws as [|[x|] ws IH]; simpl.
  - split; [constructor | reflexivity].
  - destruct (observed ws) as [qs|]; simpl in *.
    + split; [intros _; constructor; [reflexivity | apply IH; reflexivity] | reflexivity].
    + split; [discriminate|]. intros H. inversion H; subst. apply IH. assumption.
  - split; [discriminate|]. intros H. inversion H; subst. discriminate.
Qed.

(** X9: on any close series, missing values included, the point [i] of the
    simple moving average is defined exactly when the window is at least 1,
    fits in the [i+1] values seen so far, and holds no missing close. *)
Theorem calculate_sma_defined_exactly :
  forall (data : DataFrame) (close : Series cell) (w : nat),
    close_column data = Ok close ->
    exists sma,
      calculate_sma data w = Ok sma /\
      forall i, (i < length (s_values close))%nat ->
        (defined (nth i (s_values sma) None) = true <->
         (1 <= w)%nat /\ (w <= S i)%nat /\
         forall j, (S i - w <= j)%nat -> (j <= i)%nat ->
           defined (nth j (s_values close) None) = true).
Proof.
  intros data close w Hclose.
  unfold calculate_sma. rewrite Hclose. cbn [bind].
  eexists. split; [reflexivity|]. unfold rolling_mean. cbn [s_values].
  intros i Hi. rewrite rolling_nth by exact Hi. unfold rolling_at.
  destruct (1 <=? w)%nat eqn:E1; simpl andb; cbv iota.
  2:{ apply Nat.leb_gt in E1. split; [discriminate | intros [H _]; lia]. }
  destruct (w <=? S i)%nat eqn:E2; cbv iota.
  2:{ apply Nat.leb_gt in E2. split; [discriminate | intros [_ [H _]]; lia]. }
  apply Nat.leb_le in E1, E2.
  rewrite observed_defined.
  rewrite (window_values_nth w i (s_values close) None) by assumption.
  rewrite Forall_forall. split.
  - intros H. repeat split; try assumption. intros j Hj1 Hj2.
    apply H. apply in_map_iff. exists j. split; [reflexivity|].
    apply in_seq. lia.
  - intros [_ [_ H]] c Hc. apply in_map_iff in Hc.
    destruct Hc as [j [Hj Hin]]. subst c. apply in_seq in Hin. apply H; lia.
Qed.

Lemma calculate_sma_defined_exactly_witness :
  exists sma,
    calculate_sma (close_frame [Some 4; None; Some 6; Some 8]) 2 = Ok sma /\
    forall i, (i < length (s_values (close_of_frame [Some 4%Q; None; Some 6%Q; Some 8%Q])))%nat ->
      (defined (nth i (s_values sma) None) = true <->
       (1 <= 2)%nat /\ (2 <= S i)%nat /\
       forall j, (S i - 2 <= j)%nat -> (j <= i)%nat ->
         defined (nth j (s_values (close_of_frame [Some 4; None; Some 6; Some 8])) None) = true).
Proof.
  apply (calculate_sma_defined_exactly (close_frame [Some 4; None; Some 6; Some 8])
           (close_of_frame [Some 4; None; Some 6; Some 8]) 2).
  reflexivity.
Defined.

Lemma rsi_of_closed_form (g l : Q) :
  0 <= g -> 0 < l ->
  exists q, rsi_of (Some g) (Some l) = Fin q /\ q == 100 * g / (g + l).
Proof.
  intros Hg Hl. unfold rsi_of. simpl.
  destruct (Qeq_bool l 0) eqn:El.
  { apply Qeq_bool_iff in El. lra. }
  assert (Hrs : 0 <= g / l).
  { apply Qle_shift_div_l; [exact Hl | lra]. }
  simpl.
  destruct (Qeq_bool (1 + g / l) 0) eqn:E1.
  { apply Qeq_bool_iff in E1. lra. }
  simpl. eexists. split; [reflexivity|].
  field. repeat split; lra.
Qed.

(** X10: at a point where the average loss is positive, [calculate_rsi]
    equals [100 * gain / (gain + loss)], the averages being those of the
    trailing window. *)
Theorem calculate_rsi_closed_form :
  forall (data : DataFrame) (close : Series cell) (w i : nat) (g l : Q),
    close_column data = Ok close ->
    nth_error (s_values (rsi_gain close w)) i = Some (Some g) ->
    nth_error (s_values (rsi_loss close w)) i = Some (Some l) ->
    0 < l ->
    exists rsi q,
      calculate_rsi data w = Ok rsi /\
      nth_error (s_values rsi) i = Some (Fin q) /\
      q == 100 * g / (g + l).
Proof.
  intros data close w i g l Hclose Hg Hl Hpos.
  pose proof (rsi_gain_nonneg close w) as Gn.
  rewrite Forall_forall in Gn.
  specialize (Gn _ (nth_error_In _ _ Hg)). simpl in Gn.
  destruct (rsi_of_closed_form g l Gn Hpos) as [q [Hq Hform]].
  eexists. exists q. split; [apply calculate_rsi_ok; exact Hclose|].
  split; [|exact Hform].
  unfold series_zip. cbn [s_values].
  rewrite (zip_nth_error_intro rsi_of _ _ i _ _ Hg Hl). rewrite Hq. reflexivity.
Qed.

Lemma calculate_rsi_closed_form_witness :
  exists rsi q,
    calculate_rsi (close_frame [Some 1; Some 2; Some 1; Some 3]) 2 = Ok rsi /\
    nth_error (s_values rsi) 3 = Some (Fin q) /\
    q == 100 * ((0 + (2 + 0)) / 2) / ((0 + (2 + 0)) / 2 + (- - 1 + (- 0 + 0)) / 2).
Proof.
  apply (calculate_rsi_closed_form (close_frame [Some 1; Some 2; Some 1; Some 3])
           (close_of_frame [Some 1; Some 2; Some 1; Some 3]) 2 3
           ((0 + (2 + 0)) / 2) ((- - 1 + (- 0 + 0)) / 2)).
  - reflexivity.
  - vm_compute. reflexivity.
  - vm_compute. reflexivity.
  - reflexivity.
Defined.

(** * Further properties of the normaliser and of fetching *)

Local Open Scope nat_scope.

(** A label is kept, or it is the first spelling of an absent required
    name and takes that name. *)
Lemma normalized_label_cases (base : list string) (l : string) :
  normalized_label base l = l \/
  exists c, normalized_label base l = c /\ In c expected_cols /\
            contains c base = false /\ first_match c base = Some l.
Proof.
  unfold normalized_label, normalized_label_among.
  destruct (required_for expected_cols l) as [c|] eqn:Er; [|left; reflexivity].
  destruct (contains c base) eqn:Ec; [left; reflexivity|].
  destruct (first_match c base) as [e|] eqn:Ef; [|left; reflexivity].
  destruct (String.eqb l e) eqn:El; [|left; reflexivity].
  apply String.eqb_eq in El. subst e.
  right. exists c. apply required_for_Some in Er. tauto.
Qed.

(** The labels the normaliser produces are left alone by a second pass. *)
Lemma normalized_labels_stable (base : list string) :
  map (normalized_label (map (normalized_label base) base)) (map (normalized_label base) base)
    = map (normalized_label base) base.
Proof.
  set (out := map (normalized_label base) base).
  rewrite <- (map_id out) at 3. apply map_ext_in. intros l Hl.
  destruct (normalized_label_cases out l) as [H|[c [_ [Hc [Hno Hfm]]]]]; [exact H|].
  exfalso.
  assert (Hin : In c out).
  { apply normalized_present; [exact Hc|].
    apply first_match_Some in Hfm. destruct Hfm as [_ Hlow].
    unfold out in Hl. apply in_map_iff in Hl. destruct Hl as [l0 [Hl0 Hin0]].
    exists l0. split; [exact Hin0|].
    rewrite <- Hlow, <- Hl0. symmetry. apply normalized_label_lower. }
  apply contains_In in Hin. congruence.
Qed.

Lemma fix_nonempty_result (d : DataFrame) :
  empty d = false ->
  fix_dataframe_columns (Some d)
    = Some (mkDataFrame (df_index d)
              (Index (map (normalized_label (outer_labels (df_columns d)))
                          (outer_labels (df_columns d))))
              (df_values d)).
Proof.
  intros H. unfold fix_dataframe_columns. rewrite H.
  destruct d as [idx [labels|labels] values];
    unfold set_columns; cbn [df_columns df_index df_values outer_labels];
    rewrite fix_columns_normalized; reflexivity.
Qed.

Lemma ncols_outer_labels (c : ColIndex) : length (outer_labels c) = ncols c.
Proof. destruct c; simpl; unfold get_level_values0; rewrite ?length_map; reflexivity. Qed.

(** X11: normalising twice is normalising once. *)
Theorem fix_dataframe_columns_idempotent :
  forall df : option DataFrame,
    match fix_dataframe_columns df with
    | Some d' => fix_dataframe_columns (Some d') = Some d'
    | None => df = None
    end.
Proof.
  intros [d|]; [|reflexivity].
  destruct (empty d) eqn:E.
  - unfold fix_dataframe_columns at 1. rewrite E.
    unfold fix_dataframe_columns. rewrite E. reflexivity.
  - rewrite (fix_nonempty_result d E).
    rewrite fix_nonempty_result.
    + cbn [df_index df_columns df_values outer_labels].
      rewrite normalized_labels_stable. reflexivity.
    + unfold empty in *. cbn [df_index df_columns ncols].
      rewrite length_map, ncols_outer_labels. exact E.
Qed.

Lemma NoDup_map_on {A B : Type} (f : A -> B) (xs : list A) :
  (forall x y, In x xs -> In y xs -> f x = f y -> x = y) ->
  NoDup xs -> NoDup (map f xs).
Proof.
  intros Hinj Hnd. induction Hnd as [|x xs Hx Hnd IH]; simpl; constructor.
  - intros Hin. apply in_map_iff in Hin. destruct Hin as [y [Hy Hiny]].
    assert (y = x) by (apply Hinj; simpl; auto).
    subst y. contradiction.
  - apply IH. intros a b Ha Hb. apply Hinj; simpl; auto.
Qed.

Lemma normalized_label_injective (base : list string) (x y : string) :
  In x base -> In y base ->
  normalized_label base x = normalized_label base y -> x = y.
Proof.
  intros Hx Hy E.
  destruct (normalized_label_cases base x) as [Ex|[c [Ex [_ [Hno Hfm]]]]];
    destruct (normalized_label_cases base y) as [Ey|[c' [Ey [_ [Hno' Hfm']]]]].
  - congruence.
  - exfalso. rewrite Ex, Ey in E. subst c'.
    assert (contains x base = true) by (apply contains_In; exact Hx). congruence.
  - exfalso. rewrite Ex, Ey in E. subst c.
    assert (contains y base = true) by (apply contains_In; exact Hy). congruence.
  - rewrite Ex, Ey in E. subst c'. congruence.
Qed.

(** X12: the normaliser never makes two columns share a name: labels that
    are pairwise distinct before are pairwise distinct after. *)
Theorem fix_dataframe_columns_keeps_distinct :
  forall d d' : DataFrame,
    fix_dataframe_columns (Some d) = Some d' ->
    NoDup (outer_labels (df_columns d)) ->
    NoDup (outer_labels (df_columns d')).
Proof.
  intros d d' Hfix Hnd.
  destruct (empty d) eqn:E.
  - unfold fix_dataframe_columns in Hfix. rewrite E in Hfix.
    inversion Hfix; subst d'. exact Hnd.
  - rewrite (fix_nonempty_result d E) in Hfix. inversion Hfix; subst d'.
    cbn [df_columns outer_labels].
    apply NoDup_map_on; [|exact Hnd].
    intros x y. apply normalized_label_injective.
Qed.

Lemma fix_dataframe_columns_keeps_distinct_witness :
  NoDup (outer_labels (df_columns
    (mkDataFrame [0%Z] (Index ["Close"; "CLOSE"; "Open"]) [[Some 1%Q]; [Some 2%Q]; [Some 3%Q]]))).
Proof.
  apply (fix_dataframe_columns_keeps_distinct
           (mkDataFrame [0%Z] (Index ["close"; "CLOSE"; "Open"])
              [[Some 1%Q]; [Some 2%Q]; [Some 3%Q]])).
  - reflexivity.
  - simpl. repeat constructor; simpl; intuition discriminate.
Defined.

(** X13: the normaliser changes letter case only: lower-cased, the labels
    (outer labels, for nested columns) are the same before and after, and a
    label that spells none of the five required names is kept as it is. *)
Theorem fix_dataframe_columns_case_only :
  forall d d' : DataFrame,
    fix_dataframe_columns (Some d) = Some d' ->
    map lower (outer_labels (df_columns d')) = map lower (outer_labels (df_columns d)) /\
    forall i l,
      nth_error (outer_labels (df_columns d)) i = Some l ->
      ~ In (lower l) (map lower expected_cols) ->
      nth_error (outer_labels (df_columns d')) i = Some l.
Proof.
  intros d d' Hfix.
  destruct (empty d) eqn:E.
  - unfold fix_dataframe_columns in Hfix. rewrite E in Hfix.
    inversion Hfix; subst d'. split; [reflexivity | auto].
  - rewrite (fix_nonempty_result d E) in Hfix. inversion Hfix; subst d'.
    cbn [df_columns outer_labels]. split.
    + rewrite map_map. apply map_ext. intros l.
      unfold normalized_label. apply normalized_label_lower.
    + intros i l Hl Hno. rewrite nth_error_map, Hl. simpl. f_equal.
      unfold normalized_label, normalized_label_among.
      rewrite required_for_None by exact Hno. reflexivity.
Qed.

Lemma fix_dataframe_columns_case_only_witness :
  map lower (outer_labels (df_columns
    (mkDataFrame [0%Z] (Index ["Close"; "Adj Close"]) [[Some 1%Q]; [Some 2%Q]])))
  = map lower (outer_labels (df_columns
    (mkDataFrame [0%Z] (MultiIndex [("close", "VOO"); ("Adj Close", "VOO")])
       [[Some 1%Q]; [Some 2%Q]]))) /\
  forall i l,
    nth_error (outer_labels (df_columns
      (mkDataFrame [0%Z] (MultiIndex [("close", "VOO"); ("Adj Close", "VOO")])
         [[Some 1%Q]; [Some 2%Q]]))) i = Some l ->
    ~ In (lower l) (map lower expected_cols) ->
    nth_error (outer_labels (df_columns
      (mkDataFrame [0%Z] (Index ["Close"; "Adj Close"]) [[Some 1%Q]; [Some 2%Q]]))) i = Some l.
Proof.
  apply (fix_dataframe_columns_case_only
           (mkDataFrame [0%Z] (MultiIndex [("close", "VOO"); ("Adj Close", "VOO")])
              [[Some 1%Q]; [Some 2%Q]])).
  reflexivity.
Defined.

Lemma select_present (key : string) (labels : list string) (cols : list (list cell)) :
  In key labels -> length labels <= length cols ->
  exists p col rest,
    select key labels cols = col :: rest /\
    nth_error labels p = Some key /\ nth_error cols p = Some col.
Proof.
  unfold select. revert cols; induction labels as [|l labels IH]; intros cols Hin Hlen.
  - contradiction.
  - destruct cols as [|col cols]; [simpl in Hlen; lia|]. simpl.
    destruct (String.eqb l key) eqn:E.
    + apply String.eqb_eq in E. subst l. exists 0, col. eexists. repeat split.
    + destruct Hin as [Hin|Hin]; [apply String.eqb_neq in E; contradiction|].
      destruct (IH cols Hin) as [p [c [rest [Hs [Hl Hc]]]]]; [simpl in Hlen; lia|].
      exists (S p), c, rest. repeat split; assumption.
Qed.

Lemma column_series_present (data : DataFrame) (key : string) :
  In key (outer_labels (df_columns data)) ->
  length (outer_labels (df_columns data)) <= length (df_values data) ->
  exists p col,
    column_series data key = Ok (mkSeries (df_index data) col) /\
    nth_error (outer_labels (df_columns data)) p = Some key /\
    nth_error (df_values data) p = Some col.
Proof.
  intros Hin Hlen.
  destruct (select_present key _ _ Hin Hlen) as [p [col [rest [Hs [Hl Hc]]]]].
  exists p, col. split; [|split; assumption].
  unfold column_series, getitem. rewrite Hs.
  destruct rest; [destruct (df_columns data)|]; reflexivity.
Qed.

(** X14: on a table with at least one row and a column for every label,
    one of whose (outer) labels spells [close] in any letter case, the
    normalised table has a [Close] column: [close_column] returns, on the
    timestamps of the table, one of its columns whose label spelled
    [close]. *)
Theorem close_found_after_normalising :
  forall (d d' : DataFrame) (e : string),
    fix_dataframe_columns (Some d) = Some d' ->
    empty d = false ->
    length (outer_labels (df_columns d)) <= length (df_values d) ->
    In e (outer_labels (df_columns d)) ->
    lower e = "close"%string ->
    exists close p l,
      close_column d' = Ok close /\
      s_index close = df_index d /\
      nth_error (df_values d) p = Some (s_values close) /\
      nth_error (outer_labels (df_columns d)) p = Some l /\
      lower l = "close"%string.
Proof.
  intros d d' e Hfix Hne Hlen Hin He.
  rewrite (fix_nonempty_result d Hne) in Hfix. inversion Hfix; subst d'. clear Hfix.
  set (base := outer_labels (df_columns d)) in *.
  assert (Hc : In "Close"%string (map (normalized_label base) base)).
  { apply normalized_present; [simpl; tauto|]. exists e. split; [exact Hin | exact He]. }
  destruct (column_series_present
              (mkDataFrame (df_index d) (Index (map (normalized_label base) base)) (df_values d))
              "Close") as [p [col [Hs [Hl Hcol]]]].
  - exact Hc.
  - cbn [df_columns outer_labels df_values]. rewrite length_map. exact Hlen.
  - cbn [df_columns outer_labels df_values df_index] in *.
    rewrite nth_error_map in Hl.
    destruct (nth_error base p) as [l|] eqn:El; [|discriminate].
    simpl in Hl. inversion Hl as [Hn].
    exists (mkSeries (df_index d) col), p, l.
    unfold close_column. rewrite Hs. repeat split; try assumption.
    change "close"%string with (lower "Close"). rewrite <- Hn.
    symmetry. apply normalized_label_lower.
Qed.

Lemma close_found_after_normalising_witness :
  exists close p l,
    close_column
      (mkDataFrame [0%Z; 1%Z] (Index ["Open"; "Close"])
         [[Some 1%Q; Some 2%Q]; [Some 3%Q; Some 4%Q]]) = Ok close /\
    s_index close
      = df_index (mkDataFrame [0%Z; 1%Z] (MultiIndex [("Open", "VOO"); ("CLOSE", "VOO")])
                    [[Some 1%Q; Some 2%Q]; [Some 3%Q; Some 4%Q]]) /\
    nth_error
      (df_values (mkDataFrame [0%Z; 1%Z] (MultiIndex [("Open", "VOO"); ("CLOSE", "VOO")])
                    [[Some 1%Q; Some 2%Q]; [Some 3%Q; Some 4%Q]])) p
      = Some (s_values close) /\
    nth_error
      (outer_labels (df_columns
         (mkDataFrame [0%Z; 1%Z] (MultiIndex [("Open", "VOO"); ("CLOSE", "VOO")])
            [[Some 1%Q; Some 2%Q]; [Some 3%Q; Some 4%Q]]))) p = Some l /\
    lower l = "close"%string.
Proof.
  apply (close_found_after_normalising
           (mkDataFrame [0%Z; 1%Z] (MultiIndex [("Open", "VOO"); ("CLOSE", "VOO")])
              [[Some 1%Q; Some 2%Q]; [Some 3%Q; Some 4%Q]])
           (mkDataFrame [0%Z; 1%Z] (Index ["Open"; "Close"])
              [[Some 1%Q; Some 2%Q]; [Some 3%Q; Some 4%Q]])
           "CLOSE").
  - reflexivity.
  - reflexivity.
  - simpl. lia.
  - simpl. tauto.
  - reflexivity.
Defined.

(** X15: [download_stock_data] returns data or an error message, never
    both and never neither; the data it returns have at least one row and
    one column, and flat column labels. *)
Theorem download_stock_data_outcome :
  forall (yf_download : string -> string -> string -> provider_outcome)
         (ticker period interval : string),
    (exists d labels,
       download_stock_data yf_download ticker period interval = (Some d, None) /\
       empty d = false /\ df_columns d = Index labels) \/
    (exists msg,
       download_stock_data yf_download ticker period interval = (None, Some msg)).
Proof.
  intros yf_download ticker period interval. unfold download_stock_data.
  destruct (yf_download ticker period interval) as [msg|data].
  - right. exists msg. reflexivity.
  - destruct (empty data) eqn:E.
    + right. eexists. reflexivity.
    + left. rewrite (fix_nonempty_result data E). eexists. eexists.
      split; [reflexivity|]. split; [|reflexivity].
      unfold empty in *. cbn [df_index df_columns ncols].
      rewrite length_map, ncols_outer_labels. exact E.
Qed.

(** * Further properties of the summaries and of the drawing *)

Local Open Scope Q_scope.

Lemma fold_nan_max_numbers (rest : list Q) (a : Q) :
  exists m,
    fold_left nan_max (map Fin rest) (Fin a) = Fin m /\
    In m (a :: rest) /\
    forall h, In h (a :: rest) -> h <= m.
Proof.
  revert a; induction rest as [|x rest IH]; intros a.
  - exists a. simpl. split; [reflexivity|]. split; [tauto|].
    intros h [H|[]]. subst h. lra.
  - cbn [map fold_left nan_max fgt].
    destruct (Qltb a x) eqn:E.
    + apply Qltb_lt in E. destruct (IH x) as [m [Hm [Hin Hmax]]].
      exists m. split; [exact Hm|]. split; [right; exact Hin|].
      intros h [H|H]; [subst h; pose proof (Hmax x (or_introl eq_refl)); lra|].
      apply Hmax. exact H.
    + apply Qltb_ge in E. destruct (IH a) as [m [Hm [Hin Hmax]]].
      exists m. split; [exact Hm|].
      split; [destruct Hin as [H|H]; [left; exact H | right; right; exact H]|].
      intros h [H|[H|H]].
      * subst h. apply Hmax. left. reflexivity.
      * subst h. pose proof (Hmax a (or_introl eq_refl)). lra.
      * apply Hmax. right. exact H.
Qed.

Lemma fold_nan_min_numbers (rest : list Q) (a : Q) :
  exists m,
    fold_left nan_min (map Fin rest) (Fin a) = Fin m /\
    In m (a :: rest) /\
    forall h, In h (a :: rest) -> m <= h.
Proof.
  revert a; induction rest as [|x rest IH]; intros a.
  - exists a. simpl. split; [reflexivity|]. split; [tauto|].
    intros h [H|[]]. subst h. lra.
  - cbn [map fold_left nan_min fgt].
    destruct (Qltb x a) eqn:E.
    + apply Qltb_lt in E. destruct (IH x) as [m [Hm [Hin Hmin]]].
      exists m. split; [exact Hm|]. split; [right; exact Hin|].
      intros h [H|H]; [subst h; pose proof (Hmin x (or_introl eq_refl)); lra|].
      apply Hmin. exact H.
    + apply Qltb_ge in E. destruct (IH a) as [m [Hm [Hin Hmin]]].
      exists m. split; [exact Hm|].
      split; [destruct Hin as [H|H]; [left; exact H | right; right; exact H]|].
      intros h [H|[H|H]].
      * subst h. apply Hmin. left. reflexivity.
      * subst h. pose proof (Hmin a (or_introl eq_refl)). lra.
      * apply Hmin. right. exact H.
Qed.

Lemma Forall2_last {A B : Type} (R : A -> B -> Prop) (xs : list A) (ys : list B)
    (dx : A) (dy : B) :
  Forall2 R xs ys -> xs <> [] -> R (last xs dx) (last ys dy) /\ In (last ys dy) ys
                                  /\ In (last xs dx) xs.
Proof.
  induction 1 as [|x y xs ys Hxy Hrest IH]; [congruence|]. intros _.
  destruct Hrest as [|x' y' xs' ys' Hxy' Hrest'].
  - simpl. auto.
  - destruct IH as [H1 [H2 H3]]; [discriminate|].
    change (last (x :: x' :: xs') dx) with (last (x' :: xs') dx).
    change (last (y :: y' :: ys') dy) with (last (y' :: ys') dy).
    split; [exact H1|]. split; right; assumption.
Qed.

Lemma last_map_Fin (qs : list Q) (d : Q) :
  qs <> [] -> last (map Fin qs) NaN = Fin (last qs d).
Proof.
  induction qs as [|q qs IH]; [congruence|]. intros _.
  destruct qs as [|q' qs']; [reflexivity|].
  change (last (map Fin (q :: q' :: qs')) NaN) with (last (map Fin (q' :: qs')) NaN).
  change (last (q :: q' :: qs') d) with (last (q' :: qs') d).
  apply IH. discriminate.
Qed.

(** X17: on a table whose closes, highs and lows are numbers with
    low <= close <= high on every row, [print_summary] reports as period
    high the largest high, as period low the smallest low, and a latest
    price between the two; the number of data points is the number of
    rows. *)
Theorem print_summary_range :
  forall (data : DataFrame) (info : option stock_info) (closes highs lows : list Q),
    get_column_values data "Close" = Ok (map Fin closes) ->
    get_column_values data "High" = Ok (map Fin highs) ->
    get_column_values data "Low" = Ok (map Fin lows) ->
    closes <> [] ->
    Forall2 Qle lows closes ->
    Forall2 Qle closes highs ->
    exists r lo la hi,
      print_summary data info = Ok r /\
      period_low r = Fin lo /\ latest_price r = Fin la /\ period_high r = Fin hi /\
      data_points r = length (df_index data) /\
      In hi highs /\ (forall h, In h highs -> h <= hi) /\
      In lo lows /\ (forall l, In l lows -> lo <= l) /\
      lo <= la <= hi.
Proof.
  intros data info closes highs lows Hc Hh Hl Hne Hlc Hch.
  unfold print_summary. rewrite Hc, Hh, Hl. cbn [bind].
  destruct closes as [|c0 crest]; [congruence|].
  destruct highs as [|h0 hrest]; [inversion Hch|].
  destruct lows as [|l0 lrest]; [inversion Hlc|].
  destruct (fold_nan_max_numbers hrest h0) as [hi [Hhi [Hhin Hhmax]]].
  destruct (fold_nan_min_numbers lrest l0) as [lo [Hlo [Hlin Hlmin]]].
  cbn [map last_value np_max np_min first_value bind].
  rewrite Hhi, Hlo. cbn [bind].
  change (Fin c0 :: map Fin crest) with (map Fin (c0 :: crest)).
  rewrite (last_map_Fin (c0 :: crest) 0) by discriminate.
  eexists. exists lo, (last (c0 :: crest) 0), hi.
  split; [reflexivity|]. cbn [period_low latest_price period_high data_points].
  repeat split; try assumption.
  - destruct (Forall2_last Qle (l0 :: lrest) (c0 :: crest) 0 0 Hlc) as [H1 [_ H3]];
      [discriminate|].
    pose proof (Hlmin _ H3). lra.
  - destruct (Forall2_last Qle (c0 :: crest) (h0 :: hrest) 0 0 Hch) as [H1 [H2 _]];
      [discriminate|].
    pose proof (Hhmax _ H2). lra.
Qed.

Lemma print_summary_range_witness :
  exists r lo la hi,
    print_summary
      (mkDataFrame [0%Z; 1%Z] (Index ["High"; "Low"; "Close"]%string)
         [[Some 12; Some 13]; [Some 9; Some 10]; [Some 10; Some 12]]) None = Ok r /\
    period_low r = Fin lo /\ latest_price r = Fin la /\ period_high r = Fin hi /\
    data_points r = 2%nat /\
    In hi [12; 13] /\ (forall h, In h [12; 13] -> h <= hi) /\
    In lo [9; 10] /\ (forall l, In l [9; 10] -> lo <= l) /\
    lo <= la <= hi.
Proof.
  apply (print_summary_range
           (mkDataFrame [0%Z; 1%Z] (Index ["High"; "Low"; "Close"]%string)
              [[Some 12; Some 13]; [Some 9; Some 10]; [Some 10; Some 12]])
           None [10; 12] [12; 13] [9; 10]).
  - reflexivity.
  - reflexivity.
  - reflexivity.
  - discriminate.
  - repeat constructor; lra.
  - repeat constructor; lra.
Defined.

Lemma item_map_Fin (qs : list Q) (i : nat) (q : Q) :
  nth_error qs i = Some q -> item (map Fin qs) i = Ok (Fin q).
Proof.
  intros H. unfold item. rewrite nth_error_map, H. reflexivity.
Qed.

Lemma dict_item_found {V : Type} (d : dict V) (k : string) (v : V) :
  dict_lookup d k = Some v -> dict_item d k = Ok v.
Proof. intros H. unfold dict_item. rewrite H. reflexivity. Qed.

(** The three bars of one candle on a row of numbers. *)
Lemma candle_row (index : list Z) (os hs ls cs : list Q) (theme : dict string)
    (up down : string) (width width2 : Q) (i : nat) (x : Z) (o h l c : Q) :
  dict_lookup theme "up_color" = Some up ->
  dict_lookup theme "down_color" = Some down ->
  nth_error index i = Some x ->
  nth_error os i = Some o -> nth_error hs i = Some h ->
  nth_error ls i = Some l -> nth_error cs i = Some c ->
  exists body upper lower,
    candle index (map Fin os) (map Fin hs) (map Fin ls) (map Fin cs) theme width width2 i
      = ([body; upper; lower], None) /\
    bar_spans body (Qmin o c) (Qmax o c) /\
    bar_spans upper (Qmax o c) h /\
    bar_spans lower l (Qmin o c) /\
    bar_at body x width (if Qle_bool o c then up else down)
           (Some (if Qle_bool o c then up else down)) /\
    bar_at upper x width2 (if Qle_bool o c then up else down) None /\
    bar_at lower x width2 (if Qle_bool o c then up else down) None.
Proof.
  intros Hup Hdown Hx Ho Hh Hl Hc. unfold candle, item.
  rewrite !nth_error_map, Hc, Ho, Hh, Hl, Hx.
  cbn [option_map bind fge].
  assert (Hcol : (if Qle_bool o c then dict_item theme "up_color"
                  else dict_item theme "down_color")
                 = Ok (if Qle_bool o c then up else down)).
  { destruct (Qle_bool o c); apply dict_item_found; assumption. }
  rewrite Hcol. cbn [bind fge].
  unfold py_max, py_min. cbn [fgt].
  eexists. eexists. eexists. split; [reflexivity|].
  cbn [bar_at]. split; [|split; [|split; [|repeat split]]].
  - destruct (Qle_bool o c) eqn:E; cbn [bar_spans fsub fneg fadd].
    + apply Qle_bool_iff in E.
      rewrite (Q.min_l o c) by lra. rewrite (Q.max_r o c) by lra. split; [reflexivity | ring].
    + assert (c < o) by (apply Qnot_le_lt; intros H; apply Qle_bool_iff in H; congruence).
      rewrite (Q.min_r o c) by lra. rewrite (Q.max_l o c) by lra. split; [reflexivity | ring].
  - destruct (Qltb o c) eqn:E; cbn [bar_spans fsub fneg fadd].
    + apply Qltb_lt in E. rewrite (Q.max_r o c) by lra. split; [reflexivity | ring].
    + apply Qltb_ge in E. rewrite (Q.max_l o c) by lra. split; [reflexivity | ring].
  - destruct (Qltb c o) eqn:E; cbn [bar_spans fsub fneg fadd].
    + apply Qltb_lt in E. rewrite (Q.min_r o c) by lra. split; [reflexivity | ring].
    + apply Qltb_ge in E. rewrite (Q.min_l o c) by lra. split; [reflexivity | ring].
Qed.

Lemma draw_each_triples (step : nat -> drawing) (ps : list nat) :
  (forall i, In i ps -> exists b u l, step i = ([b; u; l], None)) ->
  exists ds,
    draw_each step ps = (ds, None) /\
    length ds = (3 * length ps)%nat /\
    forall k i b u l,
      nth_error ps k = Some i -> step i = ([b; u; l], None) ->
      nth_error ds (3 * k) = Some b /\
      nth_error ds (3 * k + 1) = Some u /\
      nth_error ds (3 * k + 2) = Some l.
Proof.
  induction ps as [|p ps IH]; intros Hall.
  - exists []. split; [reflexivity|]. split; [reflexivity|].
    intros [|k] i b u l H; discriminate H.
  - destruct (Hall p (or_introl eq_refl)) as [b0 [u0 [l0 Hp]]].
    destruct IH as [more [Hmore [Hlen Hnth]]].
    { intros i Hi. apply Hall. right. exact Hi. }
    exists ([b0; u0; l0] ++ more)%list. cbn [draw_each]. rewrite Hp, Hmore.
    split; [reflexivity|]. split; [cbn [length app]; rewrite Hlen; simpl; lia|].
    intros [|k] i b u l Hk Hi.
    + simpl in Hk. inversion Hk; subst i. rewrite Hp in Hi.
      inversion Hi; subst. repeat split.
    + simpl in Hk. destruct (Hnth k i b u l Hk Hi) as [H1 [H2 H3]].
      replace (3 * S k)%nat with (S (S (S (3 * k)))) by lia.
      replace (S (S (S (3 * k))) + 1)%nat with (S (S (S (3 * k + 1)))) by lia.
      replace (S (S (S (3 * k))) + 2)%nat with (S (S (S (3 * k + 2)))) by lia.
      simpl. auto.
Qed.

Lemma candle_width_returns (index : list Z) : exists width, candle_width index = Ok width.
Proof.
  unfold candle_width. destruct index as [|t0 [|t1 rest]]; simpl;
    try (eexists; reflexivity).
  destruct (Qltb _ 3600); [eexists; reflexivity|].
  destruct (Qltb _ 86400); [eexists; reflexivity|].
  destruct (Qltb _ 604800); eexists; reflexivity.
Qed.

(** X18: on a table whose four price columns are numbers, one per
    timestamp, and with a theme that has the two direction colours,
    [plot_candlestick] draws three bars per row and raises nothing: on row
    [i], a body from min(open, close) to max(open, close) of the width
    chosen for the table, an upper wick from there to the high and a lower
    wick from the low, both a fifth as wide, all three at the row's
    timestamp and in the up colour exactly when close >= open. *)
Theorem plot_candlestick_candles :
  forall (data : DataFrame) (theme : dict string) (up down : string)
         (os hs ls cs : list Q),
    get_column_values data "Open" = Ok (map Fin os) ->
    get_column_values data "High" = Ok (map Fin hs) ->
    get_column_values data "Low" = Ok (map Fin ls) ->
    get_column_values data "Close" = Ok (map Fin cs) ->
    length os = length (df_index data) ->
    length hs = length (df_index data) ->
    length ls = length (df_index data) ->
    length cs = length (df_index data) ->
    dict_lookup theme "up_color" = Some up ->
    dict_lookup theme "down_color" = Some down ->
    exists width ds,
      candle_width (df_index data) = Ok width /\
      plot_candlestick data theme = (ds, None) /\
      length ds = (3 * length (df_index data))%nat /\
      forall i x o h l c,
        nth_error (df_index data) i = Some x ->
        nth_error os i = Some o -> nth_error hs i = Some h ->
        nth_error ls i = Some l -> nth_error cs i = Some c ->
        exists body upper lower,
          nth_error ds (3 * i) = Some body /\
          nth_error ds (3 * i + 1) = Some upper /\
          nth_error ds (3 * i + 2) = Some lower /\
          bar_spans body (Qmin o c) (Qmax o c) /\
          bar_spans upper (Qmax o c) h /\
          bar_spans lower l (Qmin o c) /\
          bar_at body x width (if Qle_bool o c then up else down)
                 (Some (if Qle_bool o c then up else down)) /\
          bar_at upper x (width / 5) (if Qle_bool o c then up else down) None /\
          bar_at lower x (width / 5) (if Qle_bool o c then up else down) None.
Proof.
  intros data theme up down os hs ls cs Ho Hh Hl Hc Lo Lh Ll Lc Hup Hdown.
  destruct (candle_width_returns (df_index data)) as [width Hw].
  unfold plot_candlestick. rewrite Ho, Hh, Hl, Hc, Hw. cbn [bind].
  set (step := candle (df_index data) (map Fin os) (map Fin hs) (map Fin ls)
                 (map Fin cs) theme width (width / 5)).
  assert (Hrow : forall i x o h l c,
            nth_error (df_index data) i = Some x ->
            nth_error os i = Some o -> nth_error hs i = Some h ->
            nth_error ls i = Some l -> nth_error cs i = Some c ->
            exists body upper lower,
              step i = ([body; upper; lower], None) /\
              bar_spans body (Qmin o c) (Qmax o c) /\
              bar_spans upper (Qmax o c) h /\
              bar_spans lower l (Qmin o c) /\
              bar_at body x width (if Qle_bool o c then up else down)
                     (Some (if Qle_bool o c then up else down)) /\
              bar_at upper x (width / 5) (if Qle_bool o c then up else down) None /\
              bar_at lower x (width / 5) (if Qle_bool o c then up else down) None).
  { intros i x o h l c Hx Hoi Hhi Hli Hci.
    exact (candle_row (df_index data) os hs ls cs theme up down width (width / 5)
             i x o h l c Hup Hdown Hx Hoi Hhi Hli Hci). }
  destruct (draw_each_triples step (seq 0 (length (df_index data)))) as [ds [Hds [Hlen Hnth]]].
  { intros i Hi. apply in_seq in Hi.
    assert (Hlt : forall (A : Type) (xs : list A), length xs = length (df_index data) ->
                  exists v, nth_error xs i = Some v).
    { intros A xs Hxs. destruct (nth_error xs i) eqn:E; [eexists; reflexivity|].
      apply nth_error_None in E. lia. }
    destruct (Hlt _ (df_index data) eq_refl) as [x Hx].
    destruct (Hlt _ os Lo) as [o Hoi]. destruct (Hlt _ hs Lh) as [h Hhi].
    destruct (Hlt _ ls Ll) as [l Hli]. destruct (Hlt _ cs Lc) as [c Hci].
    destruct (Hrow i x o h l c Hx Hoi Hhi Hli Hci) as [b [u [lw [Hs _]]]].
    exists b, u, lw. exact Hs. }
  exists width, ds. split; [reflexivity|]. split; [exact Hds|].
  split; [rewrite Hlen, length_seq; reflexivity|].
  intros i x o h l c Hx Hoi Hhi Hli Hci.
  destruct (Hrow i x o h l c Hx Hoi Hhi Hli Hci) as [b [u [lw [Hs Hrest]]]].
  assert (Hi : nth_error (seq 0 (length (df_index data))) i = Some i).
  { rewrite nth_error_seq.
    assert (i < length (df_index data))%nat
      by (apply nth_error_Some; rewrite Hx; discriminate).
    replace (i <? length (df_index data))%nat with true
      by (symmetry; apply Nat.ltb_lt; assumption).
    reflexivity. }
  destruct (Hnth i i b u lw Hi Hs) as [H1 [H2 H3]].
  exists b, u, lw. tauto.
Qed.

Lemma plot_candlestick_candles_witness :
  exists width ds,
    candle_width [0%Z; 86400000000000%Z] = Ok width /\
    plot_candlestick
      (mkDataFrame [0%Z; 86400000000000%Z] (Index ["Open"; "High"; "Low"; "Close"]%string)
         [[Some 10; Some 12]; [Some 13; Some 12]; [Some 9; Some 8]; [Some 12; Some 9]])
      [("up_color", "#00ff88"); ("down_color", "#ff4444")]%string = (ds, None) /\
    length ds = (3 * 2)%nat /\
    forall i x o h l c,
      nth_error [0%Z; 86400000000000%Z] i = Some x ->
      nth_error [10; 12] i = Some o -> nth_error [13; 12] i = Some h ->
      nth_error [9; 8] i = Some l -> nth_error [12; 9] i = Some c ->
      exists body upper lower,
        nth_error ds (3 * i) = Some body /\
        nth_error ds (3 * i + 1) = Some upper /\
        nth_error ds (3 * i + 2) = Some lower /\
        bar_spans body (Qmin o c) (Qmax o c) /\
        bar_spans upper (Qmax o c) h /\
        bar_spans lower l (Qmin o c) /\
        bar_at body x width (if Qle_bool o c then "#00ff88" else "#ff4444")%string
               (Some (if Qle_bool o c then "#00ff88" else "#ff4444")%string) /\
        bar_at upper x (width / 5) (if Qle_bool o c then "#00ff88" else "#ff4444")%string None /\
        bar_at lower x (width / 5) (if Qle_bool o c then "#00ff88" else "#ff4444")%string None.
Proof.
  apply (plot_candlestick_candles
           (mkDataFrame [0%Z; 86400000000000%Z]
              (Index ["Open"; "High"; "Low"; "Close"]%string)
              [[Some 10; Some 12]; [Some 13; Some 12]; [Some 9; Some 8]; [Some 12; Some 9]])
           [("up_color", "#00ff88"); ("down_color", "#ff4444")]%string
           "#00ff88"%string "#ff4444"%string [10; 12] [13; 12] [9; 8] [12; 9]);
    reflexivity.
Defined.

(** X19: when the first two timestamps are at least a minute apart, the
    candle body is no wider than that first interval, so the bodies of
    neighbouring candles do not overlap there. *)
Theorem candle_width_fits_interval :
  forall (t0 t1 : Z) (rest : list Z),
    60 <= total_seconds t1 t0 ->
    exists width,
      candle_width (t0 :: t1 :: rest) = Ok width /\
      0 < width /\
      width <= total_seconds t1 t0.
Proof.
  intros t0 t1 rest H. unfold candle_width. cbn [length Nat.ltb Nat.leb item nth_error bind].
  remember (total_seconds t1 t0) as d eqn:Ed. clear Ed.
  destruct (Qltb d 3600) eqn:E1.
  { exists 60. repeat split; lra. }
  apply Qltb_ge in E1.
  destruct (Qltb d 86400) eqn:E2.
  { exists 1800. repeat split; lra. }
  apply Qltb_ge in E2.
  destruct (Qltb d 604800) eqn:E3.
  { exists 51840. repeat split; lra. }
  apply Qltb_ge in E3.
  exists 345600. repeat split; lra.
Qed.

Lemma candle_width_fits_interval_witness :
  exists width,
    candle_width [0%Z; 3600000000000%Z; 7200000000000%Z] = Ok width /\
    0 < width /\
    width <= total_seconds 3600000000000 0.
Proof.
  apply (candle_width_fits_interval 0 3600000000000 [7200000000000%Z]).
  vm_compute. discriminate.
Defined.

(** * Further properties of the overlays and of the menus *)

Local Open Scope nat_scope.

Section OverlayProperties.

Variable Qsqrt : Q -> Q.

Lemma add_indicator_unknown (data : DataFrame) (theme : dict string) (k : nat)
    (indicator : string) :
  is_known indicator = false ->
  add_indicator Qsqrt data theme k indicator = Ok ([], k).
Proof.
  unfold is_known, str_in, add_indicator. cbn [existsb].
  destruct (String.eqb indicator "sma20"); [discriminate|].
  destruct (String.eqb indicator "sma50"); [discriminate|].
  destruct (String.eqb indicator "ema20"); [discriminate|].
  destruct (String.eqb indicator "bb"); [discriminate|].
  reflexivity.
Qed.

Lemma add_indicators_from_known (data : DataFrame) (theme : dict string)
    (indicators : list string) (k : nat) :
  add_indicators_from Qsqrt data theme k indicators
    = add_indicators_from Qsqrt data theme k (filter is_known indicators).
Proof.
  revert k; induction indicators as [|ind rest IH]; intros k; [reflexivity|].
  cbn [filter]. destruct (is_known ind) eqn:E.
  - cbn [add_indicators_from].
    destruct (add_indicator Qsqrt data theme k ind) as [[ds k']|e]; [|reflexivity].
    rewrite IH. reflexivity.
  - cbn [add_indicators_from]. rewrite (add_indicator_unknown data theme k ind E).
    rewrite IH.
    destruct (add_indicators_from Qsqrt data theme k (filter is_known rest)) as [more e].
    reflexivity.
Qed.

(** X20: [add_indicators] passes over the names it does not know: they
    draw nothing, raise nothing and take no colour, so the result is that
    of the known names alone. *)
Theorem add_indicators_skips_unknown :
  forall (data : DataFrame) (indicators : list string) (theme : dict string),
    add_indicators Qsqrt data indicators theme
      = add_indicators Qsqrt data (filter is_known indicators) theme.
Proof.
  intros data indicators theme. unfold add_indicators.
  apply add_indicators_from_known.
Qed.

Section WithClose.

Variable data : DataFrame.
Variable close : Series cell.
Variable theme : dict string.
Variable accent : string.
Hypothesis data_close : close_column data = Ok close.
Hypothesis theme_accent : dict_lookup theme "accent_color" = Some accent.

Lemma add_indicator_returns (k : nat) (indicator : string) :
  exists ds,
    add_indicator Qsqrt data theme k indicator
      = Ok (ds, if is_average indicator then S k else k) /\
    (is_average indicator = true ->
     exists y label style,
       ds = [Plot (df_index data) y (overlay_color k) 1.5 label style]).
Proof.
  unfold add_indicator, is_average, str_in. cbn [existsb].
  unfold calculate_bollinger_bands, calculate_sma, calculate_ema.
  rewrite data_close. cbn [bind]. rewrite (ewm_mean_ok 20) by lia. cbn [bind].
  rewrite (dict_item_found theme _ accent theme_accent). cbn [bind].
  destruct (String.eqb indicator "sma20").
  { eexists. split; [reflexivity|]. intros _. eexists _, _, _. reflexivity. }
  destruct (String.eqb indicator "sma50").
  { eexists. split; [reflexivity|]. intros _. eexists _, _, _. reflexivity. }
  destruct (String.eqb indicator "ema20").
  { eexists. split; [reflexivity|]. intros _. eexists _, _, _. reflexivity. }
  destruct (String.eqb indicator "bb");
    (eexists; split; [reflexivity | intros H; discriminate H]).
Qed.

Lemma add_indicators_from_returns (indicators : list string) (k : nat) :
  exists ds, add_indicators_from Qsqrt data theme k indicators = (ds, None).
Proof.
  revert k; induction indicators as [|ind rest IH]; intros k.
  - exists []. reflexivity.
  - destruct (add_indicator_returns k ind) as [ds [Hds _]].
    destruct (IH (if is_average ind then S k else k)) as [more Hmore].
    exists (ds ++ more)%list. cbn [add_indicators_from]. rewrite Hds, Hmore. reflexivity.
Qed.

Lemma add_indicators_from_rotation (pre post : list string) (indicator : string) (k : nat) :
  is_average indicator = true ->
  exists before y label style after,
    add_indicators_from Qsqrt data theme k pre = (before, None) /\
    add_indicators_from Qsqrt data theme k (pre ++ indicator :: post)%list
      = ((before ++ Plot (df_index data) y (overlay_color (k + count_averages pre)) 1.5
                      label style :: after)%list, None).
Proof.
  intros Havg. revert k; induction pre as [|p pre IH]; intros k.
  - destruct (add_indicator_returns k indicator) as [ds [Hds Hplot]].
    destruct (Hplot Havg) as [y [label [style Hy]]]. subst ds.
    rewrite Havg in Hds.
    destruct (add_indicators_from_returns post (S k)) as [after Hafter].
    exists [], y, label, style, after. split; [reflexivity|].
    cbn [app add_indicators_from]. rewrite Hds, Hafter.
    unfold count_averages. cbn [filter length]. rewrite Nat.add_0_r. reflexivity.
  - destruct (add_indicator_returns k p) as [ds [Hds _]].
    destruct (IH (if is_average p then S k else k))
      as [before [y [label [style [after [Hpre Hall]]]]]].
    exists (ds ++ before)%list, y, label, style, after.
    cbn [app add_indicators_from]. rewrite Hds, Hpre, Hall.
    split; [reflexivity|].
    rewrite <- app_assoc.
    replace ((if is_average p then S k else k) + count_averages pre)
      with (k + count_averages (p :: pre)); [reflexivity|].
    unfold count_averages. cbn [filter]. destruct (is_average p); cbn [length]; lia.
Qed.

End WithClose.

(** X21: on data with a [Close] column and a theme with an accent colour,
    [add_indicators] raises nothing, and each moving-average line takes
    the colour of the four-colour rotation whose rank is the number of
    moving-average lines requested before it; Bollinger bands and unknown
    names do not advance the rotation. *)
Theorem add_indicators_rotation :
  forall (data : DataFrame) (close : Series cell) (theme : dict string) (accent : string)
         (pre post : list string) (indicator : string),
    close_column data = Ok close ->
    dict_lookup theme "accent_color" = Some accent ->
    is_average indicator = true ->
    exists before y label style after,
      add_indicators Qsqrt data pre theme = (before, None) /\
      add_indicators Qsqrt data (pre ++ indicator :: post)%list theme
        = ((before ++ Plot (df_index data) y (overlay_color (count_averages pre)) 1.5
                        label style :: after)%list, None).
Proof.
  intros data close theme accent pre post indicator Hclose Haccent Havg.
  unfold add_indicators.
  exact (add_indicators_from_rotation data close theme accent Hclose Haccent
           pre post indicator 0 Havg).
Qed.

End OverlayProperties.

Lemma add_indicators_rotation_witness :
  exists before y label style after,
    add_indicators Qsqrt_floor (close_frame [Some 1%Q; Some 2%Q])
      ["sma20"; "bb"; "volume"]%string [("accent_color", "#ff6b6b")]%string = (before, None) /\
    add_indicators Qsqrt_floor (close_frame [Some 1%Q; Some 2%Q])
      (["sma20"; "bb"; "volume"] ++ "ema20" :: ["sma50"])%list%string
      [("accent_color", "#ff6b6b")]%string
      = ((before ++ Plot (df_index (close_frame [Some 1%Q; Some 2%Q])) y
                      (overlay_color (count_averages ["sma20"; "bb"; "volume"]%string))
                      1.5 label style :: after)%list, None).
Proof.
  apply (add_indicators_rotation Qsqrt_floor (close_frame [Some 1%Q; Some 2%Q])
           (close_of_frame [Some 1%Q; Some 2%Q]) [("accent_color", "#ff6b6b")]%string
           "#ff6b6b"%string ["sma20"; "bb"; "volume"]%string ["sma50"]%string "ema20"%string).
  - reflexivity.
  - reflexivity.
  - reflexivity.
Defined.

Lemma dict_lookup_In {V : Type} (d : dict V) (k : string) (v : V) :
  dict_lookup d k = Some v -> In (k, v) d.
Proof.
  induction d as [|[k' v'] d IH]; simpl; [discriminate|].
  destruct (String.eqb k k') eqn:E.
  - intros H; inversion H; subst. apply String.eqb_eq in E. subst. left. reflexivity.
  - intros H. right. apply IH. exact H.
Qed.

(** X22: whatever is typed, [get_period] never returns the empty string:
    an empty answer becomes [1y], a menu number becomes its period, and
    any other text is passed on as typed. *)
Theorem get_period_never_empty :
  forall line : string, get_period line <> ""%string.
Proof.
  intros line. unfold get_period, dict_get.
  destruct (dict_lookup period_map (strip line)) as [v|] eqn:E.
  - apply dict_lookup_In in E. unfold period_map in E. simpl in E.
    intros Hv. subst v.
    repeat (destruct E as [E|E]; [discriminate E|]). exact E.
  - intros Hs. rewrite Hs in E. discriminate E.
Qed.

(** X23: whatever the period and whatever is typed, [get_interval] returns
    one of the seven interval tokens of its menu; free text is never
    passed on. *)
Theorem get_interval_recognised :
  forall period line : string,
    In (get_interval period line) ["1m"; "5m"; "15m"; "1h"; "1d"; "1wk"; "1mo"]%string.
Proof.
  intros period line. unfold get_interval.
  destruct (String.eqb (strip line) "").
  - unfold auto_select_interval.
    repeat match goal with
           | |- context [if ?b then _ else _] => destruct b
           end; simpl; tauto.
  - unfold dict_get.
    destruct (dict_lookup interval_map (strip line)) as [v|] eqn:E; [|simpl; tauto].
    apply dict_lookup_In in E. unfold interval_map in E. simpl in E.
    repeat (destruct E as [E|E]; [inversion E; simpl; tauto|]). contradiction.
Qed.

Lemma collect_indicators_known (pieces : list string) (indicator : string) :
  In indicator (collect_indicators pieces) -> is_known indicator = true.
Proof.
  induction pieces as [|c rest IH]; cbn [collect_indicators]; [contradiction|].
  destruct (dict_lookup indicator_map (strip c)) as [v|] eqn:E; [|exact IH].
  intros [H|H]; [|apply IH; exact H]. subst v.
  apply dict_lookup_In in E. unfold indicator_map in E. simpl in E.
  repeat (destruct E as [E|E]; [inversion E; reflexivity|]). contradiction.
Qed.

(** X24: whatever is typed, [get_indicators] returns only names that
    [add_indicators] knows, so none of them is passed over when the
    overlays are drawn. *)
Theorem get_indicators_known :
  forall line : string,
    (forall indicator, In indicator (get_indicators line) -> is_known indicator = true) /\
    filter is_known (get_indicators line) = get_indicators line.
Proof.
  intros line.
  assert (H : forall indicator,
             In indicator (get_indicators line) -> is_known indicator = true).
  { intros indicator. unfold get_indicators.
    destruct (String.eqb (strip line) "" || String.eqb (strip line) "0"); [contradiction|].
    destruct (String.eqb (strip line) "5").
    - simpl. intros [E|[E|[E|[E|[]]]]]; subst indicator; reflexivity.
    - apply collect_indicators_known. }
  split; [exact H|].
  induction (get_indicators line) as [|x xs IH]; [reflexivity|].
  cbn [filter]. rewrite (H x (or_introl eq_refl)). f_equal.
  apply IH. intros i Hi. apply H. right. exact Hi.
Qed.

(** X25: for every theme name, known or not, [apply_theme] raises
    nothing: it returns the theme of that name, or the dark theme when
    there is none, makes its eleven colour settings from that theme, and
    the theme it returns defines every colour role the drawing functions
    read. *)
Theorem apply_theme_total :
  forall theme_name : string,
    exists settings theme,
      apply_theme theme_name = Ok (settings, theme) /\
      match dict_lookup THEMES theme_name with
      | Some named => theme = named
      | None => dict_lookup THEMES "dark" = Some theme
      end /\
      length settings = 11 /\
      Forall (fun s => exists role, dict_lookup theme role = Some (colour s)) settings /\
      Forall (fun role => exists c, dict_item theme role = Ok c) colour_roles.
Proof.
  intros theme_name. unfold apply_theme, selected_theme, dict_get.
  unfold THEMES at 1 2 3. cbn [dict_item dict_lookup String.eqb Ascii.eqb Bool.eqb bind].
  cbn [dict_lookup].
  destruct (String.eqb theme_name "dark") eqn:Ed;
    [|destruct (String.eqb theme_name "light") eqn:El].
  all: eexists; eexists; (split; [reflexivity|]).
  all: unfold THEMES; cbn [dict_lookup]; rewrite ?Ed, ?El.
  all: split; [reflexivity|]; split; [reflexivity|]; split.
  all: repeat (apply Forall_cons; [eexists; first
         [ reflexivity
         | instantiate (1 := "bg_color"%string); reflexivity
         | instantiate (1 := "text_color"%string); reflexivity
         | instantiate (1 := "grid_color"%string); reflexivity ] |]);
       apply Forall_nil.
Qed.

(** X26: whatever is typed, [get_theme] returns a name defined in
    [Config.THEMES] and [get_chart_style] one of the four chart styles. *)
Theorem menu_theme_and_style :
  forall line : string,
    (exists theme, dict_lookup THEMES (get_theme line) = Some theme) /\
    In (get_chart_style line) ["line"; "area"; "bar"; "candlestick"]%string.
Proof.
  intros line. split.
  - unfold get_theme. destruct (String.eqb (strip line) "2"); eexists; reflexivity.
  - unfold get_chart_style, dict_get.
    destruct (dict_lookup style_map (strip line)) as [v|] eqn:E; [|simpl; tauto].
    apply dict_lookup_In in E. unfold style_map in E. simpl in E.
    repeat (destruct E as [E|E]; [inversion E; simpl; tauto|]). contradiction.
Qed.

(** * Further edge behaviour *)

Local Open Scope Q_scope.

Section ComparisonReturns.

Import PrimFloat.

Local Open Scope float_scope.

(** X27: [print_comparison_summary] returns exactly when both tables have
    a [Close] column with at least one value; otherwise it raises. *)
Theorem print_comparison_summary_returns_iff :
  forall voo_data jepi_data : DataFrameOf float,
    (exists r, Binary64.print_comparison_summary voo_data jepi_data = Ok r) <->
    (exists voo_close jepi_close,
       Binary64.get_column_values voo_data "Close" = Ok voo_close /\
       Binary64.get_column_values jepi_data "Close" = Ok jepi_close /\
       voo_close <> [] /\ jepi_close <> []).
Proof.
  intros voo_data jepi_data. unfold Binary64.print_comparison_summary. split.
  - intros [r Hr].
    destruct (Binary64.get_column_values voo_data "Close") as [vc|e];
      [|discriminate Hr].
    destruct (Binary64.get_column_values jepi_data "Close") as [jc|e];
      [|discriminate Hr].
    cbn [bind] in Hr.
    destruct vc as [|v vs]; [discriminate Hr|].
    destruct jc as [|j js].
    + rewrite period_return_nonempty in Hr by discriminate. discriminate Hr.
    + exists (v :: vs), (j :: js). repeat split; discriminate.
  - intros [vc [jc [Hv [Hj [Hvne Hjne]]]]]. rewrite Hv, Hj. cbn [bind].
    rewrite (period_return_nonempty vc Hvne), (period_return_nonempty jc Hjne).
    cbn [bind]. destruct (_ <? _); eexists; reflexivity.
Qed.

End ComparisonReturns.

Lemma ewm_values_leading_gap (alpha : Q) (xs : list cell) :
  ewm_values alpha (None :: xs) = None :: ewm_values alpha xs.
Proof. destruct xs as [|x rest]; reflexivity. Qed.

Lemma ewm_values_leading_gaps (alpha : Q) (k : nat) (xs : list cell) :
  ewm_values alpha (repeat None k ++ xs) = (repeat None k ++ ewm_values alpha xs)%list.
Proof.
  induction k as [|k IH]; [reflexivity|].
  cbn [repeat app]. rewrite ewm_values_leading_gap, IH. reflexivity.
Qed.

(** X28: missing closes at the start of a series are passed over by the
    exponential average: it is NaN on them, equals the first close that is
    present at its position, and goes on as the average of the series that
    starts there. *)
Theorem calculate_ema_leading_gaps :
  forall (data : DataFrame) (close : Series cell) (w k : nat) (c : Q) (rest : list cell),
    close_column data = Ok close ->
    (1 <= w)%nat ->
    s_values close = (repeat None k ++ Some c :: rest)%list ->
    exists ema,
      calculate_ema data w = Ok ema /\
      s_values ema
        = (repeat None k ++ ewm_values (span_alpha w) (Some c :: rest))%list /\
      nth_error (s_values ema) k = Some (Some c).
Proof.
  intros data close w k c rest Hclose Hw Hvals.
  unfold calculate_ema. rewrite Hclose. cbn [bind].
  rewrite ewm_mean_ok by exact Hw.
  eexists. split; [reflexivity|]. cbn [s_values].
  rewrite Hvals, ewm_values_leading_gaps. split; [reflexivity|].
  rewrite nth_error_app2 by (rewrite repeat_length; lia).
  rewrite repeat_length, Nat.sub_diag. reflexivity.
Qed.

Lemma calculate_ema_leading_gaps_witness :
  exists ema,
    calculate_ema (close_frame [None; None; Some 5; Some 7]) 3 = Ok ema /\
    s_values ema
      = (repeat None 2 ++ ewm_values (span_alpha 3) [Some 5; Some 7])%list /\
    nth_error (s_values ema) 2 = Some (Some 5).
Proof.
  apply (calculate_ema_leading_gaps (close_frame [None; None; Some 5; Some 7])
           (close_of_frame [None; None; Some 5; Some 7]) 3 2 5 [Some 7]).
  - reflexivity.
  - lia.
  - reflexivity.
Defined.

Section SinglePointBands.

Variable Qsqrt : Q -> Q.

Lemma rolling_std_window_one (xs : list cell) :
  all_undefined (rolling (Qstd Qsqrt) 1 xs).
Proof.
  unfold all_undefined, rolling. apply Forall_forall. intros c Hc.
  apply in_map_iff in Hc. destruct Hc as [i [Hi Hin]]. subst c.
  apply in_seq in Hin. unfold rolling_at.
  destruct ((1 <=? 1)%nat && (1 <=? S i)%nat); [|reflexivity].
  destruct (observed (window_values 1 i xs)) as [qs|] eqn:E; [|reflexivity].
  apply observed_length in E.
  rewrite window_values_length in E by lia.
  unfold Qstd, Qvar. rewrite E. reflexivity.
Qed.

(** X29: with a window of 1 the Bollinger bands have no width to show:
    the sample deviation of a single point is NaN, so the upper and the
    lower band are undefined everywhere, while the middle band is the
    moving average of window 1. *)
Theorem bollinger_window_one :
  forall (data : DataFrame) (close : Series cell) (num_std : Q),
    close_column data = Ok close ->
    exists upper middle lower,
      calculate_bollinger_bands Qsqrt data 1 num_std = Ok (upper, middle, lower) /\
      calculate_sma data 1 = Ok middle /\
      all_undefined (s_values upper) /\
      all_undefined (s_values lower) /\
      length (s_values upper) = length (s_values close) /\
      length (s_values lower) = length (s_values close).
Proof.
  intros data close num_std Hclose.
  unfold calculate_bollinger_bands, calculate_sma. rewrite Hclose. cbn [bind].
  eexists _, _, _. split; [reflexivity|]. split; [reflexivity|].
  pose proof (rolling_std_window_one (s_values close)) as Hstd.
  unfold all_undefined in *. rewrite Forall_forall in Hstd.
  unfold series_zip, series_map, rolling_std, rolling_mean. cbn [s_values].
  repeat split.
  - apply zip_all. intros x y _ Hy. apply in_map_iff in Hy.
    destruct Hy as [sd [Hsd Hin]]. rewrite (Hstd sd Hin) in Hsd. subst y.
    destruct x; reflexivity.
  - apply zip_all. intros x y _ Hy. apply in_map_iff in Hy.
    destruct Hy as [sd [Hsd Hin]]. rewrite (Hstd sd Hin) in Hsd. subst y.
    destruct x; reflexivity.
  - rewrite zip_length; rewrite ?length_map, !rolling_length; reflexivity.
  - rewrite zip_length; rewrite ?length_map, !rolling_length; reflexivity.
Qed.

End SinglePointBands.

Lemma bollinger_window_one_witness :
  exists upper middle lower,
    calculate_bollinger_bands Qsqrt_floor (close_frame [Some 4; Some 6]) 1 2
      = Ok (upper, middle, lower) /\
    calculate_sma (close_frame [Some 4; Some 6]) 1 = Ok middle /\
    all_undefined (s_values upper) /\
    all_undefined (s_values lower) /\
    length (s_values upper) = length (s_values (close_of_frame [Some 4; Some 6])) /\
    length (s_values lower) = length (s_values (close_of_frame [Some 4; Some 6])).
Proof.
  apply (bollinger_window_one Qsqrt_floor (close_frame [Some 4; Some 6])
           (close_of_frame [Some 4; Some 6]) 2).
  reflexivity.
Defined.
